(** * audio-notes-app: the turn-reassembly session and the text analytics

    A shallow embedding of the backend server of the audio-notes
    application (the live-transcription message handler, [generateAdvancedSummary],
    [generateEnhancedNotes] and their helpers) together with the properties
    its specification states about them.

    JavaScript strings are sequences of UTF-16 code units; they are modelled
    as lists of code units.  Numbers that the code only counts with are
    [nat] or [Z]; the floating-point scores are binary64 values. *)

From Stdlib Require Import Strings.String Strings.Ascii.
From Stdlib Require Import Bool Arith ZArith NArith QArith Lia.
From Stdlib Require Import Floats.PrimFloat Floats.SpecFloat Floats.FloatOps.
From Stdlib Require Import Numbers.Cyclic.Int63.Uint63.
From Stdlib Require Import List Permutation Sorting.Sorted.
Import ListNotations.
Local Open Scope list_scope.
Local Open Scope nat_scope.

Set Implicit Arguments.

(** ** JavaScript strings and arrays *)

Module JS.

(** A string is the list of its UTF-16 code units. *)
Definition jsstring := list N.

(** An ASCII literal of the source, as a JavaScript string. *)
Definition lit (s : string) : jsstring :=
  List.map N_of_ascii (list_ascii_of_string s).

Definition str_eqb (a b : jsstring) : bool :=
  if list_eq_dec N.eq_dec a b then true else false.

(** [WhiteSpace] and [LineTerminator] of ECMAScript: what [String.prototype.trim]
    strips and what the regular-expression class [\s] matches. *)
Definition is_ws (c : N) : bool :=
  ((9 <=? c) && (c <=? 13) || (c =? 32) || (c =? 160) || (c =? 5760)
   || (8192 <=? c) && (c <=? 8202) || (c =? 8232) || (c =? 8233)
   || (c =? 8239) || (c =? 8287) || (c =? 12288) || (c =? 65279))%N.

Fixpoint trimStart (s : jsstring) : jsstring :=
  match s with
  | c :: r => if is_ws c then trimStart r else s
  | [] => []
  end.

Definition trimEnd (s : jsstring) : jsstring := rev (trimStart (rev s)).

(** [s.trim()] *)
Definition trim (s : jsstring) : jsstring := trimEnd (trimStart s).

(** [parts.join(sep)] *)
Fixpoint join (sep : jsstring) (parts : list jsstring) : jsstring :=
  match parts with
  | [] => []
  | [p] => p
  | p :: rest => p ++ sep ++ join sep rest
  end.

(** A string is truthy when it is not empty. *)
Definition truthy (s : jsstring) : bool :=
  match s with [] => false | _ => true end.

(** [arr.sort(cmp)].  ECMAScript requires the sort to be stable, so for a
    consistent comparator the result is the one of any stable sort; this is
    insertion sort.  [after a b] says that the comparator is positive at
    [(a, b)], that is, that [a] has to come after [b]. *)
Section Sort.
Variable A : Type.
Variable after : A -> A -> bool.

Fixpoint insert (x : A) (l : list A) : list A :=
  match l with
  | [] => [x]
  | y :: r => if after x y then y :: insert x r else x :: l
  end.

Definition Array_sort (l : list A) : list A := fold_right insert [] l.
End Sort.

(** [s.startsWith(p)] *)
Fixpoint startsWith (s p : jsstring) : bool :=
  match p, s with
  | [], _ => true
  | a :: p', b :: s' => (a =? b)%N && startsWith s' p'
  | _ :: _, [] => false
  end.

(** What is left of [s] after its longest prefix of code units that satisfy [f]. *)
Fixpoint dropWhile (f : N -> bool) (s : jsstring) : jsstring :=
  match s with
  | c :: r => if f c then dropWhile f r else s
  | [] => []
  end.

(** The first code unit of [s] exists and satisfies [f]. *)
Definition head_is (f : N -> bool) (s : jsstring) : bool :=
  match s with
  | c :: _ => f c
  | [] => false
  end.

(** [s.split(/\s+/)]: the pieces between the maximal runs of white space.
    [cur] is the piece being read, reversed; [inws] says that the last code
    unit read was white space.  The empty string splits into one empty
    piece, and white space at an end leaves an empty piece there. *)
Fixpoint split_ws_from (cur : jsstring) (inws : bool) (s : jsstring) : list jsstring :=
  match s with
  | [] => [rev cur]
  | c :: r =>
      if is_ws c then
        if inws then split_ws_from [] true r
        else rev cur :: split_ws_from [] true r
      else split_ws_from (c :: cur) false r
  end.

Definition split_ws (s : jsstring) : list jsstring := split_ws_from [] false s.

(** [s.split(sep)] for a non-empty literal [sep]: the occurrences are found
    from the left and do not overlap.  [skip] counts the code units of a
    separator just found that are still to be passed over. *)
Fixpoint split_lit_from (sep : jsstring) (skip : nat) (cur : jsstring) (s : jsstring)
  : list jsstring :=
  match s with
  | [] => [rev cur]
  | c :: r =>
      match skip with
      | S k => split_lit_from sep k cur r
      | O =>
          if startsWith s sep
          then rev cur :: split_lit_from sep (length sep - 1) [] r
          else split_lit_from sep 0 (c :: cur) r
      end
  end.

Definition split_lit (sep s : jsstring) : list jsstring := split_lit_from sep 0 [] s.

(** The classes [\w] and [\d] of a regular expression without the [u] flag. *)
Definition is_digit (c : N) : bool := ((48 <=? c) && (c <=? 57))%N.

Definition is_word (c : N) : bool :=
  (is_digit c || (65 <=? c) && (c <=? 90) || (c =? 95) || (97 <=? c) && (c <=? 122))%N.

(** Matching under the [i] flag.  The patterns of this program consist of
    ASCII letters, the space and four Japanese characters; without the [u]
    flag a code unit outside ASCII is never identified with an ASCII one, and
    the Japanese characters have no case, so a pattern code unit matches the
    code units that are equal to it up to the case of ASCII letters. *)
Definition ascii_upper (c : N) : N :=
  if ((97 <=? c) && (c <=? 122))%N then (c - 32)%N else c.

Definition ci_eqb (a b : N) : bool := (ascii_upper a =? ascii_upper b)%N.

(** [pat] matches at the start of [s], ignoring case: what follows it. *)
Fixpoint match_ci (pat s : jsstring) : option jsstring :=
  match pat, s with
  | [], _ => Some s
  | p :: pat', c :: s' => if ci_eqb p c then match_ci pat' s' else None
  | _ :: _, [] => None
  end.

(** [/\b(alt1|alt2|...)\b/i.test(s)].  A position is a word boundary when
    exactly one of the code units around it is a word character.
    [prev_word] says whether the code unit before the position is one. *)
Definition alt_at (prev_word : bool) (s alt : jsstring) : bool :=
  match match_ci alt s with
  | Some rest =>
      negb (Bool.eqb prev_word (head_is is_word s))
      && negb (Bool.eqb (head_is is_word (rev alt)) (head_is is_word rest))
  | None => false
  end.

Fixpoint test_from (alts : list jsstring) (prev_word : bool) (s : jsstring) : bool :=
  existsb (alt_at prev_word s) alts
  || match s with
     | [] => false
     | c :: r => test_from alts (is_word c) r
     end.

Definition test_words (alts : list jsstring) (s : jsstring) : bool :=
  test_from alts false s.

(** *** Numbers *)

(** A count as a JavaScript number. *)
Definition Number_of_nat (n : nat) : float :=
  PrimFloat.of_uint63 (Uint63.of_Z (Z.of_nat n)).

Definition Number_of_Z (z : Z) : float :=
  if (z <? 0)%Z then PrimFloat.opp (PrimFloat.of_uint63 (Uint63.of_Z (- z)))
  else PrimFloat.of_uint63 (Uint63.of_Z z).

(** [Math.floor], [Math.ceil] and [Math.round] of a finite number, as an
    integer.  A finite double is [m * 2^e] for integers [m] and [e].
    [Math.round] rounds to the nearest integer, a tie towards plus infinity.
    The program applies them to finite numbers only. *)
Definition Math_floor (x : float) : Z :=
  match Prim2SF x with
  | S754_finite s m e =>
      let v := if s then Z.neg m else Z.pos m in
      if (0 <=? e)%Z then (v * 2 ^ e)%Z else (v / 2 ^ (- e))%Z
  | _ => 0%Z
  end.

Definition Math_ceil (x : float) : Z := (- Math_floor (PrimFloat.opp x))%Z.

Definition Math_round (x : float) : Z :=
  match Prim2SF x with
  | S754_finite s m e =>
      let v := if s then Z.neg m else Z.pos m in
      if (0 <=? e)%Z then (v * 2 ^ e)%Z
      else ((2 * v + 2 ^ (- e)) / 2 ^ (1 - e))%Z
  | _ => 0%Z
  end.

(** The quotient of two counts is kept as the exact fraction; [Number_of_Q]
    is the double that the division of the two counts gives. *)
Definition Number_of_Q (q : Q) : float :=
  PrimFloat.div (Number_of_Z (Qnum q)) (Number_of_Z (Z.pos (Qden q))).

(** *** Predicates used in the statements *)

(** A string that does not begin with white space. *)
Definition clean_start (s : jsstring) : Prop :=
  match s with
  | [] => True
  | c :: _ => is_ws c = false
  end.

(** A string that neither begins nor ends with white space. *)
Definition trimmed (s : jsstring) : Prop := clean_start s /\ clean_start (rev s).

(** Sorting by a numeric key: [(a, b) => key(a) - key(b)] is positive. *)
Section Keys.
Variable A : Type.
Variable key : A -> Z.

Definition afterKey (a b : A) : bool := (key a - key b >? 0)%Z.
Definition key_le (a b : A) : Prop := (key a <= key b)%Z.
Definition key_lt (a b : A) : Prop := (key a < key b)%Z.

End Keys.

End JS.

Import JS.

(** ** The live-transcription session (the [assemblyWs] message handler) *)

Module Session.

(** The payload of a [Turn] message.  A field that the provider leaves out
    (or sends as [null]) is [None].  [turn_order] is the integer the
    provider numbers the turn with.  The handler has it from [JSON.parse],
    as a double: the integers of magnitude at most [2^53] are doubles, each
    of them a key of its own, whereas larger integers are rounded and two of
    them can be one key of the [Map].  The statements that tell two keys
    apart are about keys within that range ([exactKey] below). *)
Record TurnData := mkTurn {
  turn_order : option Z;
  end_of_turn : bool;
  transcript : option jsstring;
  utterance : option jsstring
}.

(** A parsed message of the recognition stream.  [Other] stands for a
    message of an unknown type and for one that does not parse: both are
    logged and dropped. *)
Inductive Message :=
| Begin (id : jsstring)
| Turn (data : TurnData)
| Termination
| Other.

(** What the handler sends to the client. *)
Inductive Notification :=
| session_start (sessionId : jsstring)
| partial_transcript (text : jsstring)
| final_transcript (text fullTranscript : jsstring)
| session_end (fullTranscript : jsstring).

(** [completedTurns] is a JavaScript [Map]: its entries are kept in
    insertion order and its keys are distinct. *)
Definition TurnMap := list (Z * jsstring).

Fixpoint Map_has (k : Z) (m : TurnMap) : bool :=
  match m with
  | [] => false
  | (k', _) :: r => if Z.eqb k k' then true else Map_has k r
  end.

Fixpoint Map_get (k : Z) (m : TurnMap) : option jsstring :=
  match m with
  | [] => None
  | (k', v) :: r => if Z.eqb k k' then Some v else Map_get k r
  end.

Fixpoint Map_set (k : Z) (v : jsstring) (m : TurnMap) : TurnMap :=
  match m with
  | [] => [(k, v)]
  | (k', v') :: r => if Z.eqb k k' then (k, v) :: r else (k', v') :: Map_set k v r
  end.

(** The variables the connection handler closes over. *)
Record State := mkState {
  sessionId : jsstring;
  completedTurns : TurnMap;
  currentPartialText : jsstring
}.

(** The state when the connection opens; [sid] is the time stamp. *)
Definition initial (sid : jsstring) : State := mkState sid [] [].

(** [(a, b) => a[0] - b[0]] is positive. *)
Definition byOrder (a b : Z * jsstring) : bool := (fst a - fst b >? 0)%Z.

Definition sortedTurns (m : TurnMap) : list jsstring :=
  List.map snd (Array_sort byOrder m).

Definition buildFullTranscript (m : TurnMap) : jsstring :=
  trim (join (lit " ") (sortedTurns m)).

(** [data.turn_order ?? 0] *)
Definition turnOrder (d : TurnData) : Z :=
  match turn_order d with Some k => k | None => 0%Z end.

(** [a || b] on optional strings. *)
Definition orElse (a : option jsstring) (b : jsstring) : jsstring :=
  match a with
  | Some s => if truthy s then s else b
  | None => b
  end.

(** [(data.utterance || data.transcript || '').trim()] *)
Definition turnText (d : TurnData) : jsstring :=
  trim (orElse (utterance d) (orElse (transcript d) [])).

(** One run of the ['message'] handler: the new state and what is sent. *)
Definition onMessage (st : State) (msg : Message) : State * list Notification :=
  match msg with
  | Begin id =>
      (mkState id (completedTurns st) (currentPartialText st), [session_start id])
  | Turn data =>
      if end_of_turn data then
        if truthy (turnText data) && negb (Map_has (turnOrder data) (completedTurns st)) then
          let turns := Map_set (turnOrder data) (turnText data) (completedTurns st) in
          (mkState (sessionId st) turns [],
           [final_transcript (turnText data) (buildFullTranscript turns)])
        else (st, [])
      else if truthy (orElse (transcript data) []) then
        let partial := orElse (transcript data) [] in
        (mkState (sessionId st) (completedTurns st) partial, [partial_transcript partial])
      else (st, [])
  | Termination => (st, [session_end (buildFullTranscript (completedTurns st))])
  | Other => (st, [])
  end.

(** The state after a sequence of messages, in arrival order. *)
Definition deliver (msgs : list Message) (st : State) : State :=
  fold_left (fun s m => fst (onMessage s m)) msgs st.

(** The states a session can be in. *)
Inductive reachable : State -> Prop :=
| reach_initial sid : reachable (initial sid)
| reach_step st msg : reachable st -> reachable (fst (onMessage st msg)).

(** *** Notions used in the statements *)

(** What a delivery of completed turns records: the order key and the
    trimmed text of every turn whose trimmed text is not empty. *)
Definition recorded (ds : list TurnData) : TurnMap :=
  List.map (fun d => (turnOrder d, turnText d))
           (List.filter (fun d => truthy (turnText d)) ds).

(** The text of a turn as the provider sent it:
    [data.utterance || data.transcript || '']. *)
Definition rawText (d : TurnData) : jsstring :=
  orElse (utterance d) (orElse (transcript d) []).

(** A text the map may hold: not empty, no white space at either end. *)
Definition storedText (t : jsstring) : Prop := t <> [] /\ trim t = t.

(** An order key that a JavaScript number holds exactly: an integer of
    magnitude at most [2^53].  On such keys the equality of the [Map], the
    comparison [>] and the sign of the difference [a[0] - b[0]] are those of
    the integers. *)
Definition exactKey (k : Z) : Prop := (- 2 ^ 53 <= k <= 2 ^ 53)%Z.

End Session.

(** ** The text analytics (summaries and enhanced notes) *)

Module Analytics.

Definition nl : jsstring := [10%N].

(** The stop words, as the source lists them. *)
Definition STOP_WORDS : list jsstring := List.map lit
  ["i"; "me"; "my"; "myself"; "we"; "our"; "ours"; "ourselves"; "you"; "your"; "yours";
   "yourself"; "yourselves"; "he"; "him"; "his"; "himself"; "she"; "her"; "hers"; "herself";
   "it"; "its"; "itself"; "they"; "them"; "their"; "theirs"; "themselves"; "what"; "which";
   "who"; "whom"; "this"; "that"; "these"; "those"; "am"; "is"; "are"; "was"; "were"; "be";
   "been"; "being"; "have"; "has"; "had"; "having"; "do"; "does"; "did"; "doing"; "a"; "an";
   "the"; "and"; "but"; "if"; "or"; "because"; "as"; "until"; "while"; "of"; "at"; "by";
   "for"; "with"; "about"; "against"; "between"; "into"; "through"; "during"; "before";
   "after"; "above"; "below"; "to"; "from"; "up"; "down"; "in"; "out"; "on"; "off"; "over";
   "under"; "again"; "further"; "then"; "once"; "here"; "there"; "when"; "where"; "why";
   "how"; "all"; "each"; "few"; "more"; "most"; "other"; "some"; "such"; "no"; "nor"; "not";
   "only"; "own"; "same"; "so"; "than"; "too"; "very"; "s"; "t"; "can"; "will"; "just";
   "don"; "should"; "now"; "d"; "ll"; "m"; "o"; "re"; "ve"; "y"; "ain"; "aren"; "couldn";
   "didn"; "doesn"; "hadn"; "hasn"; "haven"; "isn"; "ma"; "mightn"; "mustn"; "needn";
   "shan"; "shouldn"; "wasn"; "weren"; "won"; "wouldn"; "um"; "uh"; "like"; "know"; "yeah";
   "okay"; "ok"; "right"; "well"; "going"; "got"; "get"; "thing"; "things"; "way"; "would";
   "could"; "also"; "really"; "actually"; "basically"; "just"; "think"; "something"; "kind"]%string.

(** A [Set] of strings: its elements in insertion order, without repeats. *)
Definition Set_has (x : jsstring) (s : list jsstring) : bool := existsb (str_eqb x) s.

Definition Set_add (s : list jsstring) (x : jsstring) : list jsstring :=
  if Set_has x s then s else s ++ [x].

(** [new Set(items)] *)
Definition Set_of (items : list jsstring) : list jsstring := fold_left Set_add items [].

(** A [Map] from words to counts: its entries in insertion order. *)
Definition WordCounts := list (jsstring * nat).

(** [m.get(w) || 0] *)
Fixpoint count_of (w : jsstring) (m : WordCounts) : nat :=
  match m with
  | [] => 0
  | (w', n) :: r => if str_eqb w w' then n else count_of w r
  end.

(** [m.set(w, (m.get(w) || 0) + 1)]: an entry keeps its place. *)
Fixpoint increment (w : jsstring) (m : WordCounts) : WordCounts :=
  match m with
  | [] => [(w, 1)]
  | (w', n) :: r => if str_eqb w w' then (w', S n) :: r else (w', n) :: increment w r
  end.

(** [n || 1] *)
Definition or1 (n : nat) : nat := match n with O => 1 | _ => n end.

(** The elements of an array with their indices. *)
Definition indexed (A : Type) (l : list A) : list (nat * A) :=
  combine (seq 0 (length l)) l.

(** *** Segmentation *)

(** The class [[.!?]]. *)
Definition is_terminator (c : N) : bool := ((c =? 46) || (c =? 33) || (c =? 63))%N.

(** [.replace(/([.!?])\s+/g, '$1|||')]; [skip] says that the white space
    after a terminator is being passed over. *)
Fixpoint mark_sentence_ends (skip : bool) (s : jsstring) : jsstring :=
  match s with
  | [] => []
  | c :: r =>
      if skip && is_ws c then mark_sentence_ends true r
      else if is_terminator c && head_is is_ws r
      then c :: lit "|||" ++ mark_sentence_ends true r
      else c :: mark_sentence_ends false r
  end.

(** [.replace(/,\s+/g, '|||')] *)
Fixpoint mark_commas (skip : bool) (s : jsstring) : jsstring :=
  match s with
  | [] => []
  | c :: r =>
      if skip && is_ws c then mark_commas true r
      else if (c =? 44)%N && head_is is_ws r
      then lit "|||" ++ mark_commas true r
      else c :: mark_commas false r
  end.

Definition conjunctions : list jsstring := List.map lit
  ["and"; "but"; "so"; "because"; "however"; "therefore"; "then"; "also"]%string.

(** The first conjunction that stands at the start of [t] and is followed
    by white space: the text it matched and what follows it. *)
Fixpoint conjunction_at (alts : list jsstring) (t : jsstring) : option (jsstring * jsstring) :=
  match alts with
  | [] => None
  | alt :: alts' =>
      match match_ci alt t with
      | Some rest =>
          if head_is is_ws rest then Some (firstn (length alt) t, rest)
          else conjunction_at alts' t
      | None => conjunction_at alts' t
      end
  end.

(** [.replace(/\s+(and|but|so|because|however|therefore|then|also)\s+/gi, '|||$1 ')].
    A match takes a whole run of white space, the conjunction and the whole
    run of white space after it; [skip] counts the code units of a match
    that are still to be passed over. *)
Fixpoint mark_conjunctions (skip : nat) (s : jsstring) : jsstring :=
  match s with
  | [] => []
  | c :: r =>
      match skip with
      | S k => mark_conjunctions k r
      | O =>
          if is_ws c then
            match conjunction_at conjunctions (trimStart s) with
            | Some (word, rest) =>
                lit "|||" ++ word ++ lit " "
                ++ mark_conjunctions (length s - length (trimStart rest) - 1) r
            | None => c :: mark_conjunctions 0 r
            end
          else c :: mark_conjunctions 0 r
      end
  end.

(** The word chunks of the third tier:
    [for (i = 0; i < words.length; i += 15) words.slice(i, i + 15).join(' ')]. *)
Definition wordChunks (words : list jsstring) : list jsstring :=
  List.map (fun j => join (lit " ") (firstn 15 (skipn (15 * j) words)))
           (seq 0 ((length words + 14) / 15)).

Definition splitIntoSentences (text : jsstring) : list jsstring :=
  let sentences :=
    List.filter (fun s => 10 <? length s)
      (List.map trim (split_lit (lit "|||") (mark_sentence_ends false text))) in
  let sentences :=
    if (length sentences <? 3) && (100 <? length text) then
      List.filter (fun s => 15 <? length s)
        (List.map trim
           (split_lit (lit "|||") (mark_conjunctions 0 (mark_commas false text))))
    else sentences in
  let sentences :=
    if (length sentences <? 3) && (100 <? length text) then
      List.filter (fun chunk => 15 <? length chunk) (wordChunks (split_ws text))
    else sentences in
  sentences.

(** *** Scoring *)

(** The alternatives of the six patterns of [importantPatterns]. *)
Definition importantPatterns : list (list jsstring) :=
  [ List.map lit ["important"; "key"; "main"; "critical"; "essential"; "significant"; "crucial"]%string;
    List.map lit ["conclusion"; "summary"; "result"; "finding"]%string
      ++ [[27770; 23450]; [27770; 12417; 12383]]%N;
    List.map lit ["must"; "need to"; "have to"; "should"; "required"; "necessary"]%string;
    List.map lit ["goal"; "objective"; "purpose"; "aim"; "target"]%string;
    List.map lit ["problem"; "issue"; "challenge"; "solution"; "resolve"]%string;
    List.map lit ["first"; "second"; "third"; "finally"; "lastly"; "in conclusion"]%string ].

(** The alternatives of the pattern that marks an action item. *)
Definition actionPattern : list jsstring := List.map lit
  ["need to"; "have to"; "must"; "should"; "will"; "going to"; "plan to"; "todo"; "task";
   "action"; "deadline"; "by"; "until"; "before"]%string.

Record Scored := mkScored {
  sentence : jsstring;
  index : nat;
  score : float;
  isAction : bool
}.

Record SummaryResult := mkSummary {
  keyPoints : list jsstring;
  summary : jsstring;
  actionItems : list jsstring;
  wordCount : nat;
  sentenceCount : nat;
  compressionRatio : option Z
}.

(** [.replace(/[^\w\s]/g, ' ')] *)
Definition blank_punctuation (s : jsstring) : jsstring :=
  List.map (fun c => if is_word c || is_ws c then c else 32%N) s.

(** [.replace(/\.\./g, '.')] *)
Fixpoint squeeze_dots (s : jsstring) : jsstring :=
  match s with
  | a :: ((b :: r) as t) =>
      if ((a =? 46) && (b =? 46))%N then 46%N :: squeeze_dots r
      else a :: squeeze_dots t
  | _ => s
  end.

(** [(a, b) => b.score - a.score] is positive. *)
Definition byScore (a b : Scored) : bool :=
  PrimFloat.ltb 0%float (PrimFloat.sub (score b) (score a)).

(** [(a, b) => a.index - b.index] is positive. *)
Definition byIndex (a b : nat * jsstring) : bool :=
  (Z.of_nat (fst a) - Z.of_nat (fst b) >? 0)%Z.

(** [Math.min(Math.max(2, Math.ceil(sentenceCount * 0.3)), 5)] *)
Definition targetSentences (sentenceCount : nat) : Z :=
  Z.min (Z.max 2 (Math_ceil (PrimFloat.mul (Number_of_nat sentenceCount) 0x1.3333333333333p-2%float))) 5.

(** The same number in exact arithmetic: [min (max 2 (ceil (3 n / 10))) 5]. *)
Definition exactTarget (sentenceCount : nat) : Z :=
  Z.min (Z.max 2 ((3 * Z.of_nat sentenceCount + 9) / 10)) 5.

(** The selection loop:
    [for (const item of rankedSentences) {
       if (summaryParts.length >= targetSentences) break;
       selectedIndices.add(item.index);
       summaryParts.push({ index: item.index, sentence: item.sentence }); }].
    [acc] is the pair of [selectedIndices] and [summaryParts]. *)
Definition add_index (s : list nat) (i : nat) : list nat :=
  if existsb (Nat.eqb i) s then s else s ++ [i].

Fixpoint selectTop (target : Z) (ranked : list Scored)
  (acc : list nat * list (nat * jsstring)) : list nat * list (nat * jsstring) :=
  match ranked with
  | [] => acc
  | item :: rest =>
      if (target <=? Z.of_nat (length (snd acc)))%Z then acc
      else selectTop target rest
             (add_index (fst acc) (index item),
              snd acc ++ [(index item, sentence item)])
  end.

(** The back-fill of the key points:
    [if (keyPoints.length < 5 && !keyPoints.includes(p.sentence)) keyPoints.push(p.sentence)] *)
Definition backfill (keyPoints : list jsstring) (p : nat * jsstring) : list jsstring :=
  if (length keyPoints <? 5) && negb (Set_has (snd p) keyPoints)
  then keyPoints ++ [snd p] else keyPoints.

(** [Math.round((summary.split(/\s+/).length / wordCount) * 100)] *)
Definition percentage (summaryWords wordCount : nat) : Z :=
  Math_round
    (PrimFloat.mul (PrimFloat.div (Number_of_nat summaryWords) (Number_of_nat wordCount))
                   100%float).

(** [jaccardSimilarity(set1, set2)]: the exact value of
    [intersection.size / union.size]. *)
Definition jaccardSimilarity (set1 set2 : list jsstring) : Q :=
  let intersection := Set_of (List.filter (fun x => Set_has x set2) set1) in
  let union := Set_of (set1 ++ set2) in
  if 0 <? length union
  then Z.of_nat (length intersection) # Pos.of_nat (length union)
  else 0.

(** [line.startsWith('-') || line.startsWith('*') || /^\d+\./.test(line)] *)
Definition listFormatted (line : jsstring) : bool :=
  startsWith line (lit "-") || startsWith line (lit "*")
  || match line with
     | c :: r => is_digit c && head_is (fun x => (x =? 46)%N) (dropWhile is_digit r)
     | [] => false
     end.

Record Related := mkRelated {
  relatedSentence : jsstring;
  matchCount : nat
}.

(** [(a, b) => b.matchCount - a.matchCount] is positive. *)
Definition byMatchCount (a b : Related) : bool :=
  (Z.of_nat (matchCount b) - Z.of_nat (matchCount a) >? 0)%Z.

(** [(a, b) => b[1] - a[1]] is positive. *)
Definition byCount (a b : jsstring * nat) : bool :=
  (Z.of_nat (snd b) - Z.of_nat (snd a) >? 0)%Z.

(** What the host provides: [String.prototype.toLowerCase], whose Unicode
    tables are the engine's, and [Math.log], whose values ECMAScript leaves
    to the implementation. *)
Section Host.
Variable toLowerCase : jsstring -> jsstring.
Variable Math_log : float -> float.

Definition tokenize (text : jsstring) : list jsstring :=
  List.filter (fun word => 1 <? length word)
    (split_ws (blank_punctuation (toLowerCase text))).

Definition getContentWords (text : jsstring) : list jsstring :=
  List.filter (fun word => negb (Set_has word STOP_WORDS) && (2 <? length word))
    (tokenize text).

(** The entries of one sentence of the first loop of [calculateTFIDF]. *)
Definition wordFreqOf (words : list jsstring) : WordCounts :=
  fold_left (fun wordFreq word => increment word wordFreq) words [].

Definition addDocFreq (wordDocFreq : WordCounts) (sentence : jsstring) : WordCounts :=
  fold_left (fun m word => increment word m) (Set_of (getContentWords sentence)) wordDocFreq.

Definition calculateTFIDF (sentences : list jsstring) : list float :=
  let wordDocFreq := fold_left addDocFreq sentences [] in
  let sentenceWordFreq := List.map (fun s => wordFreqOf (getContentWords s)) sentences in
  let numDocs := length sentences in
  List.map
    (fun '(sentence, wordFreq) =>
       let words := getContentWords sentence in
       let maxFreq := fold_left Nat.max (List.map snd wordFreq) 1 in
       let score :=
         fold_left
           (fun score word =>
              let tf := PrimFloat.div (Number_of_nat (count_of word wordFreq))
                                      (Number_of_nat maxFreq) in
              let idf := Math_log (PrimFloat.div (Number_of_nat numDocs)
                                     (Number_of_nat (or1 (count_of word wordDocFreq)))) in
              PrimFloat.add score (PrimFloat.mul tf idf))
           words 0%float in
       PrimFloat.div score (PrimFloat.sqrt (Number_of_nat (or1 (length words)))))
    (combine sentences sentenceWordFreq).

Definition positionScore (count idx : nat) : float :=
  if idx =? 0 then 1.5%float
  else if idx =? count - 1 then 0x1.3333333333333p+0%float
  else if PrimFloat.ltb (Number_of_nat idx)
            (PrimFloat.mul (Number_of_nat count) 0x1.999999999999ap-3%float)
  then 0x1.199999999999ap+0%float
  else 1%float.

Definition keywordScore (sentence : jsstring) : float :=
  fold_left
    (fun score pattern =>
       if test_words pattern sentence
       then PrimFloat.add score 0x1.3333333333333p-2%float else score)
    importantPatterns 1%float.

Definition combinedScores (sentences : list jsstring) : list Scored :=
  List.map
    (fun '(idx, (sentence, tfidf)) =>
       mkScored sentence idx
         (PrimFloat.mul (PrimFloat.mul tfidf (positionScore (length sentences) idx))
                        (keywordScore sentence))
         (test_words actionPattern sentence))
    (indexed (combine sentences (calculateTFIDF sentences))).

Definition rankedSentences (sentences : list jsstring) : list Scored :=
  Array_sort byScore (combinedScores sentences).

(** [selectedIndices] and [summaryParts] when the selection loop ends. *)
Definition selection (sentences : list jsstring) : list nat * list (nat * jsstring) :=
  selectTop (targetSentences (length sentences)) (rankedSentences sentences) ([], []).

(** [summaryParts] after [summaryParts.sort((a, b) => a.index - b.index)]. *)
Definition summaryParts (sentences : list jsstring) : list (nat * jsstring) :=
  Array_sort byIndex (snd (selection sentences)).

(** [summaryParts.map(p => p.sentence).join('. ').replace(/\.\./g, '.')] *)
Definition assembledSummary (sentences : list jsstring) : jsstring :=
  squeeze_dots (join (lit ". ") (List.map snd (summaryParts sentences))).

Definition keyPointsOf (sentences : list jsstring) : list jsstring :=
  let selectedIndices := fst (selection sentences) in
  let keyPoints :=
    List.map sentence
      (firstn 5
         (List.filter (fun item => negb (existsb (Nat.eqb (index item)) selectedIndices))
            (rankedSentences sentences))) in
  if length keyPoints <? 3
  then fold_left backfill (summaryParts sentences) keyPoints
  else keyPoints.

Definition actionItemsOf (sentences : list jsstring) : list jsstring :=
  List.map sentence (firstn 5 (List.filter isAction (combinedScores sentences))).

Definition generateAdvancedSummary (text : jsstring) : SummaryResult :=
  if negb (truthy text) || (length (trim text) =? 0) then
    mkSummary [] [] [] 0 0 None
  else
    let cleanText := trim text in
    let words := split_ws cleanText in
    let wordCount := length words in
    if wordCount <? 30 then
      mkSummary [cleanText] cleanText [] wordCount 1 None
    else
      let sentences := splitIntoSentences cleanText in
      let sentenceCount := length sentences in
      let summary := assembledSummary sentences in
      mkSummary
        (keyPointsOf sentences)
        (if truthy summary then summary else firstn 200 cleanText ++ lit "...")
        (actionItemsOf sentences)
        wordCount
        sentenceCount
        (Some (percentage (length (split_ws summary)) wordCount)).

(** *** Enhanced notes *)

(** [noteLines]: the non-blank trimmed lines of the notes. *)
Definition noteLinesOf (existingNotes : jsstring) : list jsstring :=
  List.filter (fun line => 0 <? length line) (List.map trim (split_lit nl existingNotes)).

Definition noteTopicsOf (noteLines : list jsstring) : WordCounts :=
  fold_left
    (fun noteTopics line =>
       fold_left
         (fun noteTopics word =>
            if 3 <? length word then increment word noteTopics else noteTopics)
         (getContentWords line) noteTopics)
    noteLines [].

Definition topTopicsOf (noteTopics : WordCounts) : list jsstring :=
  Set_of (List.map fst (firstn 20 (Array_sort byCount noteTopics))).

(** One turn of [transcriptSentences.forEach]; [acc] is the pair of
    [relatedInfo] and [newInfo]. *)
Definition classify (noteLines topTopics : list jsstring)
  (acc : list Related * list jsstring) (sentence : jsstring)
  : list Related * list jsstring :=
  let sentenceWords := Set_of (getContentWords sentence) in
  let matchingTopics := List.filter (fun word => Set_has word topTopics) sentenceWords in
  let isDuplicate :=
    existsb
      (fun line =>
         let similarity :=
           jaccardSimilarity (Set_of (getContentWords line)) sentenceWords in
         PrimFloat.ltb 0x1.999999999999ap-2%float (Number_of_Q similarity))
      noteLines in
  if negb isDuplicate && (20 <? length sentence) then
    if 1 <=? length matchingTopics
    then (fst acc ++ [mkRelated sentence (length matchingTopics)], snd acc)
    else (fst acc, snd acc ++ [sentence])
  else acc.

Definition generateEnhancedNotes (existingNotes transcription : jsstring) : jsstring :=
  let noteLines := noteLinesOf existingNotes in
  let topTopics := topTopicsOf (noteTopicsOf noteLines) in
  let transcriptSentences := splitIntoSentences transcription in
  let transcriptSummary := generateAdvancedSummary transcription in
  let '(relatedInfo, newInfo) :=
    fold_left (classify noteLines topTopics) transcriptSentences ([], []) in
  let relatedInfo := Array_sort byMatchCount relatedInfo in
  let enhanced := lit "# Enhanced Notes" ++ nl ++ nl in
  let enhanced := enhanced ++ lit "## Original Notes" ++ nl in
  let enhanced :=
    fold_left
      (fun enhanced line =>
         if listFormatted line then enhanced ++ line ++ nl
         else enhanced ++ lit "- " ++ line ++ nl)
      noteLines enhanced in
  let enhanced := enhanced ++ nl in
  let enhanced :=
    if 0 <? length relatedInfo then
      let enhanced := enhanced ++ lit "## Expanded Details from Recording" ++ nl in
      let enhanced :=
        enhanced ++ lit "_Information from the recording that relates to your notes:_"
        ++ nl ++ nl in
      let enhanced :=
        fold_left (fun enhanced item => enhanced ++ lit "- " ++ relatedSentence item ++ nl)
          (firstn 6 relatedInfo) enhanced in
      enhanced ++ nl
    else enhanced in
  let enhanced :=
    if 0 <? length newInfo then
      let enhanced := enhanced ++ lit "## New Information from Recording" ++ nl in
      let enhanced :=
        enhanced
        ++ lit "_Additional topics discussed that weren't in your original notes:_"
        ++ nl ++ nl in
      let enhanced :=
        fold_left (fun enhanced sentence => enhanced ++ lit "- " ++ sentence ++ nl)
          (firstn 5 newInfo) enhanced in
      enhanced ++ nl
    else enhanced in
  let enhanced :=
    if 0 <? length (keyPoints transcriptSummary) then
      let enhanced := enhanced ++ lit "## Key Points" ++ nl in
      let enhanced :=
        fold_left (fun enhanced point => enhanced ++ lit "- " ++ point ++ nl)
          (firstn 5 (keyPoints transcriptSummary)) enhanced in
      enhanced ++ nl
    else enhanced in
  let enhanced :=
    if 0 <? length (actionItems transcriptSummary) then
      let enhanced := enhanced ++ lit "## Action Items" ++ nl in
      let enhanced :=
        fold_left (fun enhanced item => enhanced ++ lit "- [ ] " ++ item ++ nl)
          (actionItems transcriptSummary) enhanced in
      enhanced ++ nl
    else enhanced in
  let enhanced := enhanced ++ lit "## Recording Summary" ++ nl in
  let enhanced := enhanced ++ summary transcriptSummary ++ nl in
  enhanced.

(** *** Notions used in the statements *)

(** [relatedInfo] (before it is sorted) and [newInfo] when the loop over
    the sentences of the transcription ends. *)
Definition classification (existingNotes transcription : jsstring)
  : list Related * list jsstring :=
  let noteLines := noteLinesOf existingNotes in
  fold_left (classify noteLines (topTopicsOf (noteTopicsOf noteLines)))
            (splitIntoSentences transcription) ([], []).

(** The sentences of the section of related details, most matches first. *)
Definition relatedEntries (existingNotes transcription : jsstring) : list jsstring :=
  List.map relatedSentence
    (firstn 6 (Array_sort byMatchCount (fst (classification existingNotes transcription)))).

(** The sentences of the section of new information. *)
Definition newEntries (existingNotes transcription : jsstring) : list jsstring :=
  firstn 5 (snd (classification existingNotes transcription)).

End Host.

(** How a line of the notes is written out. *)
Definition renderNote (line : jsstring) : jsstring :=
  if listFormatted line then line ++ nl else lit "- " ++ line ++ nl.

(** A section that is left out when it has no entry: the heading, one line
    per entry, and an empty line. *)
Definition optionalSection (heading bullet : jsstring) (entries : list jsstring) : jsstring :=
  match entries with
  | [] => []
  | _ => heading ++ concat (List.map (fun e => bullet ++ e ++ nl) entries) ++ nl
  end.

Definition relatedHeading : jsstring :=
  lit "## Expanded Details from Recording" ++ nl
  ++ lit "_Information from the recording that relates to your notes:_" ++ nl ++ nl.

Definition newHeading : jsstring :=
  lit "## New Information from Recording" ++ nl
  ++ lit "_Additional topics discussed that weren't in your original notes:_" ++ nl ++ nl.

(** The number of distinct strings of a list. *)
Definition distinct (l : list jsstring) : nat :=
  length (nodup (list_eq_dec N.eq_dec) l).

(** The sections that the enhancement derives from the recording. *)
Definition derivedSections (related new : list jsstring) (s : SummaryResult) : jsstring :=
  optionalSection relatedHeading (lit "- ") related
  ++ optionalSection newHeading (lit "- ") new
  ++ optionalSection (lit "## Key Points" ++ nl) (lit "- ") (firstn 5 (keyPoints s))
  ++ optionalSection (lit "## Action Items" ++ nl) (lit "- [ ] ") (actionItems s)
  ++ (lit "## Recording Summary" ++ nl ++ summary s ++ nl).

(** A line that is not blank. *)
Definition nonBlank (line : jsstring) : bool := negb (forallb is_ws line).

(** The strings of [a] that occur in [b]. *)
Definition common (a b : list jsstring) : list jsstring :=
  List.filter (fun x => if in_dec (list_eq_dec N.eq_dec) x b then true else false) a.

(** *** A host to run examples on

    [toLowerCase_ascii] is [toLowerCase] on strings of ASCII code units.
    [Math_log_series] computes the logarithm from the mantissa [m] and the
    exponent [e] of [x = m * 2^e], [1/2 <= m < 1], as
    [2 * atanh ((m - 1) / (m + 1)) + e * ln 2], with the special values
    ECMAScript prescribes. *)
Definition toLowerCase_ascii (s : jsstring) : jsstring :=
  List.map (fun c => if ((65 <=? c) && (c <=? 90))%N then (c + 32)%N else c) s.

Definition Math_log_series (x : float) : float :=
  if PrimFloat.is_nan x then PrimFloat.nan
  else if PrimFloat.ltb x 0%float then PrimFloat.nan
  else if PrimFloat.eqb x 0%float then PrimFloat.neg_infinity
  else if PrimFloat.eqb x PrimFloat.infinity then PrimFloat.infinity
  else if PrimFloat.eqb x 1%float then 0%float
  else
    let (m, e) := Z.frexp x in
    let y := PrimFloat.div (PrimFloat.sub m 1%float) (PrimFloat.add m 1%float) in
    let y2 := PrimFloat.mul y y in
    let series :=
      fold_right
        (fun k acc =>
           PrimFloat.add (PrimFloat.div 1%float (Number_of_nat (2 * k + 1)))
                         (PrimFloat.mul y2 acc))
        0%float (seq 0 20) in
    PrimFloat.add (PrimFloat.mul (PrimFloat.mul 2%float y) series)
                  (PrimFloat.mul (Number_of_Z e) 0x1.62e42fefa39efp-1%float).

(** *** Sample inputs *)

(** Thirty words without punctuation. *)
Definition thirtyWords : jsstring :=
  lit "one two three four five six seven eight nine ten eleven twelve thirteen fourteen fifteen sixteen seventeen eighteen nineteen twenty twentyone twentytwo twentythree twentyfour twentyfive twentysix twentyseven twentyeight twentynine thirty".

(** Thirty times the two characters [a.], separated by spaces. *)
Definition thirtyStubs : jsstring := join (lit " ") (repeat (lit "a.") 30).

End Analytics.

(** ** What a session sends *)

Module SessionRun.
Import Session.

(** The handler run on a sequence of messages: the state at the end and all
    that was sent, in order. *)
Fixpoint run (msgs : list Message) (st : State) : State * list Notification :=
  match msgs with
  | [] => (st, [])
  | m :: rest =>
      let (st1, out1) := onMessage st m in
      let (st2, out2) := run rest st1 in
      (st2, out1 ++ out2)
  end.

(** The texts of the [final_transcript] notifications of an output. *)
Fixpoint finalTexts (out : list Notification) : list jsstring :=
  match out with
  | [] => []
  | final_transcript text _ :: rest => text :: finalTexts rest
  | _ :: rest => finalTexts rest
  end.

(** A message that can commit a turn: a [Turn] with [end_of_turn]. *)
Definition completes (m : Message) : bool :=
  match m with
  | Turn d => end_of_turn d
  | _ => false
  end.

End SessionRun.

(** ** The session that keeps a running transcript

    The second server of the source keeps the transcript as a string to
    which completed turns are appended, and the order key of the last
    completed turn. *)

Module RunningSession.
Import Session.

Record State := mkState {
  sessionId : jsstring;
  fullTranscript : jsstring;
  currentTurnText : jsstring;
  lastCompletedTurn : Z
}.

(** [fullTranscript = ''], [currentTurnText = ''], [lastCompletedTurn = -1]. *)
Definition initial (sid : jsstring) : State := mkState sid [] [] (-1).

(** [data.turn_order || 0] *)
Definition turnOrder (d : TurnData) : Z :=
  match turn_order d with
  | Some k => if (k =? 0)%Z then 0%Z else k
  | None => 0%Z
  end.

Definition onMessage (st : State) (msg : Message) : State * list Notification :=
  match msg with
  | Begin id =>
      (mkState id (fullTranscript st) (currentTurnText st) (lastCompletedTurn st),
       [session_start id])
  | Turn data =>
      if end_of_turn data && (turnOrder data >? lastCompletedTurn st)%Z then
        let turnText := orElse (utterance data) (orElse (transcript data) []) in
        if truthy (trim turnText) then
          let full :=
            if truthy (fullTranscript st)
            then fullTranscript st ++ lit " " ++ trim turnText
            else trim turnText in
          (mkState (sessionId st) full [] (turnOrder data),
           [final_transcript (trim turnText) full])
        else
          (mkState (sessionId st) (fullTranscript st) (currentTurnText st) (turnOrder data),
           [])
      else if negb (end_of_turn data) && truthy (orElse (transcript data) []) then
        let partial := orElse (transcript data) [] in
        (mkState (sessionId st) (fullTranscript st) partial (lastCompletedTurn st),
         [partial_transcript partial])
      else (st, [])
  | Termination => (st, [session_end (trim (fullTranscript st))])
  | Other => (st, [])
  end.

Definition deliver (msgs : list Message) (st : State) : State :=
  fold_left (fun s m => fst (onMessage s m)) msgs st.

End RunningSession.

(** ** Sample turns *)

Module SessionSamples.
Import Session.

(** A completed turn with an order key and a transcript. *)
Definition completed (k : Z) (text : string) : TurnData :=
  mkTurn (Some k) true (Some (lit text)) None.

(** A partial turn. *)
Definition partial (k : Z) (text : string) : TurnData :=
  mkTurn (Some k) false (Some (lit text)) None.

End SessionSamples.

(** ** The endpoints that call the analytics *)

Module Api.
Import Analytics.

(** A value of the parsed JSON body.  The handlers only tell whether a value
    is truthy and whether it is a string, so an array or an object is kept
    without its content. *)
Inductive Json :=
| JNull
| JBool (b : bool)
| JNumber (x : float)
| JString (s : jsstring)
| JStructure.

(** [!!v] *)
Definition toBoolean (v : Json) : bool :=
  match v with
  | JNull => false
  | JBool b => b
  | JNumber x => negb (PrimFloat.eqb x 0%float || PrimFloat.is_nan x)
  | JString s => truthy s
  | JStructure => true
  end.

(** What an endpoint answers: a status 400 with an error message, a status
    200 with a body, or, from the [catch] branch, a status 500 with an error
    message. *)
Inductive Response (A : Type) :=
| BadRequest (error : jsstring)
| Ok (body : A)
| ServerError (error : jsstring).

Arguments BadRequest {A} error.
Arguments Ok {A} body.
Arguments ServerError {A} error.

Section Host.
Variable toLowerCase : jsstring -> jsstring.
Variable Math_log : float -> float.

(** [POST /api/summarize].  [body] is [None] when [req.body] is undefined,
    where [const { text } = req.body] throws; [Some text] is the field
    [text] of the body, [None] when the body has no such field.
    [if (!text || text.trim().length === 0) return res.status(400)...];
    on a truthy value that is not a string [text.trim] is not a function,
    which the [catch] branch answers with status 500. *)
Definition summarize (body : option (option Json)) : Response SummaryResult :=
  match body with
  | None => ServerError (lit "Failed to summarize text")
  | Some None => BadRequest (lit "No text provided for summarization")
  | Some (Some text) =>
      if negb (toBoolean text) then BadRequest (lit "No text provided for summarization")
      else
        match text with
        | JString text =>
            if length (trim text) =? 0
            then BadRequest (lit "No text provided for summarization")
            else Ok (generateAdvancedSummary toLowerCase Math_log text)
        | _ => ServerError (lit "Failed to summarize text")
        end
  end.

(** [POST /api/enhance-notes]:
    [if (!existingNotes || !transcription) return res.status(400)...];
    [generateEnhancedNotes] then calls [existingNotes.split] and
    [transcription.replace], which a value that is not a string does not
    have: status 500. *)
Definition enhanceNotes (body : option (option Json * option Json)) : Response jsstring :=
  match body with
  | None => ServerError (lit "Failed to enhance notes")
  | Some (Some existingNotes, Some transcription) =>
      if negb (toBoolean existingNotes) || negb (toBoolean transcription)
      then BadRequest (lit "Both existing notes and transcription are required")
      else
        match existingNotes, transcription with
        | JString notes, JString recording =>
            Ok (generateEnhancedNotes toLowerCase Math_log notes recording)
        | _, _ => ServerError (lit "Failed to enhance notes")
        end
  | Some _ => BadRequest (lit "Both existing notes and transcription are required")
  end.

End Host.

End Api.

(** ** Notions used in the statements about the enhancement *)

Module EnhanceNotions.
Import Analytics.

Section Host.
Variable toLowerCase : jsstring -> jsstring.

(** [matchingTopics] of a sentence: its distinct content words that are
    topics of the notes. *)
Definition matchingTopics (topTopics : list jsstring) (sentence : jsstring) : list jsstring :=
  List.filter (fun word => Set_has word topTopics)
              (Set_of (getContentWords toLowerCase sentence)).

(** [topTopics] of the notes. *)
Definition topicsOfNotes (existingNotes : jsstring) : list jsstring :=
  topTopicsOf (noteTopicsOf toLowerCase (noteLinesOf existingNotes)).

End Host.

(** A line of notes as it is read back: not empty, no white space at its
    ends, no line feed inside. *)
Definition plainLine (line : jsstring) : Prop :=
  line <> [] /\ trim line = line /\ ~ In 10%N line.

End EnhanceNotions.

(** ** The analytics of the revision with a running transcript

    The second revision of the server has analytics of its own:
    [generateSummary], [enhanceNotes] and [calculateSimilarity].  They cut
    the text at runs of terminators or into chunks of words, find key
    points and action items by substrings, and compare a segment with the
    lines of the notes by the quotient of two counts, which is a double. *)

Module LiveAnalytics.
Import Analytics.

(** [s.split(/[.!?]+/)]: the pieces between the maximal runs of
    terminators; [inrun] says that the last code unit read was one. *)
Fixpoint split_ends_from (cur : jsstring) (inrun : bool) (s : jsstring) : list jsstring :=
  match s with
  | [] => [rev cur]
  | c :: r =>
      if is_terminator c then
        if inrun then split_ends_from [] true r
        else rev cur :: split_ends_from [] true r
      else split_ends_from (c :: cur) false r
  end.

Definition split_ends (s : jsstring) : list jsstring := split_ends_from [] false s.

(** [for (i = 0; i < words.length; i += chunkSize)
       words.slice(i, Math.min(i + chunkSize, words.length)).join(' ')] *)
Definition chunks (chunkSize : nat) (words : list jsstring) : list jsstring :=
  List.map (fun j => join (lit " ") (firstn chunkSize (skipn (chunkSize * j) words)))
           (seq 0 ((length words + (chunkSize - 1)) / chunkSize)).

(** The segments of a text: the trimmed pieces between terminators that
    are longer than [minLength] when there are at least [enough] of them,
    and otherwise the chunks of [chunkSize] words that are longer than
    [minLength].  [generateSummary] takes 15, 3 and 20, [enhanceNotes] 10, 2
    and 25. *)
Definition segmentsBy (minLength enough chunkSize : nat) (cleanText : jsstring)
  (words : list jsstring) : list jsstring :=
  let punctuatedSegments :=
    List.filter (fun s => minLength <? length s) (List.map trim (split_ends cleanText)) in
  if enough <=? length punctuatedSegments then punctuatedSegments
  else List.filter (fun chunk => minLength <? length chunk) (chunks chunkSize words).

(** [s.includes(kw)] *)
Fixpoint includes (s kw : jsstring) : bool :=
  startsWith s kw || match s with [] => false | _ :: r => includes r kw end.

Definition actionKeywords : list jsstring := List.map lit
  ["need"; "must"; "should"; "have to"; "going to"; "will"; "plan"; "todo"; "task"; "action";
   "deadline"; "complete"; "finish"; "start"; "begin"; "make sure"; "don't forget";
   "remember to"]%string.

Definition importantKeywords : list jsstring := List.map lit
  ["important"; "key"; "main"; "critical"; "essential"; "priority"; "focus"; "goal";
   "objective"; "significant"; "crucial"; "note that"; "keep in mind"; "basically";
   "essentially"; "the point is"; "in summary"; "to summarize"; "conclusion"; "decided";
   "agreed"]%string.

Definition stopWords : list jsstring := List.map lit
  ["the"; "a"; "an"; "is"; "are"; "was"; "were"; "be"; "been"; "being"; "have"; "has"; "had";
   "do"; "does"; "did"; "will"; "would"; "could"; "should"; "may"; "might"; "must"; "shall";
   "can"; "need"; "dare"; "ought"; "used"; "to"; "of"; "in"; "for"; "on"; "with"; "at"; "by";
   "from"; "as"; "into"; "through"; "during"; "before"; "after"; "above"; "below"; "between";
   "under"; "again"; "further"; "then"; "once"; "here"; "there"; "when"; "where"; "why"; "how";
   "all"; "each"; "few"; "more"; "most"; "other"; "some"; "such"; "no"; "nor"; "not"; "only";
   "own"; "same"; "so"; "than"; "too"; "very"; "just"; "and"; "but"; "if"; "or"; "because";
   "until"; "while"; "this"; "that"; "these"; "those"; "what"; "which"; "who"; "whom"; "its";
   "your"; "their"; "our"; "his"; "her"]%string.

(** What [generateSummary] returns.  The result for a blank text has no
    counts and no ratio. *)
Record Summary := mkSummary {
  keyPoints : list jsstring;
  summary : jsstring;
  actionItems : list jsstring;
  wordCount : option nat;
  sentenceCount : option nat;
  compressionRatio : option float
}.

(** [Math.min(150, Math.floor(wordCount * 0.3))] *)
Definition targetSummaryLength (wordCount : nat) : Z :=
  Z.min 150 (Math_floor (PrimFloat.mul (Number_of_nat wordCount) 0x1.3333333333333p-2%float)).

(** The loop that fills [summaryWords] from [summarySource]; it ends at the
    first segment that does not fit, of which it takes the first
    [remaining] words when these are more than 5. *)
Fixpoint summaryWordsOf (targetSummaryLength : Z) (summarySource summaryWords : list jsstring)
  : list jsstring :=
  match summarySource with
  | [] => summaryWords
  | segment :: rest =>
      let segmentWords := split_ws segment in
      if (Z.of_nat (length summaryWords + length segmentWords) <=? targetSummaryLength)%Z
      then summaryWordsOf targetSummaryLength rest (summaryWords ++ segmentWords)
      else
        let remaining := (targetSummaryLength - Z.of_nat (length summaryWords))%Z in
        if (5 <? remaining)%Z
        then summaryWords ++ firstn (Z.to_nat remaining) segmentWords
        else summaryWords
  end.

(** [s.match(/[.!?]$/)] *)
Definition ends_sentence (s : jsstring) : bool :=
  match rev s with
  | c :: _ => is_terminator c
  | [] => false
  end.

(** The summary, from the segments it draws on and the words of the text. *)
Definition summaryOf (targetSummaryLength : Z) (summarySource words : list jsstring)
  : jsstring :=
  if 0 <? length summarySource then
    let summary := join (lit " ") (summaryWordsOf targetSummaryLength summarySource []) in
    if (0 <? length summary) && negb (ends_sentence summary)
    then summary ++ lit "." else summary
  else
    let summary :=
      join (lit " ")
           (firstn (Z.to_nat (Z.min targetSummaryLength (Z.of_nat (length words)))) words) in
    if negb (ends_sentence summary) then summary ++ lit "..." else summary.

(** [topicSentences]: the first segment, when it has more than 20 code units. *)
Definition topicSentencesOf (segments : list jsstring) : list jsstring :=
  match segments with
  | segment :: _ => if 20 <? length segment then [segment] else []
  | [] => []
  end.

Section Host.
Variable toLowerCase : jsstring -> jsstring.

Definition isAction (segment : jsstring) : bool :=
  existsb (fun kw => includes (toLowerCase segment) kw) actionKeywords.

Definition isImportant (segment : jsstring) : bool :=
  existsb (fun kw => includes (toLowerCase segment) kw) importantKeywords.

(** [keyPoints] after the loop over the segments and the fall-back to the
    first, the middle and the last segment.  The three indices are within
    the array where the source reads them. *)
Definition keyPointsOf (segments : list jsstring) : list jsstring :=
  let keyPoints := List.filter isImportant segments in
  if (length keyPoints =? 0) && (0 <? length segments) then
    [nth 0 segments []]
    ++ (if 2 <? length segments then [nth (length segments / 2) segments []] else [])
    ++ (if 1 <? length segments then [nth (length segments - 1) segments []] else [])
  else keyPoints.

(** [segments] of [generateSummary] for a text that is not blank. *)
Definition summarySegments (text : jsstring) : list jsstring :=
  segmentsBy 15 3 20 (trim text) (split_ws (trim text)).

Definition generateSummary (text : jsstring) : Summary :=
  if negb (truthy text) || (length (trim text) =? 0) then mkSummary [] [] [] None None None
  else
    let cleanText := trim text in
    let words := split_ws cleanText in
    let wordCount := length words in
    let segments := segmentsBy 15 3 20 cleanText words in
    let actionItems := List.filter isAction segments in
    let keyPoints := keyPointsOf segments in
    let summarySource := Set_of (topicSentencesOf segments ++ firstn 3 keyPoints) in
    let summary := summaryOf (targetSummaryLength wordCount) summarySource words in
    mkSummary (firstn 5 (Set_of keyPoints)) summary (firstn 5 (Set_of actionItems))
              (Some wordCount) (Some (length segments))
              (Some (PrimFloat.div (Number_of_nat (length (split_ws summary)))
                                   (Number_of_nat wordCount))).

(** The words of a text that [calculateSimilarity] compares. *)
Definition similarityWords (text : jsstring) : list jsstring :=
  Set_of (List.filter (fun w => 2 <? length w) (split_ws text)).

(** [calculateSimilarity(text1, text2)]: [intersection.size / union.size],
    a division of doubles with no guard against an empty union. *)
Definition calculateSimilarity (text1 text2 : jsstring) : float :=
  let words1 := similarityWords text1 in
  let words2 := similarityWords text2 in
  let intersection := Set_of (List.filter (fun x => Set_has x words2) words1) in
  let union := Set_of (words1 ++ words2) in
  PrimFloat.div (Number_of_nat (length intersection)) (Number_of_nat (length union)).

(** [.replace(/[^\w\s]/g, '')] *)
Definition strip_punctuation (s : jsstring) : jsstring :=
  List.filter (fun c => is_word c || is_ws c) s.

(** [existingTopics] *)
Definition existingTopicsOf (existingLines : list jsstring) : list jsstring :=
  fold_left
    (fun existingTopics line =>
       fold_left
         (fun existingTopics word =>
            if (3 <? length word) && negb (Set_has word stopWords)
            then Set_add existingTopics word else existingTopics)
         (split_ws (strip_punctuation (toLowerCase line))) existingTopics)
    existingLines [].

(** [existingLines.some(line => calculateSimilarity(line.toLowerCase(),
    segment.toLowerCase()) > threshold)] *)
Definition isDuplicate (threshold : float) (existingLines : list jsstring)
  (segment : jsstring) : bool :=
  existsb (fun line =>
             PrimFloat.ltb threshold
               (calculateSimilarity (toLowerCase line) (toLowerCase segment)))
          existingLines.

(** [matchingTopics] of a segment. *)
Definition matchingTopics (existingTopics : list jsstring) (segment : jsstring)
  : list jsstring :=
  List.filter (fun word => Set_has word existingTopics)
              (split_ws (strip_punctuation (toLowerCase segment))).

(** One turn of the first [transcriptionSegments.forEach]; [acc] is the
    pair of [newInformation] and [usedSegments]. *)
Definition relate (existingTopics existingLines : list jsstring)
  (acc : list jsstring * list jsstring) (segment : jsstring)
  : list jsstring * list jsstring :=
  if 1 <=? length (matchingTopics existingTopics segment) then
    if negb (isDuplicate 0.5%float existingLines segment) && negb (Set_has segment (snd acc))
    then (fst acc ++ [segment], Set_add (snd acc) segment)
    else acc
  else acc.

(** One turn of the second [transcriptionSegments.forEach]; [acc] is the
    pair of [additionalInfo] and [usedSegments]. *)
Definition supplement (existingLines : list jsstring)
  (acc : list jsstring * list jsstring) (segment : jsstring)
  : list jsstring * list jsstring :=
  if negb (Set_has segment (snd acc)) then
    if negb (isDuplicate 0x1.999999999999ap-2%float existingLines segment)
    then (fst acc ++ [segment], Set_add (snd acc) segment)
    else acc
  else acc.

(** [transcriptionSegments] *)
Definition transcriptionSegmentsOf (transcription : jsstring) : list jsstring :=
  let cleanTranscription := trim transcription in
  segmentsBy 10 2 25 cleanTranscription (split_ws cleanTranscription).

(** [newInformation] and [usedSegments] after the first loop. *)
Definition related (existingNotes transcription : jsstring)
  : list jsstring * list jsstring :=
  let existingLines := noteLinesOf existingNotes in
  fold_left (relate (existingTopicsOf existingLines) existingLines)
            (transcriptionSegmentsOf transcription) ([], []).

Definition newInformationOf (existingNotes transcription : jsstring) : list jsstring :=
  fst (related existingNotes transcription).

(** [additionalInfo] after the second loop. *)
Definition additionalInfoOf (existingNotes transcription : jsstring) : list jsstring :=
  fst (fold_left (supplement (noteLinesOf existingNotes))
                 (transcriptionSegmentsOf transcription)
                 ([], snd (related existingNotes transcription))).

Definition enhanceNotes (existingNotes transcription : jsstring) : jsstring :=
  let existingLines := noteLinesOf existingNotes in
  let transcriptionSummary := generateSummary transcription in
  let newInformation := newInformationOf existingNotes transcription in
  let additionalInfo := additionalInfoOf existingNotes transcription in
  lit "# Enhanced Notes" ++ nl ++ nl
  ++ lit "## Original Notes" ++ nl
  ++ concat (List.map renderNote existingLines) ++ nl
  ++ optionalSection (lit "## Related Details from Recording" ++ nl) (lit "- ")
       (firstn 8 newInformation)
  ++ optionalSection (lit "## Additional Information" ++ nl) (lit "- ")
       (firstn 5 additionalInfo)
  ++ optionalSection (lit "## Key Points" ++ nl) (lit "- ") (keyPoints transcriptionSummary)
  ++ optionalSection (lit "## Action Items" ++ nl) (lit "- [ ] ")
       (actionItems transcriptionSummary)
  ++ lit "## Summary" ++ nl ++ summary transcriptionSummary ++ nl.

End Host.

(** A word as [split(/\s+/)] returns it from a trimmed text: not empty and
    without white space. *)
Definition solid (w : jsstring) : Prop :=
  w <> [] /\ forallb (fun c => negb (is_ws c)) w = true.

End LiveAnalytics.

(** ** Notions used in the statements about the segments *)

Module SegmentTiers.
Import Analytics LiveAnalytics.

(** The first tier of [splitIntoSentences]: the pieces after terminators. *)
Definition byPunctuation (text : jsstring) : list jsstring :=
  List.filter (fun s => 10 <? length s)
    (List.map trim (split_lit (lit "|||") (mark_sentence_ends false text))).

(** Its second tier: the pieces at commas and conjunctions. *)
Definition byPauses (text : jsstring) : list jsstring :=
  List.filter (fun s => 15 <? length s)
    (List.map trim (split_lit (lit "|||") (mark_conjunctions 0 (mark_commas false text)))).

(** [punctuatedSegments] of the second revision. *)
Definition punctuated (minLength : nat) (cleanText : jsstring) : list jsstring :=
  List.filter (fun s => minLength <? length s) (List.map trim (split_ends cleanText)).

(** The segments keep the words of the text but for a short tail: every
    segment has between 1 and [chunkSize] words, and the words of the
    segments, one segment after the other, are the words of the text without
    the last [lost] ones, which are fewer than [chunkSize] and, joined by
    spaces, make no more than [minLength] code units. *)
Definition keepsWords (chunkSize minLength : nat) (words segments : list jsstring) : Prop :=
  Forall (fun segment => 1 <= length (split_ws segment) <= chunkSize) segments
  /\ exists lost,
       words = concat (List.map split_ws segments) ++ lost
       /\ length lost < chunkSize
       /\ length (join (lit " ") lost) <= minLength.

End SegmentTiers.

(** A text to run the analytics of the second revision on. *)
Module LiveSamples.

Definition meeting : jsstring :=
  lit "We must finish the report today. The budget is important for the team. Call Anna about the contract tomorrow.".


(** Sixteen words without punctuation, 140 code units. *)
Definition sixteenWords : jsstring :=
  lit "alphabet bravoing charlies deltaing echoings foxtrots golfings hoteling indiaing juliette kilogram limacode mikeling november oscaring omega".

End LiveSamples.

(** ** Texts to run the summarizer on *)

Module SummarySamples.

(** Eight sentences, 53 words. *)
Definition minutes : jsstring :=
  lit "The team met on Monday morning. We reviewed the budget for the year. Anna presented the new timeline. The main goal is a stable release. We must finish the report by Friday. Ben will call the client tomorrow. The second problem is the slow database. Finally we agreed to meet again next week.".


End SummarySamples.

(** * Properties *)

(** ** The primitives at small inputs *)

Module Checks.
Import Analytics.

Example split_ws_keeps_empty_ends :
  split_ws (lit " a  b c ") = [lit ""; lit "a"; lit "b"; lit "c"; lit ""]
  /\ split_ws (lit "") = [lit ""].
Proof. split; reflexivity. Qed.

Example split_lit_from_the_left :
  split_lit (lit "|||") (lit "a|||b||||c|||") = [lit "a"; lit "b"; lit "|c"; lit ""].
Proof. reflexivity. Qed.

Example trim_both_ends : trim (lit "  two words ") = lit "two words".
Proof. reflexivity. Qed.

Example sentence_ends_marked :
  mark_sentence_ends false (lit "Hi there.  How are you?! Fine. ok.x")
  = lit "Hi there.|||How are you?!|||Fine.|||ok.x".
Proof. reflexivity. Qed.

(** A conjunction needs white space on both sides, and the white space a
    match has taken cannot begin the next match. *)
Example conjunctions_marked :
  mark_conjunctions 0 (mark_commas false (lit "we went home,  and then but so   we SO slept also."))
  = lit "we went home|||and|||then but|||so we|||SO slept also.".
Proof. reflexivity. Qed.

Example dots_squeezed : squeeze_dots (lit "a... b.. c. d....") = lit "a.. b. c. d..".
Proof. reflexivity. Qed.

Example action_pattern_needs_word_boundaries :
  List.map (test_words actionPattern)
    [lit "We must go"; lit "mustard"; lit "stand by me"; lit "bye"; lit "I NEED TO go";
     lit "need  to"]
  = [true; false; true; false; true; false].
Proof. reflexivity. Qed.

Example tokens_and_content_words :
  tokenize toLowerCase_ascii (lit "Hello, World! It's a b-c test_1")
  = [lit "hello"; lit "world"; lit "it"; lit "test_1"]
  /\ getContentWords toLowerCase_ascii (lit "The budget discussion went well and we agreed.")
     = [lit "budget"; lit "discussion"; lit "went"; lit "agreed"].
Proof. split; reflexivity. Qed.

Example list_items_recognised :
  List.map listFormatted [lit "- a"; lit "*b"; lit "12. x"; lit "12 x"; lit "a"; lit "1."]
  = [true; true; true; false; false; true].
Proof. reflexivity. Qed.

(** In doubles, [29 / 200 * 100] is a little less than 14.5. *)
Example percentage_in_doubles :
  percentage 29 200 = 14%Z /\ percentage 30 30 = 100%Z /\ percentage 1 30 = 3%Z.
Proof. vm_compute. repeat split. Qed.

Example rounding_of_ties :
  List.map Math_round [0.5%float; 1.5%float; 2.5%float; (-0.5)%float; (-2.5)%float]
  = [1; 2; 3; 0; -2]%Z.
Proof. vm_compute. reflexivity. Qed.

(** Up to 16 segments the target is [min (max 2 (ceil (3 n / 10))) 5] in
    exact arithmetic; from 14 segments on it is 5. *)
Example targetSentences_small :
  List.map targetSentences (seq 0 17) = List.map exactTarget (seq 0 17).
Proof. vm_compute. reflexivity. Qed.

(** The scenario of the specification for the enhancement: the sentence of
    the recording shares the topics "budget" and "timeline" with the notes;
    it is a related detail and not new information. *)
Example related_not_new :
  relatedEntries toLowerCase_ascii
    (lit "- Discuss budget" ++ nl ++ lit "- Review timeline")
    (lit "The budget discussion went well and we agreed on a new timeline for next quarter.")
  = [lit "The budget discussion went well and we agreed on a new timeline for next quarter."]
  /\ newEntries toLowerCase_ascii
       (lit "- Discuss budget" ++ nl ++ lit "- Review timeline")
       (lit "The budget discussion went well and we agreed on a new timeline for next quarter.")
     = [].
Proof. vm_compute. split; reflexivity. Qed.

End Checks.

(** ** Facts about strings and sorting *)

Module JSFacts.

Lemma trimStart_clean s : clean_start (trimStart s).
Proof.
  induction s as [|c r IH]; simpl; [exact I|].
  destruct (is_ws c) eqn:E; [exact IH | exact E].
Qed.

Lemma trimStart_id s : clean_start s -> trimStart s = s.
Proof. destruct s as [|c r]; simpl; [reflexivity | intros ->; reflexivity]. Qed.

Lemma trimStart_suffix s : exists p, s = p ++ trimStart s.
Proof.
  induction s as [|c r [p Hp]]; simpl.
  - exists []; reflexivity.
  - destruct (is_ws c).
    + exists (c :: p). simpl. now rewrite <- Hp.
    + exists []; reflexivity.
Qed.

Lemma clean_start_app_l a b : a <> [] -> clean_start (a ++ b) <-> clean_start a.
Proof. destruct a; [congruence | reflexivity]. Qed.

Lemma trim_trimmed s : trimmed (trim s).
Proof.
  unfold trim, trimEnd, trimmed.
  set (s' := trimStart s).
  assert (Hs' : clean_start s') by apply trimStart_clean.
  destruct (trimStart_suffix (rev s')) as [p Hp].
  set (r := trimStart (rev s')) in *.
  assert (Hr : clean_start r) by apply trimStart_clean.
  split.
  - assert (E : s' = rev r ++ rev p).
    { rewrite <- (rev_involutive s'), Hp, rev_app_distr. reflexivity. }
    destruct (rev r) as [|c q] eqn:Er; [exact I|].
    rewrite E in Hs'. exact Hs'.
  - now rewrite rev_involutive.
Qed.

Lemma trimmed_trim s : trimmed s -> trim s = s.
Proof.
  intros [H1 H2]. unfold trim, trimEnd.
  rewrite (trimStart_id _ H1), (trimStart_id _ H2). apply rev_involutive.
Qed.

Lemma trim_fixpoint s : trim s = s <-> trimmed s.
Proof.
  split; [intros <-; apply trim_trimmed | apply trimmed_trim].
Qed.

Lemma trim_idempotent s : trim (trim s) = trim s.
Proof. apply trimmed_trim, trim_trimmed. Qed.

Lemma join_cons sep p q rest :
  join sep (p :: q :: rest) = p ++ sep ++ join sep (q :: rest).
Proof. reflexivity. Qed.

Lemma join_trimmed sep ts :
  ts <> [] ->
  Forall (fun t => t <> [] /\ trimmed t) ts ->
  join sep ts <> [] /\ trimmed (join sep ts).
Proof.
  induction ts as [|p rest IH]; [congruence|].
  intros _ H. inversion H as [|? ? [Hne [Hs He]] Hrest]; subst.
  destruct rest as [|q rest'].
  - simpl. repeat split; assumption.
  - rewrite join_cons.
    destruct IH as [IHne [_ IHe]]; [congruence | assumption |].
    split; [destruct p; [congruence | discriminate] |].
    split.
    + apply clean_start_app_l; assumption.
    + rewrite !rev_app_distr, <- app_assoc.
      apply clean_start_app_l; [|assumption].
      intros E. apply IHne.
      apply (f_equal (@rev N)) in E. now rewrite rev_involutive in E.
Qed.

Lemma trim_join sep ts :
  Forall (fun t => t <> [] /\ trim t = t) ts ->
  trim (join sep ts) = join sep ts.
Proof.
  intros H. destruct ts as [|p rest]; [reflexivity|].
  apply trimmed_trim, join_trimmed; [congruence|].
  eapply Forall_impl; [|exact H]. intros t [? ?]. split; [assumption|].
  now apply trim_fixpoint.
Qed.

(** The pieces of a string that neither begins nor ends with white space
    are its words: none of them is empty. *)
Lemma split_ws_from_words s : forall cur inws,
  (inws = false -> cur <> [] \/ (s <> [] /\ clean_start s)) ->
  (inws = true -> s <> []) ->
  (s <> [] -> clean_start (rev s)) ->
  Forall (fun w => w <> []) (split_ws_from cur inws s).
Proof.
  induction s as [|c r IH]; intros cur inws H1 H2 H3.
  - simpl. constructor; [|constructor].
    destruct inws; [now contradiction H2|].
    destruct (H1 eq_refl) as [Hc|[Hc _]]; [|now contradiction Hc].
    intros E. apply Hc. apply (f_equal (@rev N)) in E.
    now rewrite rev_involutive in E.
  - assert (Hr : r <> [] -> clean_start (rev r)).
    { intros Hne. specialize (H3 ltac:(discriminate)). simpl in H3.
      apply clean_start_app_l in H3; [assumption|].
      intros E. apply Hne. apply (f_equal (@rev N)) in E.
      now rewrite rev_involutive in E. }
    simpl. destruct (is_ws c) eqn:Ec.
    + assert (Hne : r <> []).
      { intros ->. specialize (H3 ltac:(discriminate)). simpl in H3. congruence. }
      destruct inws.
      * apply IH; [discriminate | auto | assumption].
      * constructor.
        -- destruct (H1 eq_refl) as [Hc|[_ Hc]]; [|simpl in Hc; congruence].
           intros E. apply Hc. apply (f_equal (@rev N)) in E.
           now rewrite rev_involutive in E.
        -- apply IH; [discriminate | auto | assumption].
    + apply IH; [left; discriminate | discriminate | assumption].
Qed.

Lemma split_ws_words s :
  s <> [] -> trimmed s -> Forall (fun w => w <> []) (split_ws s).
Proof.
  intros Hne [Hs He]. apply split_ws_from_words; [right; auto | discriminate | auto].
Qed.

(** Insertion sort returns a permutation of its input. *)
Lemma insert_Permutation A (after : A -> A -> bool) x l :
  Permutation (insert after x l) (x :: l).
Proof.
  induction l as [|y r IH]; simpl; [reflexivity|].
  destruct (after x y); [|reflexivity].
  rewrite IH. apply perm_swap.
Qed.

Lemma Array_sort_Permutation A (after : A -> A -> bool) l :
  Permutation (Array_sort after l) l.
Proof.
  induction l as [|x r IH]; simpl; [reflexivity|].
  rewrite insert_Permutation. now constructor.
Qed.


Section SortByKey.
Variable A : Type.
Variable key : A -> Z.

Lemma insert_sorted x l :
  StronglySorted (key_le key) l -> StronglySorted (key_le key) (insert (afterKey key) x l).
Proof.
  induction 1 as [|y r Hr IH Hy]; simpl.
  - repeat constructor.
  - unfold afterKey at 1. destruct (Z.gtb_spec (key x - key y) 0).
    + constructor; [assumption|].
      eapply Permutation_Forall; [symmetry; apply insert_Permutation|].
      constructor; [unfold key_le; lia | assumption].
    + constructor; [now constructor|].
      constructor; [unfold key_le; lia|].
      eapply Forall_impl; [|exact Hy]. unfold key_le. intros; lia.
Qed.

Lemma Array_sort_sorted l : StronglySorted (key_le key) (Array_sort (afterKey key) l).
Proof.
  induction l; simpl; [constructor | now apply insert_sorted].
Qed.

(** With distinct keys, a list sorted by [<=] is sorted by [<]. *)
Lemma sorted_le_lt l :
  NoDup (List.map key l) -> StronglySorted (key_le key) l -> StronglySorted (key_lt key) l.
Proof.
  induction l as [|x r IH]; intros Hnd Hs; [constructor|].
  inversion Hnd as [|? ? Hnin Hnd']; subst.
  inversion Hs as [|? ? Hs' Hall]; subst.
  constructor; [auto|].
  rewrite Forall_forall in *. intros y Hy.
  specialize (Hall y Hy). unfold key_le, key_lt in *.
  assert (key x <> key y); [|lia].
  intros E. apply Hnin. rewrite E. now apply in_map.
Qed.

(** Two strictly sorted lists with the same elements are equal. *)
Lemma sorted_lt_unique l1 l2 :
  StronglySorted (key_lt key) l1 -> StronglySorted (key_lt key) l2 ->
  Permutation l1 l2 -> l1 = l2.
Proof.
  revert l2. induction l1 as [|x r IH]; intros l2 H1 H2 HP.
  - now apply Permutation_nil in HP.
  - destruct l2 as [|y r2]; [now apply Permutation_sym, Permutation_nil in HP|].
    inversion H1 as [|? ? H1' Hx]; subst.
    inversion H2 as [|? ? H2' Hy]; subst.
    rewrite Forall_forall in Hx, Hy.
    assert (Exy : x = y).
    { assert (Hin1 : In x (y :: r2)) by (eapply Permutation_in; [exact HP | now left]).
      assert (Hin2 : In y (x :: r)).
      { eapply Permutation_in; [symmetry; exact HP | now left]. }
      destruct Hin1 as [->|Hin1]; [reflexivity|].
      destruct Hin2 as [->|Hin2]; [reflexivity|].
      specialize (Hx _ Hin2). specialize (Hy _ Hin1).
      unfold key_lt in *. lia. }
    subst y. f_equal. apply IH; try assumption.
    eapply Permutation_cons_inv; exact HP.
Qed.

Lemma Array_sort_unique l sorted :
  NoDup (List.map key l) -> Permutation sorted l ->
  StronglySorted (key_lt key) sorted -> Array_sort (afterKey key) l = sorted.
Proof.
  intros Hnd HP Hs. apply sorted_lt_unique; [| assumption |].
  - apply sorted_le_lt; [|apply Array_sort_sorted].
    eapply Permutation_NoDup; [|exact Hnd].
    apply Permutation_map. symmetry. apply Array_sort_Permutation.
  - rewrite Array_sort_Permutation. now symmetry.
Qed.
End SortByKey.

End JSFacts.

(** ** Properties of the live-transcription session *)

Module SessionProps.
Import Session JSFacts.

Lemma truthy_nonempty s : truthy s = true <-> s <> [].
Proof. destruct s; simpl; split; congruence. Qed.

Lemma truthy_empty s : truthy s = false <-> s = [].
Proof. destruct s; simpl; split; congruence. Qed.

Lemma turnText_trim d : trim (turnText d) = turnText d.
Proof. apply trim_idempotent. Qed.

Lemma Map_has_In k m : Map_has k m = true <-> In k (List.map fst m).
Proof.
  induction m as [|[k' v] r IH]; simpl; [split; [discriminate | tauto]|].
  destruct (Z.eqb_spec k k'); [intuition | rewrite IH; intuition congruence].
Qed.

Lemma Map_has_get k m : Map_has k m = true <-> exists t, Map_get k m = Some t.
Proof.
  induction m as [|[k' v] r IH]; simpl.
  - split; [discriminate | intros [t H]; discriminate].
  - destruct (Z.eqb k k'); [split; eauto | exact IH].
Qed.

Lemma Map_set_fresh k v m : Map_has k m = false -> Map_set k v m = m ++ [(k, v)].
Proof.
  induction m as [|[k' v'] r IH]; simpl; [reflexivity|].
  destruct (Z.eqb k k'); [discriminate | intros H; now rewrite IH].
Qed.

Lemma Map_has_app k m1 m2 : Map_has k (m1 ++ m2) = Map_has k m1 || Map_has k m2.
Proof.
  induction m1 as [|[k' v'] r IH]; simpl; [reflexivity|].
  destruct (Z.eqb k k'); [reflexivity | exact IH].
Qed.

Lemma Map_get_app_l k t m1 m2 :
  Map_get k m1 = Some t -> Map_get k (m1 ++ m2) = Some t.
Proof.
  induction m1 as [|[k' v'] r IH]; simpl; [discriminate|].
  destruct (Z.eqb k k'); [trivial | exact IH].
Qed.

(** A completed turn is committed exactly when its text is not empty and
    its order key is new. *)
Lemma onMessage_commit st d :
  end_of_turn d = true -> truthy (turnText d) = true ->
  Map_has (turnOrder d) (completedTurns st) = false ->
  onMessage st (Turn d) =
    (mkState (sessionId st) (completedTurns st ++ [(turnOrder d, turnText d)]) [],
     [final_transcript (turnText d)
        (buildFullTranscript (completedTurns st ++ [(turnOrder d, turnText d)]))]).
Proof.
  intros He Ht Hh. simpl. rewrite He, Ht, Hh. simpl.
  now rewrite Map_set_fresh.
Qed.

Lemma onMessage_skip st d :
  end_of_turn d = true ->
  truthy (turnText d) = false \/ Map_has (turnOrder d) (completedTurns st) = true ->
  onMessage st (Turn d) = (st, []).
Proof.
  intros He [H|H]; simpl; rewrite He, H; [reflexivity|].
  now rewrite andb_false_r.
Qed.

(** No message removes or changes an entry of the map. *)
Lemma onMessage_keeps st msg k t :
  Map_get k (completedTurns st) = Some t ->
  Map_get k (completedTurns (fst (onMessage st msg))) = Some t.
Proof.
  intros H. destruct msg as [id|d| |]; simpl; try assumption.
  destruct (end_of_turn d).
  - destruct (truthy (turnText d)) eqn:Et; simpl; [|assumption].
    destruct (Map_has (turnOrder d) (completedTurns st)) eqn:Eh; simpl; [assumption|].
    rewrite Map_set_fresh by assumption. now apply Map_get_app_l.
  - destruct (truthy (orElse (transcript d) [])); assumption.
Qed.

Lemma deliver_app m1 m2 st : deliver (m1 ++ m2) st = deliver m2 (deliver m1 st).
Proof. apply fold_left_app. Qed.

Lemma deliver_keeps msgs st k t :
  Map_get k (completedTurns st) = Some t ->
  Map_get k (completedTurns (deliver msgs st)) = Some t.
Proof.
  revert st. induction msgs as [|m r IH]; intros st H; [assumption|].
  simpl. apply IH. now apply onMessage_keeps.
Qed.

(** After a completed turn has been processed, either its text was empty or
    its order key is recorded. *)
Lemma onMessage_settles st d :
  end_of_turn d = true ->
  truthy (turnText d) = false \/
  Map_has (turnOrder d) (completedTurns (fst (onMessage st (Turn d)))) = true.
Proof.
  intros He. destruct (truthy (turnText d)) eqn:Et; [right | now left].
  destruct (Map_has (turnOrder d) (completedTurns st)) eqn:Eh.
  - rewrite onMessage_skip; auto.
  - rewrite onMessage_commit by assumption. simpl.
    rewrite Map_has_app. simpl. rewrite Z.eqb_refl. apply orb_true_r.
Qed.

Lemma deliver_turns ds : forall st,
  Forall (fun d => end_of_turn d = true) ds ->
  NoDup (List.map turnOrder ds) ->
  (forall d, In d ds -> Map_has (turnOrder d) (completedTurns st) = false) ->
  completedTurns (deliver (List.map Turn ds) st) = completedTurns st ++ recorded ds.
Proof.
  induction ds as [|d r IH]; intros st He Hnd Hfresh.
  - simpl. now rewrite app_nil_r.
  - inversion He as [|? ? Hd He']; subst.
    inversion Hnd as [|? ? Hnin Hnd']; subst.
    cbn [List.map deliver fold_left]. fold (deliver (List.map Turn r)).
    unfold recorded. cbn [List.filter].
    destruct (truthy (turnText d)) eqn:Et.
    + rewrite onMessage_commit; auto with datatypes.
      cbn [fst List.map]. rewrite IH; auto.
      * cbn [completedTurns]. now rewrite <- app_assoc.
      * intros d' Hin. cbn [completedTurns]. rewrite Map_has_app.
        rewrite Hfresh by auto with datatypes. simpl.
        destruct (Z.eqb_spec (turnOrder d') (turnOrder d)) as [E|]; [|reflexivity].
        exfalso. apply Hnin. rewrite <- E. now apply in_map.
    + rewrite onMessage_skip; auto. cbn [fst]. apply IH; auto with datatypes.
Qed.

Lemma recorded_Permutation l1 l2 :
  Permutation l1 l2 -> Permutation (recorded l1) (recorded l2).
Proof.
  intros H. unfold recorded. apply Permutation_map.
  induction H; simpl.
  - constructor.
  - destruct (truthy (turnText x)); [now constructor | assumption].
  - destruct (truthy (turnText x)), (truthy (turnText y)); try reflexivity.
    apply perm_swap.
  - etransitivity; eassumption.
Qed.

Lemma recorded_keys_incl ds k : In k (List.map fst (recorded ds)) -> In k (List.map turnOrder ds).
Proof.
  unfold recorded. rewrite map_map. simpl. rewrite !in_map_iff.
  intros [d [E Hin]]. apply filter_In in Hin. exists d. tauto.
Qed.

Lemma recorded_NoDup ds :
  NoDup (List.map turnOrder ds) -> NoDup (List.map fst (recorded ds)).
Proof.
  induction ds as [|d r IH]; intros H; [constructor|].
  inversion H as [|? ? Hnin Hnd]; subst.
  unfold recorded. simpl. destruct (truthy (turnText d)); [|now apply IH].
  simpl. constructor; [|now apply IH].
  intros Hin. apply Hnin. now apply recorded_keys_incl.
Qed.

Lemma recorded_sorted ds :
  StronglySorted Z.lt (List.map turnOrder ds) ->
  StronglySorted (key_lt (@fst Z jsstring)) (recorded ds).
Proof.
  induction ds as [|d r IH]; intros H; [constructor|].
  simpl in H. inversion H as [|? ? Hs Hall]; subst.
  unfold recorded. simpl. destruct (truthy (turnText d)); [|now apply IH].
  simpl. constructor; [now apply IH|].
  rewrite Forall_forall in *. intros [k t] Hin. unfold key_lt. simpl.
  apply Hall. apply recorded_keys_incl. now apply (in_map fst) in Hin.
Qed.

Lemma recorded_texts ds :
  List.map snd (recorded ds) = List.filter truthy (List.map turnText ds).
Proof.
  unfold recorded. induction ds as [|d r IH]; simpl; [reflexivity|].
  destruct (truthy (turnText d)); simpl; now rewrite IH.
Qed.

Lemma filter_truthy_stored ds :
  Forall storedText (List.filter truthy (List.map turnText ds)).
Proof.
  apply Forall_forall. intros t Hin. apply filter_In in Hin as [Hin Ht].
  apply in_map_iff in Hin as [d [<- _]].
  split; [now apply truthy_nonempty | apply turnText_trim].
Qed.

(** Every text of a reachable map is a stored text. *)
Lemma onMessage_stored st msg :
  Forall (fun kv => storedText (snd kv)) (completedTurns st) ->
  Forall (fun kv => storedText (snd kv)) (completedTurns (fst (onMessage st msg))).
Proof.
  intros H. destruct msg as [id|d| |]; simpl; try assumption.
  destruct (end_of_turn d).
  - destruct (truthy (turnText d)) eqn:Et; simpl; [|assumption].
    destruct (Map_has (turnOrder d) (completedTurns st)) eqn:Eh; simpl; [assumption|].
    rewrite Map_set_fresh by assumption. apply Forall_app. split; [assumption|].
    constructor; [|constructor]. simpl.
    split; [now apply truthy_nonempty | apply turnText_trim].
  - destruct (truthy (orElse (transcript d) [])); assumption.
Qed.

Lemma reachable_stored st :
  reachable st -> Forall (fun kv => storedText (snd kv)) (completedTurns st).
Proof.
  induction 1; [constructor | now apply onMessage_stored].
Qed.

Lemma sortedTurns_stored m :
  Forall (fun kv => storedText (snd kv)) m -> Forall storedText (sortedTurns m).
Proof.
  intros H. unfold sortedTurns. apply Forall_map.
  eapply Permutation_Forall; [symmetry; apply Array_sort_Permutation | exact H].
Qed.

(** *** The ordering of the transcript *)

(** C1, as amended.  Completed turns with pairwise distinct order keys,
    each an integer that a double holds exactly (of magnitude at most
    [2^53]), delivered in any arrival order to a fresh session, give the
    full transcript that joins with single spaces, in ascending order of the
    keys, the trimmed texts of the turns whose trimmed text is not empty.
    (The handler trims each text and skips a turn whose trimmed text is
    empty; it has the keys as doubles, so that larger integers can fall
    together.) *)
Theorem transcript_in_key_order (sid : jsstring) (arrival sorted : list TurnData) :
  Forall (fun d => end_of_turn d = true) arrival ->
  Forall (fun d => exactKey (turnOrder d)) arrival ->
  NoDup (List.map turnOrder arrival) ->
  Permutation sorted arrival ->
  StronglySorted Z.lt (List.map turnOrder sorted) ->
  buildFullTranscript (completedTurns (deliver (List.map Turn arrival) (initial sid)))
  = join (lit " ") (List.filter truthy (List.map turnText sorted)).
Proof.
  intros He _ Hnd HP Hs.
  rewrite deliver_turns; [| assumption | assumption | reflexivity].
  cbn [initial completedTurns app].
  unfold buildFullTranscript, sortedTurns.
  change byOrder with (afterKey (@fst Z jsstring)).
  rewrite (Array_sort_unique (key := @fst Z jsstring) (sorted := recorded sorted)).
  - rewrite recorded_texts. apply trim_join, filter_truthy_stored.
  - now apply recorded_NoDup.
  - now apply recorded_Permutation.
  - now apply recorded_sorted.
Qed.

(** The scenario of C1: order key 2 arrives before order key 1. *)
Lemma transcript_in_key_order_witness :
  buildFullTranscript
    (completedTurns
       (deliver
          (List.map Turn
             [mkTurn (Some 2%Z) true (Some (lit "world")) None;
              mkTurn (Some 1%Z) true (Some (lit "ignored")) (Some (lit " hello"))])
          (initial (lit "1700000000000"))))
  = lit "hello world".
Proof.
  apply (@transcript_in_key_order
           (lit "1700000000000")
           [mkTurn (Some 2%Z) true (Some (lit "world")) None;
            mkTurn (Some 1%Z) true (Some (lit "ignored")) (Some (lit " hello"))]
           [mkTurn (Some 1%Z) true (Some (lit "ignored")) (Some (lit " hello"));
            mkTurn (Some 2%Z) true (Some (lit "world")) None]).
  - repeat constructor.
  - repeat constructor; vm_compute; intros H; discriminate H.
  - repeat constructor; simpl; intuition discriminate.
  - apply perm_swap.
  - repeat constructor.
Defined.

(** C1 as the specification words it speaks of the texts as they were sent.
    A completed turn with an empty text (order key 1) and one with the text
    "world" (order key 2, arriving first): the handler's transcript is
    "world", whereas the texts joined in key order give " world".  And a
    completed turn with the text "hello " (order key 1) before "world"
    (order key 2): the transcript is "hello world", whereas the texts joined
    give "hello  world". *)
Lemma transcript_of_sent_texts_counterexample :
  (buildFullTranscript
     (completedTurns
        (deliver
           [Turn (mkTurn (Some 2%Z) true (Some (lit "world")) None);
            Turn (mkTurn (Some 1%Z) true (Some (lit "")) None)]
           (initial (lit "1700000000000"))))
   = lit "world"
   /\ join (lit " ")
        (List.map rawText
           [mkTurn (Some 1%Z) true (Some (lit "")) None;
            mkTurn (Some 2%Z) true (Some (lit "world")) None])
      = lit " world")
  /\ (buildFullTranscript
        (completedTurns
           (deliver
              [Turn (mkTurn (Some 2%Z) true (Some (lit "world")) None);
               Turn (mkTurn (Some 1%Z) true (Some (lit "hello ")) None)]
              (initial (lit "1700000000000"))))
      = lit "hello world"
      /\ join (lit " ")
           (List.map rawText
              [mkTurn (Some 1%Z) true (Some (lit "hello ")) None;
               mkTurn (Some 2%Z) true (Some (lit "world")) None])
         = lit "hello  world").
Proof. repeat split. Qed.

(** *** Duplicates *)

(** C2.  A completed turn whose order key is already recorded changes
    nothing and sends nothing; a completed turn delivered again, directly or
    after any further messages, changes nothing and sends nothing; and the
    text recorded for an order key stays what it is whatever arrives. *)
Theorem duplicate_turn_is_ignored (st : State) (d : TurnData) :
  end_of_turn d = true ->
  (Map_has (turnOrder d) (completedTurns st) = true ->
   onMessage st (Turn d) = (st, []))
  /\ (forall msgs,
        onMessage (deliver msgs (fst (onMessage st (Turn d)))) (Turn d)
        = (deliver msgs (fst (onMessage st (Turn d))), []))
  /\ (forall k t msgs,
        Map_get k (completedTurns st) = Some t ->
        Map_get k (completedTurns (deliver msgs st)) = Some t).
Proof.
  intros He. split; [|split].
  - intros Hh. apply onMessage_skip; auto.
  - intros msgs. apply onMessage_skip; [assumption|].
    destruct (onMessage_settles st d He) as [H|H]; [now left | right].
    apply Map_has_get in H as [t Ht]. apply Map_has_get. exists t.
    now apply deliver_keeps.
  - intros k t msgs. apply deliver_keeps.
Qed.

Lemma duplicate_turn_is_ignored_witness :
  (Map_has 1%Z [(1%Z, lit "hello")] = true ->
   onMessage (mkState (lit "s") [(1%Z, lit "hello")] [])
             (Turn (mkTurn (Some 1%Z) true (Some (lit "again")) None))
   = (mkState (lit "s") [(1%Z, lit "hello")] [], []))
  /\ (forall msgs,
        onMessage
          (deliver msgs
             (fst (onMessage (mkState (lit "s") [(1%Z, lit "hello")] [])
                             (Turn (mkTurn (Some 1%Z) true (Some (lit "again")) None)))))
          (Turn (mkTurn (Some 1%Z) true (Some (lit "again")) None))
        = (deliver msgs
             (fst (onMessage (mkState (lit "s") [(1%Z, lit "hello")] [])
                             (Turn (mkTurn (Some 1%Z) true (Some (lit "again")) None)))),
           []))
  /\ (forall k t msgs,
        Map_get k [(1%Z, lit "hello")] = Some t ->
        Map_get k (completedTurns (deliver msgs (mkState (lit "s") [(1%Z, lit "hello")] [])))
        = Some t).
Proof.
  exact (@duplicate_turn_is_ignored
           (mkState (lit "s") [(1%Z, lit "hello")] [])
           (mkTurn (Some 1%Z) true (Some (lit "again")) None)
           eq_refl).
Defined.

(** *** Empty turns *)

(** C10.  In every state a session can reach: a completed turn whose
    trimmed text is empty changes nothing and sends nothing; every recorded
    text is non-empty and has no white space at either end; and the full
    transcript is those texts, in key order, joined by single spaces, so that
    no separator stands next to another separator or at an end. *)
Theorem empty_turn_is_ignored (st : State) :
  reachable st ->
  (forall d, end_of_turn d = true -> turnText d = [] ->
             onMessage st (Turn d) = (st, []))
  /\ Forall (fun kv => storedText (snd kv)) (completedTurns st)
  /\ Forall storedText (sortedTurns (completedTurns st))
  /\ buildFullTranscript (completedTurns st)
     = join (lit " ") (sortedTurns (completedTurns st)).
Proof.
  intros Hr. pose proof (reachable_stored Hr) as Hst.
  pose proof (sortedTurns_stored Hst) as Hso.
  repeat split; try assumption.
  - intros d He Ht. apply onMessage_skip; [assumption | left].
    now apply truthy_empty.
  - unfold buildFullTranscript. apply trim_join. exact Hso.
Qed.

Lemma empty_turn_is_ignored_witness :
  (forall d, end_of_turn d = true -> turnText d = [] ->
             onMessage
               (fst (onMessage (initial (lit "s"))
                               (Turn (mkTurn (Some 3%Z) true (Some (lit " hi there ")) None))))
               (Turn d)
             = (fst (onMessage (initial (lit "s"))
                               (Turn (mkTurn (Some 3%Z) true (Some (lit " hi there ")) None))),
                []))
  /\ Forall (fun kv => storedText (snd kv))
       (completedTurns
          (fst (onMessage (initial (lit "s"))
                          (Turn (mkTurn (Some 3%Z) true (Some (lit " hi there ")) None)))))
  /\ Forall storedText
       (sortedTurns
          (completedTurns
             (fst (onMessage (initial (lit "s"))
                             (Turn (mkTurn (Some 3%Z) true (Some (lit " hi there ")) None))))))
  /\ buildFullTranscript
       (completedTurns
          (fst (onMessage (initial (lit "s"))
                          (Turn (mkTurn (Some 3%Z) true (Some (lit " hi there ")) None)))))
     = join (lit " ")
         (sortedTurns
            (completedTurns
               (fst (onMessage (initial (lit "s"))
                               (Turn (mkTurn (Some 3%Z) true (Some (lit " hi there ")) None)))))).
Proof.
  apply (empty_turn_is_ignored
           (st := fst (onMessage (initial (lit "s"))
                        (Turn (mkTurn (Some 3%Z) true (Some (lit " hi there ")) None))))).
  apply reach_step, reach_initial.
Defined.

End SessionProps.

(** ** Properties of the text analytics *)

Module AnalyticsProps.
Import Analytics JSFacts.

(** *** Blank strings *)

Lemma trimStart_blank s : forallb is_ws s = true -> trimStart s = [].
Proof.
  induction s as [|c r IH]; simpl; [reflexivity|].
  intros H. apply andb_true_iff in H as [Hc Hr]. rewrite Hc. auto.
Qed.

Lemma trim_blank s : forallb is_ws s = true -> trim s = [].
Proof. intros H. unfold trim. now rewrite trimStart_blank. Qed.

Lemma trimStart_nil_blank s : trimStart s = [] -> forallb is_ws s = true.
Proof.
  induction s as [|c r IH]; simpl; [reflexivity|].
  destruct (is_ws c); [exact IH | discriminate].
Qed.

Lemma trimStart_split s :
  exists p, s = p ++ trimStart s /\ forallb is_ws p = true.
Proof.
  induction s as [|c r [p [Hp Hb]]]; simpl.
  - exists []. split; reflexivity.
  - destruct (is_ws c) eqn:Ec.
    + exists (c :: p). simpl. rewrite Ec, Hb. split; [now rewrite <- Hp | reflexivity].
    + exists []. split; reflexivity.
Qed.

Lemma forallb_rev_ws s : forallb is_ws (rev s) = true -> forallb is_ws s = true.
Proof.
  rewrite !forallb_forall. intros H c Hc. apply H. now apply in_rev in Hc.
Qed.

Lemma trim_nil_blank s : trim s = [] -> forallb is_ws s = true.
Proof.
  unfold trim, trimEnd. intros H.
  apply (f_equal (@rev N)) in H. rewrite rev_involutive in H. simpl in H.
  apply trimStart_nil_blank, forallb_rev_ws in H.
  destruct (trimStart_split s) as [p [Hp Hb]].
  rewrite Hp, forallb_app, Hb, H. reflexivity.
Qed.

(** *** Sets and the Jaccard similarity *)

Lemma str_eqb_eq a b : str_eqb a b = true <-> a = b.
Proof. unfold str_eqb. destruct (list_eq_dec N.eq_dec a b); split; congruence. Qed.

Lemma Set_has_In x s : Set_has x s = true <-> In x s.
Proof.
  unfold Set_has. rewrite existsb_exists. split.
  - intros [y [Hy E]]. apply str_eqb_eq in E. now subst.
  - intros H. exists x. split; [assumption | now apply str_eqb_eq].
Qed.

Lemma Set_add_In s x y : In y (Set_add s x) <-> In y s \/ y = x.
Proof.
  unfold Set_add. destruct (Set_has x s) eqn:E.
  - apply Set_has_In in E. split; [auto | intros [H| ->]; assumption].
  - rewrite in_app_iff. simpl. intuition.
Qed.

Lemma Set_add_NoDup s x : NoDup s -> NoDup (Set_add s x).
Proof.
  intros H. unfold Set_add. destruct (Set_has x s) eqn:E; [assumption|].
  apply NoDup_app; [assumption | repeat constructor; simpl; tauto |].
  intros y Hy [<-|[]]. apply Set_has_In in Hy. congruence.
Qed.

Lemma fold_Set_add_In items : forall acc y,
  In y (fold_left Set_add items acc) <-> In y acc \/ In y items.
Proof.
  induction items as [|x r IH]; intros acc y; simpl; [tauto|].
  rewrite IH, Set_add_In. intuition.
Qed.

Lemma fold_Set_add_NoDup items : forall acc,
  NoDup acc -> NoDup (fold_left Set_add items acc).
Proof.
  induction items as [|x r IH]; intros acc H; simpl; [assumption|].
  apply IH. now apply Set_add_NoDup.
Qed.

Lemma fold_Set_add_known items : forall acc,
  (forall x, In x items -> In x acc) -> fold_left Set_add items acc = acc.
Proof.
  induction items as [|x r IH]; intros acc H; simpl; [reflexivity|].
  unfold Set_add at 2.
  assert (E : Set_has x acc = true) by (apply Set_has_In, H; now left).
  rewrite E. apply IH. intros y Hy. apply H. now right.
Qed.

Lemma Set_of_In items y : In y (Set_of items) <-> In y items.
Proof. unfold Set_of. rewrite fold_Set_add_In. simpl. tauto. Qed.

Lemma Set_of_NoDup items : NoDup (Set_of items).
Proof. apply fold_Set_add_NoDup. constructor. Qed.

(** A set has as many elements as the list it is made of has distinct ones. *)
Lemma Set_of_distinct items : length (Set_of items) = distinct items.
Proof.
  unfold distinct. apply Permutation_length, NoDup_Permutation.
  - apply Set_of_NoDup.
  - apply NoDup_nodup.
  - intros y. rewrite Set_of_In, nodup_In. tauto.
Qed.

Lemma common_filter a b : List.filter (fun x => Set_has x b) a = common a b.
Proof.
  unfold common. apply filter_ext. intros x.
  destruct (in_dec (list_eq_dec N.eq_dec) x b) as [H|H].
  - now apply Set_has_In.
  - destruct (Set_has x b) eqn:E; [|reflexivity]. now apply Set_has_In in E.
Qed.

Lemma intersection_le_union a b :
  length (Set_of (List.filter (fun x => Set_has x b) a)) <= length (Set_of (a ++ b)).
Proof.
  apply NoDup_incl_length; [apply Set_of_NoDup|].
  intros y. rewrite !Set_of_In, filter_In, in_app_iff. tauto.
Qed.

Lemma Set_of_twice a : Set_of (a ++ a) = Set_of a.
Proof.
  unfold Set_of. rewrite fold_left_app. apply fold_Set_add_known.
  intros x Hx. now apply fold_Set_add_In; right.
Qed.

Lemma filter_all a : List.filter (fun x => Set_has x a) a = a.
Proof.
  apply forallb_filter_id, forallb_forall. intros x Hx. now apply Set_has_In.
Qed.

Lemma Zpos_of_nat n : n <> 0 -> Z.pos (Pos.of_nat n) = Z.of_nat n.
Proof. intros H. rewrite <- positive_nat_Z, Nat2Pos.id by assumption. reflexivity. Qed.

Lemma jaccard_value a b :
  0 < length (Set_of (a ++ b)) ->
  jaccardSimilarity a b
  = Z.of_nat (length (Set_of (List.filter (fun x => Set_has x b) a)))
    # Pos.of_nat (length (Set_of (a ++ b))).
Proof.
  intros H. unfold jaccardSimilarity. apply Nat.ltb_lt in H. now rewrite H.
Qed.

Lemma jaccard_empty a b :
  length (Set_of (a ++ b)) = 0 -> jaccardSimilarity a b = 0%Q.
Proof. intros H. unfold jaccardSimilarity. now rewrite H. Qed.

(** C3.  The Jaccard similarity of two token sets is the number of their
    common tokens over the number of the tokens of either; it lies between 0
    and 1; a non-empty set has similarity 1 with itself; and two empty sets
    have similarity 0. *)
Theorem jaccard_bounds (a b : list jsstring) :
  (0 <= jaccardSimilarity a b)%Q
  /\ (jaccardSimilarity a b <= 1)%Q
  /\ (0 < distinct (a ++ b) ->
      jaccardSimilarity a b
      = Z.of_nat (distinct (common a b)) # Pos.of_nat (distinct (a ++ b)))
  /\ (a <> [] -> (jaccardSimilarity a a == 1)%Q)
  /\ jaccardSimilarity [] [] = 0%Q.
Proof.
  split; [|split; [|split; [|split]]].
  - destruct (Nat.eq_dec (length (Set_of (a ++ b))) 0) as [E|E].
    + rewrite jaccard_empty by assumption. apply Qle_refl.
    + rewrite jaccard_value by lia. unfold Qle. simpl. lia.
  - destruct (Nat.eq_dec (length (Set_of (a ++ b))) 0) as [E|E].
    + rewrite jaccard_empty by assumption. discriminate.
    + rewrite jaccard_value by lia. unfold Qle. simpl.
      pose proof (intersection_le_union a b).
      rewrite Zpos_of_nat by assumption. lia.
  - intros H. rewrite <- !Set_of_distinct, <- common_filter in *.
    now apply jaccard_value.
  - intros Hne.
    assert (Hpos : 0 < length (Set_of (a ++ a))).
    { rewrite Set_of_twice. destruct a as [|x r]; [congruence|].
      destruct (Set_of (x :: r)) eqn:E; [|simpl; lia].
      assert (In x []) as []. rewrite <- E. apply Set_of_In. now left. }
    rewrite jaccard_value by assumption.
    rewrite filter_all, Set_of_twice in *. unfold Qeq. simpl.
    rewrite Zpos_of_nat by lia. lia.
  - reflexivity.
Qed.

Lemma jaccard_bounds_witness :
  (0 <= jaccardSimilarity [lit "budget"; lit "timeline"] [lit "budget"; lit "review"])%Q
  /\ (jaccardSimilarity [lit "budget"; lit "timeline"] [lit "budget"; lit "review"] <= 1)%Q
  /\ (0 < distinct ([lit "budget"; lit "timeline"] ++ [lit "budget"; lit "review"]) ->
      jaccardSimilarity [lit "budget"; lit "timeline"] [lit "budget"; lit "review"]
      = Z.of_nat (distinct (common [lit "budget"; lit "timeline"] [lit "budget"; lit "review"]))
        # Pos.of_nat (distinct ([lit "budget"; lit "timeline"] ++ [lit "budget"; lit "review"])))
  /\ ([lit "budget"; lit "timeline"] <> [] ->
      (jaccardSimilarity [lit "budget"; lit "timeline"] [lit "budget"; lit "timeline"] == 1)%Q)
  /\ jaccardSimilarity [] [] = 0%Q.
Proof.
  exact (jaccard_bounds [lit "budget"; lit "timeline"] [lit "budget"; lit "review"]).
Defined.

Section Host.
Variable toLowerCase : jsstring -> jsstring.
Variable Math_log : float -> float.

Local Abbreviation generateAdvancedSummary := (generateAdvancedSummary toLowerCase Math_log).
Local Abbreviation summaryParts := (summaryParts toLowerCase Math_log).
Local Abbreviation assembledSummary := (assembledSummary toLowerCase Math_log).
Local Abbreviation combinedScores := (combinedScores toLowerCase Math_log).
Local Abbreviation rankedSentences := (rankedSentences toLowerCase Math_log).
Local Abbreviation selection := (selection toLowerCase Math_log).
Local Abbreviation keyPointsOf := (keyPointsOf toLowerCase Math_log).
Local Abbreviation actionItemsOf := (actionItemsOf toLowerCase Math_log).
Local Abbreviation calculateTFIDF := (calculateTFIDF toLowerCase Math_log).

(** *** The three ways out of [generateAdvancedSummary] *)

Lemma summary_of_blank text :
  trim text = [] -> generateAdvancedSummary text = mkSummary [] [] [] 0 0 None.
Proof.
  intros H. unfold Analytics.generateAdvancedSummary. rewrite H. simpl.
  now rewrite orb_true_r.
Qed.

Lemma not_blank_truthy text : trim text <> [] -> truthy text = true.
Proof. destruct text; [intros H; now contradiction H | reflexivity]. Qed.

Lemma summary_of_short text :
  trim text <> [] -> length (split_ws (trim text)) < 30 ->
  generateAdvancedSummary text
  = mkSummary [trim text] (trim text) [] (length (split_ws (trim text))) 1 None.
Proof.
  intros Hne Hwc. unfold Analytics.generateAdvancedSummary.
  rewrite not_blank_truthy by assumption. simpl negb. simpl orb.
  destruct (trim text) as [|c r] eqn:E; [congruence|].
  cbn [length Nat.eqb]. apply Nat.ltb_lt in Hwc. now rewrite Hwc.
Qed.

Lemma summary_of_long text :
  trim text <> [] -> 30 <= length (split_ws (trim text)) ->
  generateAdvancedSummary text
  = let sentences := splitIntoSentences (trim text) in
    mkSummary
      (keyPointsOf sentences)
      (if truthy (assembledSummary sentences) then assembledSummary sentences
       else firstn 200 (trim text) ++ lit "...")
      (actionItemsOf sentences)
      (length (split_ws (trim text)))
      (length sentences)
      (Some (percentage (length (split_ws (assembledSummary sentences)))
                        (length (split_ws (trim text))))).
Proof.
  intros Hne Hwc. unfold Analytics.generateAdvancedSummary.
  rewrite not_blank_truthy by assumption. simpl negb. simpl orb.
  destruct (trim text) as [|c r] eqn:E; [congruence|].
  cbn [length Nat.eqb].
  apply Nat.ltb_ge in Hwc. now rewrite Hwc.
Qed.

(** *** The selection of the summary *)


Lemma combine_seq_nth A (l : list A) k :
  Forall (fun p => k <= fst p /\ nth_error l (fst p - k) = Some (snd p))
         (combine (seq k (length l)) l).
Proof.
  revert k. induction l as [|x r IH]; intros k; simpl; [constructor|].
  constructor.
  - simpl. rewrite Nat.sub_diag. auto.
  - eapply Forall_impl; [|apply (IH (S k))].
    intros [i y] [Hle Hnth]. simpl in *. split; [lia|].
    replace (i - k) with (S (i - S k)) by lia. exact Hnth.
Qed.


Lemma indexed_nth A (l : list A) :
  Forall (fun p => nth_error l (fst p) = Some (snd p)) (indexed l).
Proof.
  eapply Forall_impl; [|apply (combine_seq_nth l 0)].
  intros [i y] [_ H]. simpl in *. now rewrite Nat.sub_0_r in H.
Qed.

Lemma calculateTFIDF_length sentences :
  length (calculateTFIDF sentences) = length sentences.
Proof.
  unfold Analytics.calculateTFIDF.
  rewrite length_map, length_combine, length_map. apply Nat.min_id.
Qed.

Lemma nth_error_combine_l A B (l : list A) (l' : list B) i a b :
  nth_error (combine l l') i = Some (a, b) -> nth_error l i = Some a.
Proof.
  revert l' i. induction l as [|x r IH]; intros [|y r'] [|i]; simpl; try discriminate.
  - congruence.
  - apply IH.
Qed.


(** An item carries the sentence that stands at its index. *)
Lemma combinedScores_sentence sentences :
  Forall (fun item => nth_error sentences (index item) = Some (sentence item))
         (combinedScores sentences).
Proof.
  unfold Analytics.combinedScores. apply Forall_map.
  eapply Forall_impl; [|apply indexed_nth].
  intros [i [sent tf]] H. simpl in *. eapply nth_error_combine_l. exact H.
Qed.

Lemma rankedSentences_Permutation sentences :
  Permutation (rankedSentences sentences) (combinedScores sentences).
Proof. apply Array_sort_Permutation. Qed.

Lemma selectTop_parts target ranked acc :
  exists k,
    snd (selectTop target ranked acc)
    = snd acc ++ List.map (fun item => (index item, sentence item)) (firstn k ranked)
    /\ (Z.of_nat (length (snd (selectTop target ranked acc)))
        <= Z.max target (Z.of_nat (length (snd acc))))%Z.
Proof.
  revert acc. induction ranked as [|item rest IH]; intros acc.
  - exists 0. simpl. rewrite app_nil_r. split; [reflexivity | lia].
  - simpl. destruct (Z.leb_spec target (Z.of_nat (length (snd acc)))) as [Hle|Hlt].
    + exists 0. simpl. rewrite app_nil_r. split; [reflexivity | lia].
    + destruct (IH (add_index (fst acc) (index item),
                    snd acc ++ [(index item, sentence item)])) as [k [Hk Hb]].
      exists (S k). cbn [snd] in *. split.
      * rewrite Hk, <- app_assoc. reflexivity.
      * rewrite length_app in Hb. simpl in Hb. lia.
Qed.

Lemma In_firstn A (l : list A) k x : In x (firstn k l) -> In x l.
Proof.
  intros H. rewrite <- (firstn_skipn k l). apply in_or_app. now left.
Qed.

Lemma NoDup_firstn A (l : list A) k : NoDup l -> NoDup (firstn k l).
Proof.
  intros H. rewrite <- (firstn_skipn k l) in H. now apply NoDup_app_remove_r in H.
Qed.


Lemma selection_parts sentences :
  exists k,
    snd (selection sentences)
    = List.map (fun item => (index item, sentence item))
               (firstn k (rankedSentences sentences)).
Proof.
  unfold Analytics.selection.
  destruct (selectTop_parts (targetSentences (length sentences))
              (rankedSentences sentences) ([], [])) as [k [Hk _]].
  exists k. exact Hk.
Qed.

Lemma selection_length sentences :
  (Z.of_nat (length (snd (selection sentences))) <= targetSentences (length sentences))%Z.
Proof.
  unfold Analytics.selection.
  destruct (selectTop_parts (targetSentences (length sentences))
              (rankedSentences sentences) ([], [])) as [k [_ Hb]].
  simpl in Hb. unfold targetSentences in *. lia.
Qed.

Lemma summaryParts_Permutation sentences :
  Permutation (summaryParts sentences) (snd (selection sentences)).
Proof. apply Array_sort_Permutation. Qed.



Lemma summaryParts_sentence sentences :
  Forall (fun p => nth_error sentences (fst p) = Some (snd p)) (summaryParts sentences).
Proof.
  eapply Permutation_Forall; [symmetry; apply summaryParts_Permutation|].
  destruct (selection_parts sentences) as [k ->].
  apply Forall_map. apply Forall_forall. intros item Hin. cbn [fst snd].
  apply In_firstn in Hin.
  pose proof (combinedScores_sentence sentences) as H.
  rewrite Forall_forall in H. apply H.
  eapply Permutation_in; [apply rankedSentences_Permutation | exact Hin].
Qed.



(** *** The layout of the enhanced notes *)

Local Abbreviation generateEnhancedNotes := (generateEnhancedNotes toLowerCase Math_log).
Local Abbreviation relatedEntries := (relatedEntries toLowerCase).
Local Abbreviation newEntries := (newEntries toLowerCase).

Lemma fold_left_append A (g : jsstring -> A -> jsstring) (f : A -> jsstring) l :
  (forall e x, g e x = e ++ f x) ->
  forall init, fold_left g l init = init ++ concat (List.map f l).
Proof.
  intros Hg. induction l as [|x r IH]; intros init; simpl.
  - now rewrite app_nil_r.
  - rewrite IH, Hg, <- app_assoc. reflexivity.
Qed.

Lemma fold_notes noteLines init :
  fold_left
    (fun enhanced line =>
       if listFormatted line then enhanced ++ line ++ nl
       else enhanced ++ lit "- " ++ line ++ nl)
    noteLines init
  = init ++ concat (List.map renderNote noteLines).
Proof.
  apply fold_left_append. intros e x. unfold renderNote.
  now destruct (listFormatted x).
Qed.

Lemma fold_bullets A (f : A -> jsstring) bullet l init :
  fold_left (fun enhanced x => enhanced ++ bullet ++ f x ++ nl) l init
  = init ++ concat (List.map (fun e => bullet ++ e ++ nl) (List.map f l)).
Proof.
  rewrite map_map. now apply fold_left_append.
Qed.

Lemma enhanced_layout existingNotes transcription :
  generateEnhancedNotes existingNotes transcription
  = lit "# Enhanced Notes" ++ nl ++ nl
    ++ (lit "## Original Notes" ++ nl
        ++ concat (List.map renderNote (noteLinesOf existingNotes)) ++ nl)
    ++ optionalSection relatedHeading (lit "- ")
         (relatedEntries existingNotes transcription)
    ++ optionalSection newHeading (lit "- ") (newEntries existingNotes transcription)
    ++ optionalSection (lit "## Key Points" ++ nl) (lit "- ")
         (firstn 5 (keyPoints (generateAdvancedSummary transcription)))
    ++ optionalSection (lit "## Action Items" ++ nl) (lit "- [ ] ")
         (actionItems (generateAdvancedSummary transcription))
    ++ (lit "## Recording Summary" ++ nl
        ++ summary (generateAdvancedSummary transcription) ++ nl).
Proof.
  unfold Analytics.generateEnhancedNotes, Analytics.relatedEntries, Analytics.newEntries,
    Analytics.classification.
  cbv zeta.
  destruct (fold_left _ (splitIntoSentences transcription) ([], [])) as [rel new].
  cbn [fst snd].
  rewrite fold_notes.
  destruct (Array_sort byMatchCount rel) as [|r1 rs];
  destruct new as [|n1 ns];
  destruct (keyPoints (generateAdvancedSummary transcription)) as [|k1 ks];
  destruct (actionItems (generateAdvancedSummary transcription)) as [|a1 as'];
  cbn [length Nat.ltb Nat.leb];
  rewrite ?(fold_bullets relatedSentence), ?(fold_bullets (fun x : jsstring => x));
  rewrite ?map_id;
  unfold optionalSection, relatedHeading, newHeading;
  cbn [firstn List.map];
  rewrite <- ?app_assoc; rewrite ?app_nil_r; cbn [app]; reflexivity.
Qed.

(** *** The claims about the summarizer *)

(** C7.  A text that is empty or consists of white space only gives the
    result with no key point, the empty summary, no action item, word count 0
    and sentence count 0. *)
Theorem blank_text_gives_empty_result (text : jsstring) :
  forallb is_ws text = true ->
  generateAdvancedSummary text = mkSummary [] [] [] 0 0 None.
Proof. intros H. apply summary_of_blank. now apply trim_blank. Qed.

(** C5, as amended.  A text that is not blank and has fewer than 30 words
    comes back trimmed: the text without the white space at its ends is the
    summary and the only key point, there is no action item, and the
    sentence count is 1.  A text without white space at its ends comes back
    as it is.  The count of the words is the number of the pieces between
    the runs of white space of the trimmed text, none of which is empty. *)
Theorem short_text_passthrough (text : jsstring) :
  trim text <> [] ->
  length (split_ws (trim text)) < 30 ->
  generateAdvancedSummary text
  = mkSummary [trim text] (trim text) [] (length (split_ws (trim text))) 1 None
  /\ (trim text = text ->
      summary (generateAdvancedSummary text) = text
      /\ keyPoints (generateAdvancedSummary text) = [text])
  /\ Forall (fun word => word <> []) (split_ws (trim text)).
Proof.
  intros Hne Hwc. rewrite summary_of_short by assumption.
  split; [reflexivity|]. split.
  - intros E. simpl. now rewrite E.
  - apply split_ws_words; [assumption | apply trim_trimmed].
Qed.

(** *** The claims about the enhanced notes *)

Lemma actionItems_at_most_5 text :
  length (actionItems (generateAdvancedSummary text)) <= 5.
Proof.
  destruct (list_eq_dec N.eq_dec (trim text) []) as [E|E].
  - rewrite summary_of_blank by assumption. simpl. lia.
  - destruct (Nat.lt_ge_cases (length (split_ws (trim text))) 30) as [H|H].
    + rewrite summary_of_short by assumption. simpl. lia.
    + rewrite summary_of_long by assumption. cbv zeta. cbn [actionItems].
      unfold Analytics.actionItemsOf. rewrite length_map. apply firstn_le_length.
Qed.

(** C8, as amended.  The enhanced document consists, in this order, of the
    title, the section of the original notes, the related details (at most
    6), the new information (at most 5), the key points (at most 5), the
    action items (each an unchecked box) and the summary.  Each of the four
    sections in the middle is left out when it has no entry; the section of
    the original notes and the summary are always written. *)
Theorem enhanced_document_layout (existingNotes transcription : jsstring) :
  generateEnhancedNotes existingNotes transcription
  = lit "# Enhanced Notes" ++ nl ++ nl
    ++ (lit "## Original Notes" ++ nl
        ++ concat (List.map renderNote (noteLinesOf existingNotes)) ++ nl)
    ++ optionalSection relatedHeading (lit "- ")
         (relatedEntries existingNotes transcription)
    ++ optionalSection newHeading (lit "- ") (newEntries existingNotes transcription)
    ++ optionalSection (lit "## Key Points" ++ nl) (lit "- ")
         (firstn 5 (keyPoints (generateAdvancedSummary transcription)))
    ++ optionalSection (lit "## Action Items" ++ nl) (lit "- [ ] ")
         (actionItems (generateAdvancedSummary transcription))
    ++ (lit "## Recording Summary" ++ nl
        ++ summary (generateAdvancedSummary transcription) ++ nl)
  /\ length (relatedEntries existingNotes transcription) <= 6
  /\ length (newEntries existingNotes transcription) <= 5
  /\ length (firstn 5 (keyPoints (generateAdvancedSummary transcription))) <= 5
  /\ length (actionItems (generateAdvancedSummary transcription)) <= 5.
Proof.
  split; [apply enhanced_layout|].
  split; [|split; [|split]].
  - unfold Analytics.relatedEntries. rewrite length_map. apply firstn_le_length.
  - apply firstn_le_length.
  - apply firstn_le_length.
  - apply actionItems_at_most_5.
Qed.

Lemma noteLines_nonBlank existingNotes :
  noteLinesOf existingNotes
  = List.map trim (List.filter nonBlank (split_lit nl existingNotes)).
Proof.
  unfold noteLinesOf. induction (split_lit nl existingNotes) as [|l r IH]; [reflexivity|].
  simpl. unfold nonBlank at 1. destruct (forallb is_ws l) eqn:E; simpl.
  - rewrite trim_blank by assumption. exact IH.
  - destruct (trim l) as [|c t] eqn:Et.
    + apply trim_nil_blank in Et. congruence.
    + simpl. now rewrite IH.
Qed.

Lemma derived_starts_with_heading related new s :
  startsWith (derivedSections related new s) (lit "## ") = true.
Proof.
  unfold derivedSections.
  destruct related; [|reflexivity].
  destruct new; [|reflexivity].
  destruct (firstn 5 (keyPoints s)); [|reflexivity].
  destruct (actionItems s); reflexivity.
Qed.

(** C9.  After the title, the document has the section of the original
    notes: its heading, then the lines of the notes that are not blank, each
    trimmed, in their order, each written as it is when it looks like a list
    item and after a dash and a space otherwise, then an empty line; what
    follows begins with the heading of another section. *)
Theorem original_notes_preserved (existingNotes transcription : jsstring) :
  (exists derived,
     generateEnhancedNotes existingNotes transcription
     = lit "# Enhanced Notes" ++ nl ++ nl
       ++ lit "## Original Notes" ++ nl
       ++ concat (List.map renderNote (noteLinesOf existingNotes)) ++ nl ++ derived
     /\ startsWith derived (lit "## ") = true)
  /\ noteLinesOf existingNotes
     = List.map trim (List.filter nonBlank (split_lit nl existingNotes))
  /\ Forall (fun line => line <> [] /\ trim line = line) (noteLinesOf existingNotes)
  /\ Forall (fun line => renderNote line = line ++ nl
                         \/ renderNote line = lit "- " ++ line ++ nl)
            (noteLinesOf existingNotes).
Proof.
  split; [|split; [|split]].
  - exists (derivedSections (relatedEntries existingNotes transcription)
                            (newEntries existingNotes transcription)
                            (generateAdvancedSummary transcription)).
    split; [|apply derived_starts_with_heading].
    rewrite enhanced_layout. unfold derivedSections.
    rewrite <- !app_assoc. reflexivity.
  - apply noteLines_nonBlank.
  - unfold noteLinesOf. apply Forall_forall. intros line Hin.
    apply filter_In in Hin as [Hin Hlen].
    apply in_map_iff in Hin as [l [<- _]].
    split; [|apply trim_idempotent].
    destruct (trim l); [discriminate | congruence].
  - apply Forall_forall. intros line _. unfold renderNote.
    destruct (listFormatted line); auto.
Qed.

End Host.

(** *** The claims at sample inputs *)

Lemma blank_text_gives_empty_result_witness :
  generateAdvancedSummary toLowerCase_ascii Math_log_series (lit "   ")
  = mkSummary [] [] [] 0 0 None.
Proof.
  apply (@blank_text_gives_empty_result toLowerCase_ascii Math_log_series (lit "   ")).
  reflexivity.
Defined.

Lemma short_text_passthrough_witness :
  generateAdvancedSummary toLowerCase_ascii Math_log_series (lit "  call the bank today ")
  = mkSummary [trim (lit "  call the bank today ")] (trim (lit "  call the bank today ")) []
      (length (split_ws (trim (lit "  call the bank today ")))) 1 None
  /\ (trim (lit "  call the bank today ") = lit "  call the bank today " ->
      summary (generateAdvancedSummary toLowerCase_ascii Math_log_series
                 (lit "  call the bank today "))
      = lit "  call the bank today "
      /\ keyPoints (generateAdvancedSummary toLowerCase_ascii Math_log_series
                      (lit "  call the bank today "))
         = [lit "  call the bank today "])
  /\ Forall (fun word => word <> []) (split_ws (trim (lit "  call the bank today "))).
Proof.
  apply (@short_text_passthrough toLowerCase_ascii Math_log_series
           (lit "  call the bank today ")).
  - vm_compute. intros H. discriminate H.
  - vm_compute. lia.
Defined.

(** C5 as the specification words it: the text " hi" does not come back
    verbatim, the summary and the key point are "hi". *)
Lemma short_text_verbatim_counterexample :
  summary (generateAdvancedSummary toLowerCase_ascii Math_log_series (lit " hi")) = lit "hi"
  /\ keyPoints (generateAdvancedSummary toLowerCase_ascii Math_log_series (lit " hi"))
     = [lit "hi"]
  /\ str_eqb (summary (generateAdvancedSummary toLowerCase_ascii Math_log_series (lit " hi")))
             (lit " hi")
     = false.
Proof. repeat split. Qed.

(** C6 as the specification words it.  The thirty words make two segments
    of fifteen words, both selected: the summary has 30 words of 30, a
    quotient of 1, and the compression ratio is 100.  Thirty stubs make no
    segment: the summary is the text and three dots, 30 words of 30, and the
    compression ratio is 3. *)
Lemma compression_ratio_quotient_counterexample :
  (compressionRatio (generateAdvancedSummary toLowerCase_ascii Math_log_series thirtyWords)
   = Some 100%Z
   /\ length (split_ws (summary (generateAdvancedSummary toLowerCase_ascii Math_log_series
                                   thirtyWords))) = 30
   /\ wordCount (generateAdvancedSummary toLowerCase_ascii Math_log_series thirtyWords) = 30)
  /\ (compressionRatio (generateAdvancedSummary toLowerCase_ascii Math_log_series thirtyStubs)
      = Some 3%Z
      /\ length (split_ws (summary (generateAdvancedSummary toLowerCase_ascii Math_log_series
                                      thirtyStubs))) = 30
      /\ wordCount (generateAdvancedSummary toLowerCase_ascii Math_log_series thirtyStubs) = 30).
Proof. vm_compute. repeat split. Qed.

(** C8 as the specification words it.  Notes that consist of a line break
    have no line, and the section of the original notes is written all the
    same, with no entry.  A recording that consists of a space has the empty
    summary, and the summary section is written all the same. *)
Lemma empty_section_written_counterexample :
  (noteLinesOf nl = []
   /\ generateEnhancedNotes toLowerCase_ascii Math_log_series nl (lit "hello")
      = lit "# Enhanced Notes" ++ nl ++ nl
        ++ lit "## Original Notes" ++ nl ++ nl
        ++ lit "## Key Points" ++ nl
        ++ lit "- hello" ++ nl ++ nl
        ++ lit "## Recording Summary" ++ nl
        ++ lit "hello" ++ nl)
  /\ generateEnhancedNotes toLowerCase_ascii Math_log_series (lit "call Ann") (lit " ")
     = lit "# Enhanced Notes" ++ nl ++ nl
       ++ lit "## Original Notes" ++ nl
       ++ lit "- call Ann" ++ nl ++ nl
       ++ lit "## Recording Summary" ++ nl ++ nl.
Proof. repeat split. Qed.

End AnalyticsProps.

(** ** Further properties of the live-transcription session *)

Module SessionMore.
Import Session SessionRun JSFacts SessionProps.

Lemma run_state msgs : forall st, fst (run msgs st) = deliver msgs st.
Proof.
  induction msgs as [|m r IH]; intros st; simpl; [reflexivity|].
  destruct (onMessage st m) as [st1 out1] eqn:E1.
  destruct (run r st1) as [st2 out2] eqn:E2. simpl.
  rewrite <- IH, E2. reflexivity.
Qed.

Lemma finalTexts_app a b : finalTexts (a ++ b) = finalTexts a ++ finalTexts b.
Proof.
  induction a as [|n r IH]; simpl; [reflexivity|].
  destruct n; simpl; now rewrite IH.
Qed.

(** One message either stores the text it announces, at the end of the map,
    or stores and announces nothing. *)
Lemma onMessage_announces st msg :
  List.map snd (completedTurns (fst (onMessage st msg)))
  = List.map snd (completedTurns st) ++ finalTexts (snd (onMessage st msg)).
Proof.
  destruct msg as [id|d| |]; simpl; try now rewrite app_nil_r.
  destruct (end_of_turn d).
  - destruct (truthy (turnText d)) eqn:Et; simpl; [|now rewrite app_nil_r].
    destruct (Map_has (turnOrder d) (completedTurns st)) eqn:Eh; simpl;
      [now rewrite app_nil_r|].
    rewrite Map_set_fresh by assumption. now rewrite map_app.
  - destruct (truthy (orElse (transcript d) [])); simpl; now rewrite app_nil_r.
Qed.

(** X1.  Whatever arrives, the texts of the [final_transcript]
    notifications that were sent are, in the order they were sent, exactly the
    texts that the messages added to the map: every recorded turn is
    announced once and nothing else is announced as final. *)
Theorem recorded_turns_announced_once (msgs : list Message) (st : State) :
  List.map snd (completedTurns (fst (run msgs st)))
  = List.map snd (completedTurns st) ++ finalTexts (snd (run msgs st)).
Proof.
  revert st. induction msgs as [|m r IH]; intros st; simpl.
  - now rewrite app_nil_r.
  - pose proof (onMessage_announces st m) as H1.
    destruct (onMessage st m) as [st1 out1].
    specialize (IH st1). destruct (run r st1) as [st2 out2]. simpl in *.
    rewrite IH, H1, finalTexts_app, app_assoc. reflexivity.
Qed.

Lemma onMessage_keys st msg :
  NoDup (List.map fst (completedTurns st)) ->
  NoDup (List.map fst (completedTurns (fst (onMessage st msg)))).
Proof.
  intros H. destruct msg as [id|d| |]; simpl; try assumption.
  destruct (end_of_turn d).
  - destruct (truthy (turnText d)) eqn:Et; simpl; [|assumption].
    destruct (Map_has (turnOrder d) (completedTurns st)) eqn:Eh; simpl; [assumption|].
    rewrite Map_set_fresh by assumption. rewrite map_app. simpl.
    apply NoDup_app; [assumption | repeat constructor; simpl; tauto |].
    intros k Hk [<-|[]]. apply Map_has_In in Hk. congruence.
  - destruct (truthy (orElse (transcript d) [])); assumption.
Qed.

Lemma reachable_keys st : reachable st -> NoDup (List.map fst (completedTurns st)).
Proof. induction 1; [constructor | now apply onMessage_keys]. Qed.

(** X2.  In every state a session can reach the order keys of the map are
    pairwise distinct, and the turns of the transcript stand in strictly
    increasing order of their keys, each recorded turn once. *)
Theorem transcript_strictly_ordered (st : State) :
  reachable st ->
  NoDup (List.map fst (completedTurns st))
  /\ StronglySorted Z.lt (List.map fst (Array_sort byOrder (completedTurns st)))
  /\ Permutation (Array_sort byOrder (completedTurns st)) (completedTurns st).
Proof.
  intros Hr. pose proof (reachable_keys Hr) as Hnd.
  split; [assumption|]. split; [|apply Array_sort_Permutation].
  assert (Hs : StronglySorted (key_lt (@fst Z jsstring))
                 (Array_sort byOrder (completedTurns st))).
  { apply sorted_le_lt.
    - eapply Permutation_NoDup; [|exact Hnd].
      apply Permutation_map. symmetry. apply Array_sort_Permutation.
    - apply (Array_sort_sorted (@fst Z jsstring)). }
  clear -Hs. induction Hs as [|p r Hr IH Hp]; simpl; constructor; [assumption|].
  apply Forall_map. exact Hp.
Qed.

(** A message that cannot commit a turn leaves the map as it is. *)
Lemma onMessage_frame st msg :
  completes msg = false ->
  completedTurns (fst (onMessage st msg)) = completedTurns st.
Proof.
  destruct msg as [id|d| |]; simpl; try reflexivity.
  intros ->. now destruct (truthy (orElse (transcript d) [])).
Qed.

Lemma deliver_frame msgs : forall st,
  forallb (fun m => negb (completes m)) msgs = true ->
  completedTurns (deliver msgs st) = completedTurns st.
Proof.
  induction msgs as [|m r IH]; intros st H; simpl; [reflexivity|].
  simpl in H. apply andb_true_iff in H as [Hm Hr].
  rewrite IH by assumption. apply onMessage_frame.
  now apply negb_true_iff in Hm.
Qed.

Lemma final_is_transcript st d st' text full :
  onMessage st (Turn d) = (st', [final_transcript text full]) ->
  full = buildFullTranscript (completedTurns st') /\ text = turnText d.
Proof.
  simpl. destruct (end_of_turn d).
  - destruct (truthy (turnText d) && negb (Map_has (turnOrder d) (completedTurns st)));
      [|discriminate].
    intros E. injection E as <- <- <-. split; reflexivity.
  - destruct (truthy (orElse (transcript d) [])); discriminate.
Qed.

(** X3.  When a turn has been committed and only messages that commit
    nothing arrive after it (session starts, partial turns, unknown
    messages), the termination message sends, as the transcript of the
    session, the full transcript that the [final_transcript] of that turn
    carried. *)
Theorem session_end_repeats_last_final
  (st st' : State) (d : TurnData) (text full : jsstring) (msgs : list Message) :
  onMessage st (Turn d) = (st', [final_transcript text full]) ->
  forallb (fun m => negb (completes m)) msgs = true ->
  snd (onMessage (deliver msgs st') Termination) = [session_end full].
Proof.
  intros Hc Hm. apply final_is_transcript in Hc as [-> _].
  simpl. now rewrite deliver_frame.
Qed.

Lemma StronglySorted_snoc A (R : A -> A -> Prop) l y :
  StronglySorted R l -> Forall (fun x => R x y) l -> StronglySorted R (l ++ [y]).
Proof.
  induction 1 as [|x r Hr IH Hx]; intros Hall; simpl.
  - repeat constructor.
  - inversion Hall as [|? ? Hxy Hry]; subst.
    constructor; [now apply IH|].
    apply Forall_app. split; [assumption | now repeat constructor].
Qed.

Lemma fresh_above (m : TurnMap) k :
  Forall (fun kv => (fst kv < k)%Z) m -> Map_has k m = false.
Proof.
  intros H. destruct (Map_has k m) eqn:E; [|reflexivity].
  apply Map_has_In, in_map_iff in E as [[k' t] [Ek Hin]].
  rewrite Forall_forall in H. specialize (H _ Hin). simpl in *. lia.
Qed.

Lemma fresh_below (m : TurnMap) k :
  Forall (fun kv => (k < fst kv)%Z) m -> Map_has k m = false.
Proof.
  intros H. destruct (Map_has k m) eqn:E; [|reflexivity].
  apply Map_has_In, in_map_iff in E as [[k' t] [Ek Hin]].
  rewrite Forall_forall in H. specialize (H _ Hin). simpl in *. lia.
Qed.

Lemma sorted_keys_lt (m : TurnMap) :
  NoDup (List.map fst m) ->
  StronglySorted (key_lt (@fst Z jsstring)) (Array_sort byOrder m).
Proof.
  intros Hnd. apply sorted_le_lt.
  - eapply Permutation_NoDup; [|exact Hnd].
    apply Permutation_map. symmetry. apply Array_sort_Permutation.
  - apply (Array_sort_sorted (@fst Z jsstring)).
Qed.

Lemma NoDup_keys_snoc (m : TurnMap) k t :
  NoDup (List.map fst m) -> Map_has k m = false ->
  NoDup (List.map fst (m ++ [(k, t)])).
Proof.
  intros Hnd Hf. rewrite map_app. simpl.
  apply NoDup_app; [assumption | repeat constructor; simpl; tauto |].
  intros k' Hk [<-|[]]. apply Map_has_In in Hk. congruence.
Qed.

(** X4.  A committed turn takes the place its order key gives it.  In a
    reachable state whose keys are integers that a double holds exactly, a
    completed turn with a non-empty text and such a key is put at the end of
    the turns of the transcript when its key is larger than every recorded
    key, and in front of them, although it arrived last, when its key is
    smaller than every recorded key. *)
Theorem committed_turn_takes_its_place (st : State) (d : TurnData) :
  reachable st ->
  Forall (fun kv => exactKey (fst kv)) (completedTurns st) ->
  exactKey (turnOrder d) ->
  end_of_turn d = true ->
  turnText d <> [] ->
  (Forall (fun kv => (fst kv < turnOrder d)%Z) (completedTurns st) ->
   sortedTurns (completedTurns (fst (onMessage st (Turn d))))
   = sortedTurns (completedTurns st) ++ [turnText d])
  /\ (Forall (fun kv => (turnOrder d < fst kv)%Z) (completedTurns st) ->
      sortedTurns (completedTurns (fst (onMessage st (Turn d))))
      = turnText d :: sortedTurns (completedTurns st)).
Proof.
  intros Hr _ _ He Ht. pose proof (reachable_keys Hr) as Hnd.
  apply truthy_nonempty in Ht.
  pose proof Hnd as Hs. apply sorted_keys_lt in Hs.
  pose proof (Array_sort_Permutation byOrder (completedTurns st)) as HP.
  split; intros Hall.
  - pose proof Hall as Hf. apply fresh_above in Hf.
    rewrite onMessage_commit by assumption. cbn [fst completedTurns].
    unfold sortedTurns. change byOrder with (afterKey (@fst Z jsstring)).
    rewrite (Array_sort_unique (key := @fst Z jsstring)
               (sorted := Array_sort byOrder (completedTurns st)
                          ++ [(turnOrder d, turnText d)])).
    + now rewrite map_app.
    + now apply NoDup_keys_snoc.
    + now apply Permutation_app_tail.
    + apply StronglySorted_snoc; [assumption|].
      eapply Permutation_Forall; [symmetry; exact HP|].
      eapply Forall_impl; [|exact Hall]. intros kv H. exact H.
  - pose proof Hall as Hf. apply fresh_below in Hf.
    rewrite onMessage_commit by assumption. cbn [fst completedTurns].
    unfold sortedTurns. change byOrder with (afterKey (@fst Z jsstring)).
    rewrite (Array_sort_unique (key := @fst Z jsstring)
               (sorted := (turnOrder d, turnText d)
                          :: Array_sort byOrder (completedTurns st))).
    + reflexivity.
    + now apply NoDup_keys_snoc.
    + rewrite HP. apply Permutation_cons_append.
    + constructor; [assumption|].
      eapply Permutation_Forall; [symmetry; exact HP|].
      eapply Forall_impl; [|exact Hall]. intros kv H. exact H.
Qed.

(** *** The properties at sample turns *)

Lemma transcript_strictly_ordered_witness :
  NoDup (List.map fst
           (completedTurns
              (deliver [Turn (SessionSamples.completed 7 "world");
                        Turn (SessionSamples.completed 3 "hello")] (initial (lit "s")))))
  /\ StronglySorted Z.lt
       (List.map fst
          (Array_sort byOrder
             (completedTurns
                (deliver [Turn (SessionSamples.completed 7 "world");
                          Turn (SessionSamples.completed 3 "hello")] (initial (lit "s"))))))
  /\ Permutation
       (Array_sort byOrder
          (completedTurns
             (deliver [Turn (SessionSamples.completed 7 "world");
                       Turn (SessionSamples.completed 3 "hello")] (initial (lit "s")))))
       (completedTurns
          (deliver [Turn (SessionSamples.completed 7 "world");
                    Turn (SessionSamples.completed 3 "hello")] (initial (lit "s")))).
Proof.
  apply (@transcript_strictly_ordered
           (deliver [Turn (SessionSamples.completed 7 "world");
                     Turn (SessionSamples.completed 3 "hello")] (initial (lit "s")))).
  apply (reach_step (Turn (SessionSamples.completed 3 "hello"))).
  apply (reach_step (Turn (SessionSamples.completed 7 "world"))).
  apply reach_initial.
Defined.

Lemma session_end_repeats_last_final_witness :
  snd (onMessage
         (deliver [Turn (SessionSamples.partial 2 "and then"); Begin (lit "id"); Other]
            (mkState (lit "s") [(1%Z, lit "hello")] []))
         Termination)
  = [session_end (lit "hello")].
Proof.
  apply (@session_end_repeats_last_final
           (initial (lit "s")) (mkState (lit "s") [(1%Z, lit "hello")] [])
           (SessionSamples.completed 1 "hello") (lit "hello") (lit "hello")
           [Turn (SessionSamples.partial 2 "and then"); Begin (lit "id"); Other]).
  - reflexivity.
  - reflexivity.
Defined.

Lemma committed_turn_takes_its_place_witness :
  sortedTurns
    (completedTurns
       (fst (onMessage
               (fst (onMessage (initial (lit "s")) (Turn (SessionSamples.completed 5 "world"))))
               (Turn (SessionSamples.completed 7 "again")))))
  = sortedTurns
      (completedTurns (fst (onMessage (initial (lit "s"))
                              (Turn (SessionSamples.completed 5 "world")))))
    ++ [turnText (SessionSamples.completed 7 "again")]
  /\ sortedTurns
       (completedTurns
          (fst (onMessage
                  (fst (onMessage (initial (lit "s"))
                          (Turn (SessionSamples.completed 5 "world"))))
                  (Turn (SessionSamples.completed 2 "hello")))))
     = turnText (SessionSamples.completed 2 "hello")
       :: sortedTurns
            (completedTurns (fst (onMessage (initial (lit "s"))
                                    (Turn (SessionSamples.completed 5 "world"))))).
Proof.
  split.
  - apply (@committed_turn_takes_its_place
             (fst (onMessage (initial (lit "s")) (Turn (SessionSamples.completed 5 "world"))))
             (SessionSamples.completed 7 "again")).
    + apply reach_step, reach_initial.
    + repeat constructor; vm_compute; intros H; discriminate H.
    + split; vm_compute; intros H; discriminate H.
    + reflexivity.
    + vm_compute. intros H. discriminate H.
    + repeat constructor.
  - apply (@committed_turn_takes_its_place
             (fst (onMessage (initial (lit "s")) (Turn (SessionSamples.completed 5 "world"))))
             (SessionSamples.completed 2 "hello")).
    + apply reach_step, reach_initial.
    + repeat constructor; vm_compute; intros H; discriminate H.
    + split; vm_compute; intros H; discriminate H.
    + reflexivity.
    + vm_compute. intros H. discriminate H.
    + repeat constructor.
Defined.

End SessionMore.

(** ** Properties of the session that keeps a running transcript *)

Module RunningSessionProps.
Import Session JSFacts SessionProps.

Lemma turnOrder_same d : RunningSession.turnOrder d = turnOrder d.
Proof.
  unfold RunningSession.turnOrder, turnOrder. destruct (turn_order d) as [k|]; [|reflexivity].
  destruct (Z.eqb_spec k 0); congruence.
Qed.

Lemma step_grows st msg :
  (RunningSession.lastCompletedTurn st
   <= RunningSession.lastCompletedTurn (fst (RunningSession.onMessage st msg)))%Z
  /\ exists suffix,
       RunningSession.fullTranscript (fst (RunningSession.onMessage st msg))
       = RunningSession.fullTranscript st ++ suffix.
Proof.
  destruct msg as [id|d| |]; simpl;
    try (split; [lia | exists []; now rewrite app_nil_r]).
  destruct (end_of_turn d); simpl.
  - destruct (Z.gtb_spec (RunningSession.turnOrder d) (RunningSession.lastCompletedTurn st)).
    + destruct (truthy (trim _)) eqn:Et; simpl.
      * split; [lia|].
        destruct (RunningSession.fullTranscript st) as [|c r] eqn:Ef; simpl.
        -- eexists. reflexivity.
        -- eexists. reflexivity.
      * split; [lia | exists []; now rewrite app_nil_r].
    + simpl. split; [lia | exists []; now rewrite app_nil_r].
  - destruct (truthy (orElse (transcript d) [])); simpl;
      (split; [lia | exists []; now rewrite app_nil_r]).
Qed.

(** X5.  Whatever arrives, the order key of the last completed turn never
    decreases and the running transcript only grows at its end: what it held
    before is a prefix of what it holds after. *)
Theorem running_transcript_only_grows (msgs : list Message) (st : RunningSession.State) :
  (RunningSession.lastCompletedTurn st
   <= RunningSession.lastCompletedTurn (RunningSession.deliver msgs st))%Z
  /\ exists suffix,
       RunningSession.fullTranscript (RunningSession.deliver msgs st)
       = RunningSession.fullTranscript st ++ suffix.
Proof.
  revert st. induction msgs as [|m r IH]; intros st; simpl.
  - split; [lia | exists []; now rewrite app_nil_r].
  - destruct (step_grows st m) as [H1 [s1 E1]].
    destruct (IH (fst (RunningSession.onMessage st m))) as [H2 [s2 E2]].
    split; [lia|]. exists (s1 ++ s2).
    unfold RunningSession.deliver in *. rewrite E2, E1, app_assoc. reflexivity.
Qed.

Lemma deliver_last_grows msgs st :
  (RunningSession.lastCompletedTurn st
   <= RunningSession.lastCompletedTurn (RunningSession.deliver msgs st))%Z.
Proof.
  revert st. induction msgs as [|m r IH]; intros st; simpl; [lia|].
  pose proof (proj1 (step_grows st m)).
  specialize (IH (fst (RunningSession.onMessage st m))).
  unfold RunningSession.deliver in *. lia.
Qed.

Lemma completed_turn_raises_last st d :
  end_of_turn d = true ->
  (RunningSession.turnOrder d
   <= RunningSession.lastCompletedTurn (fst (RunningSession.onMessage st (Turn d))))%Z.
Proof.
  intros He. simpl. rewrite He. simpl.
  destruct (Z.gtb_spec (RunningSession.turnOrder d) (RunningSession.lastCompletedTurn st)).
  - destruct (truthy (trim _)); simpl; lia.
  - simpl. lia.
Qed.

(** X6.  Once a completed turn has been processed, a completed turn whose
    order key is not larger is dropped, whatever arrived in between: the
    state stays as it is and nothing is sent.  A turn that arrives late is
    lost in this server. *)
Theorem late_turn_is_lost
  (st : RunningSession.State) (d late : TurnData) (msgs : list Message) :
  end_of_turn d = true ->
  end_of_turn late = true ->
  (RunningSession.turnOrder late <= RunningSession.turnOrder d)%Z ->
  RunningSession.onMessage
    (RunningSession.deliver msgs (fst (RunningSession.onMessage st (Turn d))))
    (Turn late)
  = (RunningSession.deliver msgs (fst (RunningSession.onMessage st (Turn d))), []).
Proof.
  intros He Hl Hle.
  pose proof (@completed_turn_raises_last st d He) as H1.
  pose proof (deliver_last_grows msgs (fst (RunningSession.onMessage st (Turn d)))) as H2.
  set (st' := RunningSession.deliver msgs _) in *.
  simpl. rewrite Hl. simpl.
  destruct (Z.gtb_spec (RunningSession.turnOrder late) (RunningSession.lastCompletedTurn st'));
    [lia | reflexivity].
Qed.

Lemma join_truthy sep p rest :
  p <> [] -> truthy (join sep (p :: rest)) = true.
Proof.
  intros Hp. destruct p as [|c p']; [congruence|]. now destruct rest.
Qed.

Lemma join_snoc sep pre t :
  Forall (fun x : jsstring => x <> []) pre ->
  join sep (pre ++ [t])
  = if truthy (join sep pre) then join sep pre ++ sep ++ t else t.
Proof.
  induction pre as [|p r IH]; intros H; [reflexivity|].
  inversion H as [|? ? Hp Hr]; subst.
  rewrite join_truthy by assumption.
  destruct r as [|q r'].
  - reflexivity.
  - change ((p :: q :: r') ++ [t]) with (p :: q :: (r' ++ [t])).
    rewrite !join_cons. change (q :: r' ++ [t]) with ((q :: r') ++ [t]).
    rewrite IH by assumption.
    inversion Hr; subst. rewrite join_truthy by assumption.
    rewrite <- !app_assoc. reflexivity.
Qed.

(** Completed turns that arrive with increasing keys are appended one after
    the other. *)
Lemma running_deliver_turns ds : forall st pre,
  Forall (fun d => end_of_turn d = true) ds ->
  StronglySorted Z.lt (List.map turnOrder ds) ->
  Forall (fun d => (RunningSession.lastCompletedTurn st < turnOrder d)%Z) ds ->
  Forall (fun x : jsstring => x <> []) pre ->
  RunningSession.fullTranscript st = join (lit " ") pre ->
  RunningSession.fullTranscript (RunningSession.deliver (List.map Turn ds) st)
  = join (lit " ") (pre ++ List.filter truthy (List.map turnText ds)).
Proof.
  induction ds as [|d r IH]; intros st pre He Hs Hlast Hpre Hfull.
  - simpl. now rewrite app_nil_r.
  - inversion He as [|? ? Hd He']; subst.
    simpl in Hs. inversion Hs as [|? ? Hs' Hall]; subst.
    inversion Hlast as [|? ? Hld Hlr]; subst.
    cbn [List.map RunningSession.deliver fold_left].
    fold (RunningSession.deliver (List.map Turn r)).
    assert (Hnext : forall st',
               RunningSession.lastCompletedTurn st' = turnOrder d ->
               Forall (fun d' => (RunningSession.lastCompletedTurn st' < turnOrder d')%Z) r).
    { intros st' E. rewrite E. rewrite Forall_map in Hall. exact Hall. }
    cbn [RunningSession.onMessage]. rewrite Hd, turnOrder_same.
    destruct (Z.gtb_spec (turnOrder d) (RunningSession.lastCompletedTurn st)) as [_|]; [|lia].
    cbn [andb List.filter]. fold (turnText d).
    destruct (truthy (turnText d)) eqn:Et; cbn [fst].
    + rewrite (IH _ (pre ++ [turnText d])); try assumption.
      * now rewrite <- app_assoc.
      * now apply Hnext.
      * apply Forall_app. split; [assumption|].
        constructor; [now apply truthy_nonempty | constructor].
      * cbn [RunningSession.fullTranscript]. rewrite join_snoc, Hfull by assumption.
        reflexivity.
    + apply IH; try assumption. now apply Hnext.
Qed.

Lemma sorted_keys_NoDup (ks : list Z) : StronglySorted Z.lt ks -> NoDup ks.
Proof.
  induction 1 as [|k r Hr IH Hk]; constructor; [|assumption].
  intros Hin. rewrite Forall_forall in Hk. specialize (Hk _ Hin). lia.
Qed.

(** X7.  On a stream of completed turns that arrive in increasing order of
    non-negative keys, each an integer that a double holds exactly, the
    server with the running transcript and the server with the map of turns
    end with the same transcript: the trimmed non-empty texts in arrival
    order, joined by single spaces. *)
Theorem servers_agree_in_order (sid : jsstring) (ds : list TurnData) :
  Forall (fun d => end_of_turn d = true) ds ->
  Forall (fun d => exactKey (turnOrder d)) ds ->
  StronglySorted Z.lt (List.map turnOrder ds) ->
  Forall (fun d => (0 <= turnOrder d)%Z) ds ->
  RunningSession.fullTranscript
    (RunningSession.deliver (List.map Turn ds) (RunningSession.initial sid))
  = buildFullTranscript (completedTurns (deliver (List.map Turn ds) (initial sid)))
  /\ RunningSession.fullTranscript
       (RunningSession.deliver (List.map Turn ds) (RunningSession.initial sid))
     = join (lit " ") (List.filter truthy (List.map turnText ds)).
Proof.
  intros He _ Hs Hpos.
  assert (Hrun : RunningSession.fullTranscript
                   (RunningSession.deliver (List.map Turn ds) (RunningSession.initial sid))
                 = join (lit " ") (List.filter truthy (List.map turnText ds))).
  { rewrite (@running_deliver_turns ds (RunningSession.initial sid) []);
      [reflexivity | assumption | assumption | | constructor | reflexivity].
    eapply Forall_impl; [|exact Hpos]. simpl. intros; lia. }
  split; [|exact Hrun]. rewrite Hrun.
  rewrite deliver_turns; [| assumption | now apply sorted_keys_NoDup | reflexivity].
  cbn [initial completedTurns app].
  unfold buildFullTranscript, sortedTurns.
  change byOrder with (afterKey (@fst Z jsstring)).
  rewrite (Array_sort_unique (key := @fst Z jsstring) (sorted := recorded ds)).
  - rewrite recorded_texts. symmetry. apply trim_join, filter_truthy_stored.
  - apply recorded_NoDup. now apply sorted_keys_NoDup.
  - reflexivity.
  - now apply recorded_sorted.
Qed.

(** *** The properties at sample turns *)

Lemma late_turn_is_lost_witness :
  RunningSession.onMessage
    (RunningSession.deliver [Turn (SessionSamples.partial 4 "so")]
       (fst (RunningSession.onMessage (RunningSession.initial (lit "s"))
               (Turn (SessionSamples.completed 3 "world")))))
    (Turn (SessionSamples.completed 2 "hello"))
  = (RunningSession.deliver [Turn (SessionSamples.partial 4 "so")]
       (fst (RunningSession.onMessage (RunningSession.initial (lit "s"))
               (Turn (SessionSamples.completed 3 "world")))),
     []).
Proof.
  apply (@late_turn_is_lost (RunningSession.initial (lit "s"))
           (SessionSamples.completed 3 "world") (SessionSamples.completed 2 "hello")
           [Turn (SessionSamples.partial 4 "so")]).
  - reflexivity.
  - reflexivity.
  - vm_compute. intros H. discriminate H.
Defined.

Lemma servers_agree_in_order_witness :
  RunningSession.fullTranscript
    (RunningSession.deliver
       (List.map Turn [SessionSamples.completed 0 "one"; SessionSamples.completed 1 " ";
                       SessionSamples.completed 4 " two "])
       (RunningSession.initial (lit "s")))
  = buildFullTranscript
      (completedTurns
         (deliver
            (List.map Turn [SessionSamples.completed 0 "one"; SessionSamples.completed 1 " ";
                            SessionSamples.completed 4 " two "])
            (initial (lit "s"))))
  /\ RunningSession.fullTranscript
       (RunningSession.deliver
          (List.map Turn [SessionSamples.completed 0 "one"; SessionSamples.completed 1 " ";
                          SessionSamples.completed 4 " two "])
          (RunningSession.initial (lit "s")))
     = join (lit " ")
         (List.filter truthy
            (List.map turnText [SessionSamples.completed 0 "one";
                                SessionSamples.completed 1 " ";
                                SessionSamples.completed 4 " two "])).
Proof.
  apply (@servers_agree_in_order (lit "s")
           [SessionSamples.completed 0 "one"; SessionSamples.completed 1 " ";
            SessionSamples.completed 4 " two "]).
  - repeat constructor.
  - repeat constructor; vm_compute; intros H; discriminate H.
  - repeat constructor.
  - repeat constructor; vm_compute; intros H; discriminate H.
Defined.

End RunningSessionProps.

(** ** Further properties of the text analytics *)

Module AnalyticsMore.
Import Analytics JSFacts AnalyticsProps.

(** *** Tokens *)

Lemma forallb_rev_iff (P : N -> bool) l : forallb P (rev l) = forallb P l.
Proof.
  apply eq_true_iff_eq. rewrite !forallb_forall.
  split; intros H c Hc; apply H.
  - apply in_rev. now rewrite rev_involutive.
  - now apply in_rev.
Qed.

(** The pieces between the runs of white space hold the code units of the
    string that are not white space. *)
Lemma split_ws_from_pieces (P : N -> bool) s : forall cur inws,
  forallb P cur = true ->
  Forall (fun c => is_ws c = false -> P c = true) s ->
  Forall (fun w => forallb P w = true) (split_ws_from cur inws s).
Proof.
  induction s as [|c r IH]; intros cur inws Hcur Hs; simpl.
  - constructor; [now rewrite forallb_rev_iff | constructor].
  - inversion Hs as [|? ? Hc Hr]; subst.
    destruct (is_ws c) eqn:Ec.
    + destruct inws.
      * now apply IH.
      * constructor; [now rewrite forallb_rev_iff | now apply IH].
    + apply IH; [|assumption]. simpl. now rewrite (Hc eq_refl).
Qed.

Lemma split_ws_pieces (P : N -> bool) s :
  Forall (fun c => is_ws c = false -> P c = true) s ->
  Forall (fun w => forallb P w = true) (split_ws s).
Proof. now apply split_ws_from_pieces. Qed.

Lemma blank_punctuation_classes s :
  Forall (fun c => is_ws c = false -> is_word c = true) (blank_punctuation s).
Proof.
  unfold blank_punctuation. apply Forall_map, Forall_forall. intros c _.
  destruct (is_word c) eqn:Ew; simpl; [auto|].
  destruct (is_ws c) eqn:Es; [congruence | discriminate].
Qed.

Section Host.
Variable toLowerCase : jsstring -> jsstring.
Variable Math_log : float -> float.

(** X8.  Whatever the text and the host's [toLowerCase], a token has at
    least two code units, all of them letters, digits or underscores of
    ASCII; a content word has at least three and is no stop word. *)
Theorem tokens_are_words (text : jsstring) :
  Forall (fun w => 2 <= length w /\ forallb is_word w = true)
         (tokenize toLowerCase text)
  /\ Forall (fun w => 3 <= length w /\ forallb is_word w = true
                      /\ Set_has w STOP_WORDS = false)
            (getContentWords toLowerCase text).
Proof.
  assert (Ht : Forall (fun w => 2 <= length w /\ forallb is_word w = true)
                      (tokenize toLowerCase text)).
  { unfold tokenize. apply Forall_forall. intros w Hin.
    apply filter_In in Hin as [Hin Hlen]. apply Nat.ltb_lt in Hlen.
    split; [lia|].
    pose proof (split_ws_pieces is_word (blank_punctuation_classes (toLowerCase text))) as H.
    rewrite Forall_forall in H. now apply H. }
  split; [exact Ht|].
  unfold getContentWords. apply Forall_forall. intros w Hin.
  apply filter_In in Hin as [Hin Hc]. apply andb_true_iff in Hc as [Hs Hl].
  rewrite Forall_forall in Ht. destruct (Ht _ Hin) as [_ Hw].
  apply Nat.ltb_lt in Hl. apply negb_true_iff in Hs. repeat split; [lia | assumption..].
Qed.

End Host.

(** *** Segments *)

(** X9.  Every segment that [splitIntoSentences] returns has more than 10
    code units, whichever of the three ways of splitting produced it; and
    the segments of a text of at most 100 code units are trimmed pieces of
    the text cut after full stops, exclamation and question marks. *)
Theorem segments_are_long (text : jsstring) :
  Forall (fun s => 10 < length s) (splitIntoSentences text)
  /\ (length text <= 100 ->
      splitIntoSentences text
      = List.filter (fun s => 10 <? length s)
          (List.map trim (split_lit (lit "|||") (mark_sentence_ends false text)))
      /\ Forall (fun s => trim s = s) (splitIntoSentences text)).
Proof.
  assert (H1 : forall l, Forall (fun s => 10 < length s)
                           (List.filter (fun s : jsstring => 10 <? length s) l)).
  { intros l. apply Forall_forall. intros x Hx. apply filter_In in Hx as [_ Hx].
    now apply Nat.ltb_lt. }
  assert (H2 : forall l, Forall (fun s => 10 < length s)
                           (List.filter (fun s : jsstring => 15 <? length s) l)).
  { intros l. apply Forall_forall. intros x Hx. apply filter_In in Hx as [_ Hx].
    apply Nat.ltb_lt in Hx. lia. }
  split.
  - unfold splitIntoSentences. cbv zeta.
    repeat match goal with
           | |- context [if ?c then _ else _] => destruct c
           end; auto.
  - intros Hlen. assert (E : (100 <? length text) = false) by (apply Nat.ltb_ge; lia).
    unfold splitIntoSentences. cbv zeta. rewrite E, !andb_false_r.
    split; [reflexivity|].
    apply Forall_forall. intros x Hx. apply filter_In in Hx as [Hx _].
    apply in_map_iff in Hx as [y [<- _]]. apply trim_idempotent.
Qed.

Lemma segments_are_long_witness :
  length (lit "Call Anna tomorrow. Send the report today!") <= 100
  /\ splitIntoSentences (lit "Call Anna tomorrow. Send the report today!")
     = List.filter (fun s => 10 <? length s)
         (List.map trim
            (split_lit (lit "|||")
               (mark_sentence_ends false (lit "Call Anna tomorrow. Send the report today!"))))
  /\ Forall (fun s => trim s = s)
            (splitIntoSentences (lit "Call Anna tomorrow. Send the report today!")).
Proof.
  split; [vm_compute; lia|].
  apply (@segments_are_long (lit "Call Anna tomorrow. Send the report today!")).
  vm_compute. lia.
Defined.

(** *** More on the Jaccard similarity *)

Lemma same_elements_length (l1 l2 : list jsstring) :
  (forall x, In x l1 <-> In x l2) -> length (Set_of l1) = length (Set_of l2).
Proof.
  intros H. apply Permutation_length, NoDup_Permutation; try apply Set_of_NoDup.
  intros x. rewrite !Set_of_In. apply H.
Qed.

Lemma intersection_symmetric a b :
  length (Set_of (List.filter (fun x => Set_has x b) a))
  = length (Set_of (List.filter (fun x => Set_has x a) b)).
Proof.
  apply same_elements_length. intros x. rewrite !filter_In, !Set_has_In. tauto.
Qed.

Lemma union_symmetric a b : length (Set_of (a ++ b)) = length (Set_of (b ++ a)).
Proof.
  apply same_elements_length. intros x. rewrite !in_app_iff. tauto.
Qed.

Lemma Set_of_nil_iff l : Set_of l = [] <-> l = [].
Proof.
  split; [|now intros ->]. intros H. destruct l as [|x r]; [reflexivity|].
  assert (In x (Set_of (x :: r))) as Hin by (apply Set_of_In; now left).
  rewrite H in Hin. contradiction.
Qed.

(** X10.  The Jaccard similarity does not depend on the order of its
    arguments; it is 0 exactly when the two sets have no token in common, and
    1 exactly when they are not both empty and have the same tokens. *)
Theorem jaccard_symmetric_and_extremes (a b : list jsstring) :
  jaccardSimilarity a b = jaccardSimilarity b a
  /\ ((jaccardSimilarity a b == 0)%Q <-> (forall x, In x a -> ~ In x b))
  /\ ((jaccardSimilarity a b == 1)%Q <-> (a ++ b <> [] /\ forall x, In x a <-> In x b)).
Proof.
  split; [|split].
  - unfold jaccardSimilarity.
    now rewrite (intersection_symmetric a b), (union_symmetric a b).
  - destruct (Nat.eq_dec (length (Set_of (a ++ b))) 0) as [E|E].
    + rewrite jaccard_empty by assumption.
      apply length_zero_iff_nil in E. apply (proj1 (Set_of_nil_iff _)) in E.
      apply app_eq_nil in E as [-> ->].
      split; [intros _ x [] | reflexivity].
    + rewrite jaccard_value by lia. unfold Qeq. simpl. rewrite Z.mul_1_r.
      split.
      * intros H x Ha Hb.
        assert (Hl : length (Set_of (List.filter (fun x => Set_has x b) a)) = 0) by lia.
        apply length_zero_iff_nil in Hl. apply (proj1 (Set_of_nil_iff _)) in Hl.
        assert (Hin : In x (List.filter (fun x => Set_has x b) a)).
        { apply filter_In. split; [assumption | now apply Set_has_In]. }
        rewrite Hl in Hin. contradiction.
      * intros H.
        assert (Hl : List.filter (fun x => Set_has x b) a = []).
        { destruct (List.filter _ a) as [|x r] eqn:Ef; [reflexivity|].
          assert (Hin : In x (List.filter (fun x => Set_has x b) a))
            by (rewrite Ef; now left).
          apply filter_In in Hin as [Ha Hb]. apply Set_has_In in Hb.
          now contradiction (H x Ha). }
        rewrite Hl. reflexivity.
  - destruct (Nat.eq_dec (length (Set_of (a ++ b))) 0) as [E|E].
    + rewrite jaccard_empty by assumption.
      apply length_zero_iff_nil in E. apply (proj1 (Set_of_nil_iff _)) in E.
      split; [discriminate | intros [H _]; congruence].
    + rewrite jaccard_value by lia. unfold Qeq. simpl.
      rewrite Z.mul_1_r, Zpos_of_nat by assumption.
      assert (Hne : a ++ b <> []).
      { intros H. apply E. now rewrite H. }
      split.
      * intros H. split; [assumption|].
        assert (Hincl : incl (Set_of (a ++ b))
                             (Set_of (List.filter (fun x => Set_has x b) a))).
        { apply NoDup_length_incl; [apply Set_of_NoDup | lia |].
          intros y. rewrite !Set_of_In, filter_In, in_app_iff. tauto. }
        assert (Hall : forall x, In x (a ++ b) -> In x a /\ In x b).
        { intros x Hx. apply Set_of_In in Hx. apply Hincl in Hx.
          apply Set_of_In, filter_In in Hx as [Ha Hb]. apply Set_has_In in Hb. tauto. }
        intros x. split; intros Hx; apply Hall, in_app_iff; tauto.
      * intros [_ H]. f_equal. apply same_elements_length.
        intros x. rewrite filter_In, Set_has_In, in_app_iff.
        specialize (H x). tauto.
Qed.

(** *** The selection, the key points and the action items *)

Lemma map_fst_combine A B (l : list A) : forall (l' : list B),
  length l = length l' -> List.map fst (combine l l') = l.
Proof.
  induction l as [|x r IH]; intros [|y r'] H; simpl in *; try discriminate; [reflexivity|].
  now rewrite IH by lia.
Qed.

Lemma map_snd_combine A B (l : list A) : forall (l' : list B),
  length l = length l' -> List.map snd (combine l l') = l'.
Proof.
  induction l as [|x r IH]; intros [|y r'] H; simpl in *; try discriminate; [reflexivity|].
  now rewrite IH by lia.
Qed.

Lemma indexed_snd A (l : list A) : List.map snd (indexed l) = l.
Proof. unfold indexed. apply map_snd_combine. apply length_seq. Qed.


Section Summarizer.
Variable toLowerCase : jsstring -> jsstring.
Variable Math_log : float -> float.

Local Abbreviation generateAdvancedSummary := (generateAdvancedSummary toLowerCase Math_log).
Local Abbreviation summaryParts := (summaryParts toLowerCase Math_log).
Local Abbreviation combinedScores := (combinedScores toLowerCase Math_log).
Local Abbreviation rankedSentences := (rankedSentences toLowerCase Math_log).
Local Abbreviation selection := (selection toLowerCase Math_log).
Local Abbreviation keyPointsOf := (keyPointsOf toLowerCase Math_log).
Local Abbreviation actionItemsOf := (actionItemsOf toLowerCase Math_log).
Local Abbreviation calculateTFIDF := (calculateTFIDF toLowerCase Math_log).

Lemma combinedScores_sentences sentences :
  List.map sentence (combinedScores sentences) = sentences.
Proof.
  unfold Analytics.combinedScores. rewrite map_map.
  transitivity (List.map fst (List.map snd
                  (indexed (combine sentences (calculateTFIDF sentences))))).
  - rewrite map_map. apply map_ext. now intros [i [sent tf]].
  - rewrite indexed_snd. apply map_fst_combine.
    symmetry. apply calculateTFIDF_length.
Qed.







Lemma backfill_bounded parts : forall keyPoints,
  length (fold_left backfill parts keyPoints) <= Nat.max 5 (length keyPoints)
  /\ forall k, In k (fold_left backfill parts keyPoints) ->
               In k keyPoints \/ In k (List.map snd parts).
Proof.
  induction parts as [|p r IH]; intros kp; cbn [fold_left List.map];
    [split; [lia | auto]|].
  destruct (IH (backfill kp p)) as [Hl Hin].
  assert (Hb : length (backfill kp p) <= Nat.max 5 (length kp)
               /\ forall k, In k (backfill kp p) -> In k kp \/ k = snd p).
  { unfold backfill. destruct (length kp <? 5) eqn:E; cbn [andb negb].
    - apply Nat.ltb_lt in E. destruct (Set_has (snd p) kp); cbn [negb].
      + split; [lia | auto].
      + rewrite length_app. cbn [length]. split; [lia|].
        intros k Hk. apply in_app_or in Hk as [Hk|[<-|[]]]; auto.
    - split; [lia | auto]. }
  destruct Hb as [Hbl Hbin]. split; [lia|].
  intros k Hk. destruct (Hin k Hk) as [H|H]; [|right; now right].
  destruct (Hbin k H) as [H'| ->]; [now left | right; now left].
Qed.

Lemma keyPointsOf_bounded sentences :
  length (keyPointsOf sentences) <= 5
  /\ Forall (fun k => In k sentences) (keyPointsOf sentences).
Proof.
  unfold Analytics.keyPointsOf. cbv zeta.
  set (kp := List.map sentence (firstn 5 (List.filter _ (rankedSentences sentences)))).
  assert (Hlen : length kp <= 5).
  { unfold kp. rewrite length_map. apply firstn_le_length. }
  assert (Hin : forall k, In k kp -> In k sentences).
  { intros k Hk. unfold kp in Hk. apply in_map_iff in Hk as [item [<- Hi]].
    apply In_firstn, filter_In in Hi as [Hi _].
    rewrite <- (combinedScores_sentences sentences). apply in_map.
    eapply Permutation_in; [apply rankedSentences_Permutation | exact Hi]. }
  assert (Hparts : forall k, In k (List.map snd (summaryParts sentences)) -> In k sentences).
  { intros k Hk. apply in_map_iff in Hk as [[i s'] [<- Hp]].
    pose proof (summaryParts_sentence toLowerCase Math_log sentences) as H.
    rewrite Forall_forall in H. specialize (H _ Hp). simpl in *.
    eapply nth_error_In. exact H. }
  destruct (length kp <? 3).
  - destruct (backfill_bounded (summaryParts sentences) kp) as [Hl Hb].
    split; [lia|]. apply Forall_forall. intros k Hk.
    destruct (Hb k Hk); auto.
  - split; [assumption | now apply Forall_forall].
Qed.

(** X12.  The summarizer never returns more than 5 key points, and for a
    text of at least 30 words every key point is one of the segments of the
    text. *)
Theorem key_points_are_segments (text : jsstring) :
  length (keyPoints (generateAdvancedSummary text)) <= 5
  /\ (trim text <> [] -> 30 <= length (split_ws (trim text)) ->
      Forall (fun k => In k (splitIntoSentences (trim text)))
             (keyPoints (generateAdvancedSummary text))).
Proof.
  split.
  - destruct (list_eq_dec N.eq_dec (trim text) []) as [E|E].
    + rewrite summary_of_blank by assumption. simpl. lia.
    + destruct (Nat.lt_ge_cases (length (split_ws (trim text))) 30) as [H|H].
      * rewrite summary_of_short by assumption. simpl. lia.
      * rewrite summary_of_long by assumption. cbv zeta. cbn [keyPoints].
        apply keyPointsOf_bounded.
  - intros Hne Hwc. rewrite summary_of_long by assumption. cbv zeta. cbn [keyPoints].
    apply keyPointsOf_bounded.
Qed.




Lemma split_ws_from_nonempty s : forall cur inws, split_ws_from cur inws s <> [].
Proof.
  induction s as [|c r IH]; intros cur inws; simpl; [discriminate|].
  destruct (is_ws c); [destruct inws; [apply IH | discriminate] | apply IH].
Qed.

Lemma summary_of_text (text : jsstring) :
  trim text <> [] ->
  summary (generateAdvancedSummary text) <> []
  /\ 1 <= wordCount (generateAdvancedSummary text).
Proof.
  intros E.
  assert (Hw : length (split_ws (trim text)) <> 0).
  { pose proof (split_ws_from_nonempty (trim text) [] false) as H.
    unfold split_ws. destruct (split_ws_from [] false (trim text)); [congruence|].
    discriminate. }
  destruct (Nat.lt_ge_cases (length (split_ws (trim text))) 30) as [H|H].
  - rewrite summary_of_short by assumption. simpl. split; [assumption | lia].
  - rewrite summary_of_long by assumption. cbv zeta. cbn [summary wordCount].
    split; [|lia]. intros Hs.
    destruct (truthy _) eqn:Et.
    + apply SessionProps.truthy_nonempty in Et. congruence.
    + apply app_eq_nil in Hs as [_ Hs]. discriminate Hs.
Qed.

(** X14.  The summary of a text is empty only when the text is blank, and
    so is a word count of 0: for every other text the summarizer returns a
    summary that is not empty and counts at least one word. *)
Theorem summary_empty_only_for_blank (text : jsstring) :
  (summary (generateAdvancedSummary text) = [] <-> trim text = [])
  /\ (wordCount (generateAdvancedSummary text) = 0 <-> trim text = []).
Proof.
  destruct (list_eq_dec N.eq_dec (trim text) []) as [E|E].
  - rewrite summary_of_blank by assumption. simpl. tauto.
  - destruct (@summary_of_text text E) as [Hs Hw].
    split; split; intros H; try congruence; lia.
Qed.

(** X15.  The summarize endpoint answers 400 when the body has no text or
    a text that is falsy or a blank string, 500 when there is no body or the
    text is truthy and not a string, and otherwise 200 with the summary of
    the text, which is not empty and counts at least one word: the all-empty
    result of the summarizer never leaves the endpoint. *)
Theorem summarize_endpoint (body : option (option Api.Json)) :
  match Api.summarize toLowerCase Math_log body with
  | Api.BadRequest _ =>
      exists text,
        body = Some text
        /\ (text = None
            \/ (exists v, text = Some v /\ Api.toBoolean v = false)
            \/ (exists t, text = Some (Api.JString t) /\ forallb is_ws t = true))
  | Api.ServerError _ =>
      body = None
      \/ (exists v, body = Some (Some v) /\ Api.toBoolean v = true
                    /\ forall t, v <> Api.JString t)
  | Api.Ok result =>
      exists t, body = Some (Some (Api.JString t)) /\ forallb is_ws t = false
                /\ result = generateAdvancedSummary t
                /\ summary result <> [] /\ 1 <= wordCount result
  end.
Proof.
  destruct body as [[v|]|]; cbn [Api.summarize];
    [|exists None; split; [reflexivity | now left] | now left].
  destruct (Api.toBoolean v) eqn:Ev; cbn [negb].
  - destruct v as [|b|x|t|];
      try (right; eexists; split; [reflexivity|]; split; [exact Ev | intros t; discriminate]).
    destruct (list_eq_dec N.eq_dec (trim t) []) as [E|E].
    + rewrite E. cbn [length Nat.eqb]. exists (Some (Api.JString t)).
      split; [reflexivity|]. right. right. exists t.
      split; [reflexivity | now apply trim_nil_blank].
    + assert (El : (length (trim t) =? 0) = false).
      { apply Nat.eqb_neq. intros El. now apply length_zero_iff_nil in El. }
      rewrite El. exists t. split; [reflexivity|].
      destruct (@summary_of_text t E) as [Hs Hw].
      split; [|split; [reflexivity|split; assumption]].
      destruct (forallb is_ws t) eqn:Eb; [|reflexivity].
      apply trim_blank in Eb. congruence.
  - exists (Some v). split; [reflexivity|]. right. left. exists v. now split.
Qed.

(** *** The summary and its ratio *)

Lemma segments_longer_than_10 (text : jsstring) :
  Forall (fun s => 10 < length s) (splitIntoSentences text).
Proof.
  assert (H1 : forall l, Forall (fun s => 10 < length s)
                           (List.filter (fun s : jsstring => 10 <? length s) l)).
  { intros l. apply Forall_forall. intros x Hx. apply filter_In in Hx as [_ Hx].
    now apply Nat.ltb_lt. }
  assert (H2 : forall l, Forall (fun s => 10 < length s)
                           (List.filter (fun s : jsstring => 15 <? length s) l)).
  { intros l. apply Forall_forall. intros x Hx. apply filter_In in Hx as [_ Hx].
    apply Nat.ltb_lt in Hx. lia. }
  unfold splitIntoSentences. cbv zeta.
  repeat match goal with
         | |- context [if ?c then _ else _] => destruct c
         end; auto.
Qed.

Lemma squeeze_dots_nonempty s : s <> [] -> squeeze_dots s <> [].
Proof.
  destruct s as [|a [|b r]]; simpl; [congruence | discriminate |].
  intros _. destruct ((a =? 46) && (b =? 46))%N; discriminate.
Qed.

Lemma join_nonempty sep (t : jsstring) rest : t <> [] -> join sep (t :: rest) <> [].
Proof.
  intros H. destruct rest; simpl; [assumption|].
  destruct t; [congruence | discriminate].
Qed.

(** When a segment was selected the assembled summary is not empty. *)
Lemma assembled_of_selection sentences :
  Forall (fun s => 10 < length s) sentences ->
  summaryParts sentences <> [] ->
  truthy (Analytics.assembledSummary toLowerCase Math_log sentences) = true.
Proof.
  intros Hlong Hparts. apply SessionProps.truthy_nonempty.
  unfold Analytics.assembledSummary. apply squeeze_dots_nonempty.
  pose proof (summaryParts_sentence toLowerCase Math_log sentences) as Hs.
  destruct (summaryParts sentences) as [|p rest]; [congruence|].
  cbn [List.map]. apply join_nonempty.
  inversion Hs as [|? ? Hp _]; subst. apply nth_error_In in Hp.
  rewrite Forall_forall in Hlong. specialize (Hlong _ Hp).
  intros E. rewrite E in Hlong. simpl in Hlong. lia.
Qed.



(** C6, as amended.  For a text of at least 30 words of which a segment was
    selected, the compression ratio is a percentage: [Math.round] of 100
    times the quotient of the number of words of the summary that is
    returned, by the word count of the text. *)
Theorem compression_ratio_is_percentage (text : jsstring) :
  trim text <> [] ->
  30 <= length (split_ws (trim text)) ->
  summaryParts (splitIntoSentences (trim text)) <> [] ->
  compressionRatio (generateAdvancedSummary text)
  = Some (Math_round
            (PrimFloat.mul
               (PrimFloat.div
                  (Number_of_nat
                     (length (split_ws (summary (generateAdvancedSummary text)))))
                  (Number_of_nat (wordCount (generateAdvancedSummary text))))
               100%float))
  /\ wordCount (generateAdvancedSummary text) = length (split_ws (trim text)).
Proof.
  intros Hne Hwc Hsel. rewrite summary_of_long by assumption.
  cbv zeta. cbn [compressionRatio wordCount summary].
  rewrite assembled_of_selection;
    [split; reflexivity | apply segments_longer_than_10 | assumption].
Qed.

End Summarizer.


(** The selection at the sample: 3 of 8 segments, in the order of the
    document, and the summary made of them. *)
Lemma minutes_selection :
  length (splitIntoSentences (trim SummarySamples.minutes)) = 8
  /\ List.map fst (summaryParts toLowerCase_ascii Math_log_series
                     (splitIntoSentences (trim SummarySamples.minutes)))
     = [3; 6; 7]
  /\ summary (generateAdvancedSummary toLowerCase_ascii Math_log_series SummarySamples.minutes)
     = lit "The main goal is a stable release. The second problem is the slow database. Finally we agreed to meet again next week."
  /\ compressionRatio (generateAdvancedSummary toLowerCase_ascii Math_log_series
                         SummarySamples.minutes)
     = Some 42%Z.
Proof. vm_compute. repeat split. Qed.


Lemma compression_ratio_is_percentage_witness :
  compressionRatio (generateAdvancedSummary toLowerCase_ascii Math_log_series
                      SummarySamples.minutes)
  = Some (Math_round
            (PrimFloat.mul
               (PrimFloat.div
                  (Number_of_nat
                     (length (split_ws (summary (generateAdvancedSummary toLowerCase_ascii
                                                   Math_log_series SummarySamples.minutes)))))
                  (Number_of_nat
                     (wordCount (generateAdvancedSummary toLowerCase_ascii Math_log_series
                                   SummarySamples.minutes))))
               100%float))
  /\ wordCount (generateAdvancedSummary toLowerCase_ascii Math_log_series
                  SummarySamples.minutes)
     = length (split_ws (trim SummarySamples.minutes)).
Proof.
  apply (@compression_ratio_is_percentage toLowerCase_ascii Math_log_series
           SummarySamples.minutes).
  - vm_compute. intros H. discriminate H.
  - vm_compute. lia.
  - vm_compute. intros H. discriminate H.
Defined.

(** The summarize endpoint at bodies without a usable text. *)
Lemma summarize_endpoint_samples :
  Api.summarize toLowerCase_ascii Math_log_series (Some (Some (Api.JNumber 42%float)))
  = Api.ServerError (lit "Failed to summarize text")
  /\ Api.summarize toLowerCase_ascii Math_log_series (Some (Some Api.JStructure))
     = Api.ServerError (lit "Failed to summarize text")
  /\ Api.summarize toLowerCase_ascii Math_log_series None
     = Api.ServerError (lit "Failed to summarize text")
  /\ Api.summarize toLowerCase_ascii Math_log_series (Some (Some (Api.JNumber 0%float)))
     = Api.BadRequest (lit "No text provided for summarization")
  /\ Api.summarize toLowerCase_ascii Math_log_series (Some (Some (Api.JString (lit " "))))
     = Api.BadRequest (lit "No text provided for summarization")
  /\ Api.summarize toLowerCase_ascii Math_log_series (Some None)
     = Api.BadRequest (lit "No text provided for summarization").
Proof. repeat split. Qed.


Lemma key_points_are_segments_witness :
  30 <= length (split_ws (trim thirtyWords))
  /\ Forall (fun k => In k (splitIntoSentences (trim thirtyWords)))
            (keyPoints (generateAdvancedSummary toLowerCase_ascii Math_log_series thirtyWords)).
Proof.
  split; [vm_compute; lia|].
  apply (@key_points_are_segments toLowerCase_ascii Math_log_series thirtyWords).
  - vm_compute. intros H. discriminate H.
  - vm_compute. lia.
Defined.

(** *** The enhancement *)

Section Enhancement.
Variable toLowerCase : jsstring -> jsstring.

Local Abbreviation classify := (classify toLowerCase).
Local Abbreviation classification := (classification toLowerCase).
Local Abbreviation relatedEntries := (relatedEntries toLowerCase).
Local Abbreviation newEntries := (newEntries toLowerCase).
Local Abbreviation matchingTopics := (EnhanceNotions.matchingTopics toLowerCase).
Local Abbreviation topicsOfNotes := (EnhanceNotions.topicsOfNotes toLowerCase).
Local Abbreviation noteTopicsOf := (noteTopicsOf toLowerCase).
Local Abbreviation getContentWords := (getContentWords toLowerCase).

Lemma classify_invariant noteLines topTopics (all : list jsstring) sentences :
  forall acc,
  (forall s, In s sentences -> In s all) ->
  Forall (fun r => In (relatedSentence r) all /\ 20 < length (relatedSentence r)
                   /\ matchCount r = length (matchingTopics topTopics (relatedSentence r))
                   /\ 1 <= matchCount r) (fst acc) ->
  Forall (fun s => In s all /\ 20 < length s /\ matchingTopics topTopics s = []) (snd acc) ->
  Forall (fun r => In (relatedSentence r) all /\ 20 < length (relatedSentence r)
                   /\ matchCount r = length (matchingTopics topTopics (relatedSentence r))
                   /\ 1 <= matchCount r)
         (fst (fold_left (classify noteLines topTopics) sentences acc))
  /\ Forall (fun s => In s all /\ 20 < length s /\ matchingTopics topTopics s = [])
            (snd (fold_left (classify noteLines topTopics) sentences acc)).
Proof.
  induction sentences as [|x r IH]; intros acc Hall Hrel Hnew; [now split|].
  simpl. apply IH; [intros s Hs; apply Hall; now right | |];
    unfold Analytics.classify; cbv zeta;
    fold (matchingTopics topTopics x);
    destruct (negb _ && (20 <? length x)) eqn:E; try assumption;
    apply andb_true_iff in E as [_ E]; apply Nat.ltb_lt in E;
    destruct (Nat.leb_spec 1 (length (matchingTopics topTopics x))) as [Hm|Hm];
    cbn [fst snd]; try assumption.
  - apply Forall_app. split; [assumption|]. constructor; [|constructor].
    cbn [relatedSentence matchCount]. repeat split; auto. apply Hall. now left.
  - apply Forall_app. split; [assumption|]. constructor; [|constructor].
    repeat split; auto; [apply Hall; now left|].
    destruct (matchingTopics topTopics x); [reflexivity | simpl in Hm; lia].
Qed.

(** X16.  In the enhancement every related detail and every piece of new
    information is a segment of the recording of more than 20 code units; a
    related detail shares at least one topic with the notes and is listed
    with the number of topics it shares, a piece of new information shares
    none; and no sentence is listed both as a related detail and as new
    information. *)
Theorem related_and_new_are_disjoint (existingNotes transcription : jsstring) :
  Forall (fun r => In (relatedSentence r) (splitIntoSentences transcription)
                   /\ 20 < length (relatedSentence r)
                   /\ matchCount r
                      = length (matchingTopics (topicsOfNotes existingNotes)
                                               (relatedSentence r))
                   /\ 1 <= matchCount r)
         (fst (classification existingNotes transcription))
  /\ Forall (fun s => In s (splitIntoSentences transcription) /\ 20 < length s
                      /\ matchingTopics (topicsOfNotes existingNotes) s = [])
            (snd (classification existingNotes transcription))
  /\ Forall (fun s => ~ In s (newEntries existingNotes transcription))
            (relatedEntries existingNotes transcription).
Proof.
  destruct (@classify_invariant (noteLinesOf existingNotes) (topicsOfNotes existingNotes)
              (splitIntoSentences transcription) (splitIntoSentences transcription)
              ([], [])) as [Hrel Hnew]; [auto | constructor | constructor |].
  fold (classification existingNotes transcription) in Hrel, Hnew.
  split; [exact Hrel|]. split; [exact Hnew|].
  apply Forall_forall. intros s Hs Hn.
  unfold Analytics.relatedEntries in Hs. apply in_map_iff in Hs as [r [<- Hr]].
  apply In_firstn in Hr.
  apply (Permutation_in _ (Array_sort_Permutation byMatchCount _)) in Hr.
  unfold Analytics.newEntries in Hn. apply In_firstn in Hn.
  rewrite Forall_forall in Hrel, Hnew.
  destruct (Hrel _ Hr) as [_ [_ [Hc H1]]]. destruct (Hnew _ Hn) as [_ [_ H0]].
  rewrite H0 in Hc. simpl in Hc. lia.
Qed.

Lemma increment_keys w (m : WordCounts) k :
  In k (List.map fst (increment w m)) -> k = w \/ In k (List.map fst m).
Proof.
  induction m as [|[w' n] r IH]; simpl; [intros [<-|[]]; now left|].
  destruct (str_eqb w w'); simpl; [tauto|].
  intros [<-|H]; [right; now left|]. destruct (IH H); [now left | right; now right].
Qed.

Lemma noteTopics_keys (noteLines : list jsstring) k :
  In k (List.map fst (noteTopicsOf noteLines)) ->
  3 < length k /\ exists line, In line noteLines /\ In k (getContentWords line).
Proof.
  unfold Analytics.noteTopicsOf.
  assert (G : forall (lines : list jsstring) (m : WordCounts),
             (forall line, In line lines -> In line noteLines) ->
             (forall k, In k (List.map fst m) ->
                        3 < length k
                        /\ exists line, In line noteLines /\ In k (getContentWords line)) ->
             forall k,
               In k (List.map fst
                       (fold_left
                          (fun noteTopics line =>
                             fold_left
                               (fun noteTopics word =>
                                  if 3 <? length word then increment word noteTopics
                                  else noteTopics)
                               (getContentWords line) noteTopics)
                          lines m)) ->
               3 < length k
               /\ exists line, In line noteLines /\ In k (getContentWords line)).
  { induction lines as [|line r IH]; intros m Hsub Hm; [exact Hm|].
    simpl. apply IH; [intros l Hl; apply Hsub; now right|].
    assert (W : forall (words : list jsstring) (m' : WordCounts),
               (forall w, In w words -> In w (getContentWords line)) ->
               (forall k, In k (List.map fst m') ->
                          3 < length k
                          /\ exists line, In line noteLines /\ In k (getContentWords line)) ->
               forall k,
                 In k (List.map fst
                         (fold_left
                            (fun noteTopics word =>
                               if 3 <? length word then increment word noteTopics
                               else noteTopics)
                            words m')) ->
                 3 < length k
                 /\ exists line, In line noteLines /\ In k (getContentWords line)).
    { induction words as [|w ws IHw]; intros m' Hw Hm'; [exact Hm'|].
      simpl. apply IHw; [intros w' Hw'; apply Hw; now right|].
      intros k' Hk'. destruct (3 <? length w) eqn:E; [|now apply Hm'].
      apply increment_keys in Hk' as [->|Hk']; [|now apply Hm'].
      apply Nat.ltb_lt in E. split; [assumption|].
      exists line. split; [apply Hsub; now left | apply Hw; now left]. }
    apply W; auto. }
  apply G; [auto | intros k' []].
Qed.

Lemma Set_of_shorter l : length (Set_of l) <= length l.
Proof.
  apply NoDup_incl_length; [apply Set_of_NoDup|]. intros x. apply Set_of_In.
Qed.

(** X17.  The topics of the notes are at most 20 distinct words, each of
    more than 3 code units and each a content word of a line of the notes. *)
Theorem top_topics_come_from_notes (existingNotes : jsstring) :
  length (topicsOfNotes existingNotes) <= 20
  /\ NoDup (topicsOfNotes existingNotes)
  /\ Forall (fun topic =>
               3 < length topic
               /\ exists line, In line (noteLinesOf existingNotes)
                               /\ In topic (getContentWords line))
            (topicsOfNotes existingNotes).
Proof.
  unfold EnhanceNotions.topicsOfNotes, topTopicsOf. split; [|split].
  - etransitivity; [apply Set_of_shorter|]. rewrite length_map. apply firstn_le_length.
  - apply Set_of_NoDup.
  - apply Forall_forall. intros k Hk. apply (proj1 (Set_of_In _ _)) in Hk.
    apply (noteTopics_keys (noteLinesOf existingNotes)).
    apply in_map_iff in Hk as [[w n] [<- Hin]]. apply In_firstn in Hin.
    apply (Permutation_in _ (Array_sort_Permutation byCount _)) in Hin.
    now apply (in_map fst) in Hin.
Qed.

End Enhancement.

(** Reading lines back. *)
Lemma split_line line : forall cur,
  ~ In 10%N line ->
  (forall rest, split_lit_from nl 0 cur (line ++ 10%N :: rest)
                = (rev cur ++ line) :: split_lit_from nl 0 [] rest)
  /\ split_lit_from nl 0 cur line = [rev cur ++ line].
Proof.
  induction line as [|c r IH]; intros cur Hno.
  - split; [|simpl; now rewrite app_nil_r].
    intros rest. rewrite app_nil_r. cbn [app split_lit_from startsWith nl].
    assert (E : startsWith rest [] = true) by now destruct rest.
    rewrite E. reflexivity.
  - assert (Hc : (10 =? c)%N = false).
    { apply N.eqb_neq. intros E. apply Hno. now left. }
    destruct (IH (c :: cur)) as [H1 H2]; [intros H; apply Hno; now right|].
    split.
    + intros rest. cbn [app split_lit_from startsWith nl]. rewrite Hc. cbn [andb].
      cbv iota. rewrite H1. simpl. now rewrite <- app_assoc.
    + cbn [split_lit_from startsWith nl]. rewrite Hc. cbn [andb]. cbv iota.
      rewrite H2. simpl. now rewrite <- app_assoc.
Qed.

Lemma split_lines lines :
  lines <> [] -> Forall (fun l => ~ In 10%N l) lines ->
  split_lit nl (join nl lines) = lines.
Proof.
  induction lines as [|l r IH]; [congruence|]. intros _ H.
  inversion H as [|? ? Hl Hr]; subst. unfold split_lit in *.
  destruct r as [|l2 r'].
  - simpl. destruct (@split_line l [] Hl) as [_ E]. exact E.
  - rewrite join_cons. unfold nl at 2. cbn [app].
    destruct (@split_line l [] Hl) as [E _]. rewrite E. simpl rev. cbn [app].
    f_equal. apply IH; [discriminate | assumption].
Qed.

(** X18.  Notes written as plain lines joined by line feeds are read back
    as exactly those lines: [noteLinesOf] undoes the joining, whatever the
    number of lines. *)
Theorem note_lines_read_back (lines : list jsstring) :
  Forall EnhanceNotions.plainLine lines ->
  noteLinesOf (join nl lines) = lines.
Proof.
  intros H. destruct lines as [|l r]; [reflexivity|].
  unfold noteLinesOf. rewrite split_lines; [|discriminate|].
  - clear -H. induction H as [|x xs [Hne [Ht _]] Hxs IH]; [reflexivity|].
    simpl. rewrite Ht. destruct x; [congruence|]. simpl. f_equal. exact IH.
  - eapply Forall_impl; [|exact H]. now intros x [_ [_ Hx]].
Qed.

Lemma note_lines_read_back_witness :
  noteLinesOf (join nl [lit "call anna"; lit "- buy milk"; lit "3. send the report"])
  = [lit "call anna"; lit "- buy milk"; lit "3. send the report"].
Proof.
  apply (@note_lines_read_back [lit "call anna"; lit "- buy milk"; lit "3. send the report"]).
  repeat constructor; try (intros H; discriminate H);
    vm_compute; intros H; repeat (destruct H as [H|H]; [discriminate H|]); exact H.
Defined.

End AnalyticsMore.

(** ** The analytics of the revision with a running transcript *)

Module LiveAnalyticsProps.
Import Analytics JSFacts AnalyticsProps AnalyticsMore LiveAnalytics.

(** *** Words and segments *)

Lemma solid_trimmed w : solid w -> w <> [] /\ trimmed w.
Proof.
  intros [Hne Hw]. split; [assumption|].
  rewrite forallb_forall in Hw.
  assert (H : forall l, (forall c, In c l -> In c w) -> clean_start l).
  { intros [|c r] Hl; simpl; [exact I|].
    apply negb_true_iff, Hw, Hl. now left. }
  split; apply H; [auto|]. intros c Hc. now apply in_rev.
Qed.

Lemma split_ws_solid s : s <> [] -> trimmed s -> Forall solid (split_ws s).
Proof.
  intros Hne Ht.
  pose proof (split_ws_words Hne Ht) as H1.
  assert (H2 : Forall (fun w => forallb (fun c => negb (is_ws c)) w = true) (split_ws s)).
  { apply split_ws_pieces. apply Forall_forall. intros c _ Hc. now rewrite Hc. }
  rewrite Forall_forall in *. intros w Hw. split; auto.
Qed.

Lemma In_skipn A (l : list A) k x : In x (skipn k l) -> In x l.
Proof.
  intros H. rewrite <- (firstn_skipn k l). apply in_or_app. now right.
Qed.

(** Every segment is a string that is not empty and has no white space at
    its ends. *)
Lemma segmentsBy_trimmed minLength enough chunkSize clean :
  clean <> [] -> trimmed clean ->
  Forall (fun s => s <> [] /\ trimmed s)
         (segmentsBy minLength enough chunkSize clean (split_ws clean)).
Proof.
  intros Hne Ht. unfold segmentsBy. cbv zeta.
  assert (Hlen : forall x : jsstring, (minLength <? length x) = true -> x <> []).
  { intros x Hx E. subst x. apply Nat.ltb_lt in Hx. simpl in Hx. lia. }
  destruct (enough <=? _); apply Forall_forall; intros x Hx;
    apply filter_In in Hx as [Hx Hl]; (split; [now apply Hlen|]).
  - apply in_map_iff in Hx as [y [<- _]]. apply trim_trimmed.
  - unfold chunks in Hx. apply in_map_iff in Hx as [j [<- _]].
    set (ts := firstn chunkSize (skipn (chunkSize * j) (split_ws clean))) in *.
    apply join_trimmed.
    + intros E. rewrite E in Hl. simpl in Hl. apply Nat.ltb_lt in Hl. lia.
    + pose proof (split_ws_solid Hne Ht) as Hs. rewrite Forall_forall in Hs.
      apply Forall_forall. intros t Hin. apply solid_trimmed, Hs.
      unfold ts in Hin. apply In_firstn, In_skipn in Hin. exact Hin.
Qed.

(** *** Counting the words of a text that is put together from words *)

Lemma split_ws_from_prefix w : forall cur s,
  forallb (fun c => negb (is_ws c)) w = true ->
  split_ws_from cur false (w ++ s) = split_ws_from (rev w ++ cur) false s.
Proof.
  induction w as [|c r IH]; intros cur s H; [reflexivity|].
  simpl in H. apply andb_true_iff in H as [Hc Hr]. apply negb_true_iff in Hc.
  cbn [app split_ws_from]. rewrite Hc, IH by assumption.
  simpl. now rewrite <- app_assoc.
Qed.

Lemma split_ws_from_start c r cur :
  is_ws c = false ->
  split_ws_from cur true (c :: r) = split_ws_from cur false (c :: r).
Proof. intros H. simpl. now rewrite H. Qed.

Lemma joined_words_count ws : forall p cur,
  Forall solid ws ->
  forallb (fun c => negb (is_ws c)) p = true ->
  length (split_ws_from cur false (join (lit " ") ws ++ p)) = Nat.max 1 (length ws).
Proof.
  induction ws as [|w rest IH]; intros p cur Hws Hp.
  - simpl join. cbn [app]. rewrite <- (app_nil_r p), split_ws_from_prefix by assumption.
    reflexivity.
  - inversion Hws as [|? ? [Hne Hw] Hrest]; subst.
    destruct rest as [|w2 rest'].
    + simpl join. rewrite <- (app_nil_r (w ++ p)), split_ws_from_prefix; [reflexivity|].
      now rewrite forallb_app, Hw, Hp.
    + rewrite join_cons, <- !app_assoc, split_ws_from_prefix by assumption.
      change (lit " ") with [32%N] at 1. cbn [app].
      change (split_ws_from (rev w ++ cur) false (32%N :: join (lit " ") (w2 :: rest') ++ p))
        with (rev (rev w ++ cur)
                :: split_ws_from [] true (join (lit " ") (w2 :: rest') ++ p)).
      cbn [length].
      assert (E : split_ws_from [] true (join (lit " ") (w2 :: rest') ++ p)
                  = split_ws_from [] false (join (lit " ") (w2 :: rest') ++ p)).
      { inversion Hrest as [|? ? [Hne2 Hw2] _]; subst.
        destruct w2 as [|c w2']; [congruence|].
        simpl in Hw2. apply andb_true_iff in Hw2 as [Hc _]. apply negb_true_iff in Hc.
        destruct rest'; cbn [join app]; now apply split_ws_from_start. }
      rewrite E, IH by assumption. cbn [length]. lia.
Qed.

Lemma joined_words_length ws p :
  Forall solid ws ->
  forallb (fun c => negb (is_ws c)) p = true ->
  length (split_ws (join (lit " ") ws ++ p)) = Nat.max 1 (length ws).
Proof. apply joined_words_count. Qed.

Lemma joined_words ws : forall w cur,
  Forall solid (w :: ws) ->
  split_ws_from cur false (join (lit " ") (w :: ws)) = (rev cur ++ w) :: ws.
Proof.
  induction ws as [|w2 rest IH]; intros w cur H;
    inversion H as [|? ? [Hne Hw] Hrest]; subst.
  - simpl join. rewrite <- (app_nil_r w) at 1. rewrite split_ws_from_prefix by assumption.
    simpl. now rewrite rev_app_distr, rev_involutive.
  - rewrite join_cons, split_ws_from_prefix by assumption.
    change (lit " ") with [32%N]. cbn [app].
    change (split_ws_from (rev w ++ cur) false (32%N :: join [32%N] (w2 :: rest)))
      with (rev (rev w ++ cur) :: split_ws_from [] true (join (lit " ") (w2 :: rest))).
    rewrite rev_app_distr, rev_involutive. f_equal.
    assert (E : split_ws_from [] true (join (lit " ") (w2 :: rest))
                = split_ws_from [] false (join (lit " ") (w2 :: rest))).
    { inversion Hrest as [|? ? [Hne2 Hw2] _]; subst.
      destruct w2 as [|c w2']; [congruence|].
      simpl in Hw2. apply andb_true_iff in Hw2 as [Hc _]. apply negb_true_iff in Hc.
      destruct rest; cbn [join app]; now apply split_ws_from_start. }
    rewrite E. now apply (IH w2 []).
Qed.

Lemma split_ws_join ws :
  ws <> [] -> Forall solid ws -> split_ws (join (lit " ") ws) = ws.
Proof.
  destruct ws as [|w rest]; [congruence|]. intros _ H.
  unfold split_ws. now rewrite joined_words.
Qed.

Lemma firstn_add A (l : list A) : forall a b,
  firstn (a + b) l = firstn a l ++ firstn b (skipn a l).
Proof.
  induction l as [|x r IH]; intros a b.
  - now rewrite !firstn_nil, skipn_nil, firstn_nil.
  - destruct a; [reflexivity|]. simpl. now rewrite IH.
Qed.

Lemma slices_concat A (l : list A) size n :
  concat (List.map (fun j => firstn size (skipn (size * j) l)) (seq 0 n))
  = firstn (size * n) l.
Proof.
  induction n as [|n IH]; [now rewrite Nat.mul_0_r|].
  rewrite seq_S, map_app, concat_app, IH. cbn [List.map concat Nat.add].
  rewrite app_nil_r, Nat.mul_succ_r. symmetry. apply firstn_add.
Qed.

Lemma join_length_solid ws :
  Forall solid ws -> 2 * length ws <= length (join (lit " ") ws) + 1.
Proof.
  induction ws as [|w rest IH]; intros H; [simpl; lia|].
  inversion H as [|? ? [Hne _] Hrest]; subst.
  assert (Hw : 1 <= length w) by (destruct w; [congruence | simpl; lia]).
  destruct rest as [|w2 rest']; [simpl; lia|].
  rewrite join_cons, !length_app. specialize (IH Hrest).
  cbn [length] in *. change (length (lit " ")) with 1. lia.
Qed.

(** Of the chunks of a text only the last one can be too short to be
    pushed, and only when it has fewer words than a full chunk. *)
Lemma pushed_chunks_keep_words minLength chunkSize words :
  0 < chunkSize -> minLength < 2 * chunkSize - 1 -> Forall solid words ->
  SegmentTiers.keepsWords chunkSize minLength words
    (List.filter (fun chunk => minLength <? length chunk) (chunks chunkSize words)).
Proof.
  intros Hsize Hmin Hsolid.
  set (slice := fun j => firstn chunkSize (skipn (chunkSize * j) words)).
  set (n := (length words + (chunkSize - 1)) / chunkSize).
  assert (Hchunks : chunks chunkSize words
                    = List.map (fun j => join (lit " ") (slice j)) (seq 0 n)) by reflexivity.
  assert (Hn : forall j, j < n -> chunkSize * j < length words).
  { intros j Hj.
    pose proof (Nat.Div0.mul_div_le (length words + (chunkSize - 1)) chunkSize) as Hd.
    fold n in Hd.
    assert (Hj' : chunkSize * S j <= chunkSize * n) by (apply Nat.mul_le_mono_l; lia).
    rewrite Nat.mul_succ_r in Hj'. lia. }
  assert (Hcover : length words <= chunkSize * n).
  { unfold n.
    pose proof (Nat.div_mod_eq (length words + (chunkSize - 1)) chunkSize).
    pose proof (Nat.mod_upper_bound (length words + (chunkSize - 1)) chunkSize).
    nia. }
  assert (Hslice : forall j, Forall solid (slice j)).
  { intros j. rewrite Forall_forall in *. intros w Hw. apply Hsolid.
    unfold slice in Hw. now apply In_firstn, In_skipn in Hw. }
  assert (Hlen : forall j, length (slice j) = Nat.min chunkSize (length words - chunkSize * j)).
  { intros j. unfold slice. now rewrite length_firstn, length_skipn. }
  assert (Hpiece : forall j, j < n -> split_ws (join (lit " ") (slice j)) = slice j).
  { intros j Hj. apply split_ws_join; [|apply Hslice].
    specialize (Hn j Hj). intros E. apply (f_equal (@length jsstring)) in E.
    rewrite Hlen in E. simpl in E. lia. }
  assert (Hpieces : forall m, m <= n ->
            concat (List.map split_ws
                      (List.map (fun j => join (lit " ") (slice j)) (seq 0 m)))
            = firstn (chunkSize * m) words).
  { intros m Hm. rewrite map_map.
    rewrite (map_ext_in _ slice)
      by (intros j Hj; apply Hpiece; apply in_seq in Hj; lia).
    apply slices_concat. }
  split.
  - rewrite Hchunks. apply Forall_forall. intros chunk Hc.
    apply filter_In in Hc as [Hc _]. apply in_map_iff in Hc as [j [<- Hj]].
    apply in_seq in Hj. rewrite Hpiece by lia. rewrite Hlen.
    assert (chunkSize * j < length words) by (apply Hn; lia). lia.
  - rewrite Hchunks. destruct n as [|m] eqn:En.
    + exists []. cbn [seq List.map List.filter concat app length join].
      assert (length words = 0) by lia.
      split; [now apply length_zero_iff_nil | split; lia].
    + rewrite seq_S, map_app, filter_app. cbn [Nat.add List.map List.filter].
      assert (Hfull : forall l, l = seq 0 m ->
                List.filter (fun chunk : jsstring => minLength <? length chunk)
                  (List.map (fun j => join (lit " ") (slice j)) l)
                = List.map (fun j => join (lit " ") (slice j)) l).
      { intros l ->. apply forallb_filter_id, forallb_forall. intros chunk Hc.
        apply in_map_iff in Hc as [j [<- Hj]]. apply in_seq in Hj.
        apply Nat.ltb_lt.
        pose proof (join_length_solid (Hslice j)) as Hj2. rewrite Hlen in Hj2.
        assert (chunkSize * m < length words) by (apply Hn; lia).
        assert (chunkSize * S j <= chunkSize * m) by (apply Nat.mul_le_mono_l; lia).
        rewrite Nat.mul_succ_r in *. lia. }
      rewrite Hfull by reflexivity.
      destruct (Nat.ltb_spec minLength (length (join (lit " ") (slice m)))) as [Hp|Hp].
      * exists []. rewrite app_nil_r, map_app, concat_app, Hpieces by lia.
        cbn [List.map concat]. rewrite app_nil_r, Hpiece by lia.
        split; [|split; [assumption | simpl; lia]].
        unfold slice. rewrite <- firstn_add. symmetry. apply firstn_all2.
        rewrite Nat.mul_succ_r in Hcover. lia.
      * exists (skipn (chunkSize * m) words). rewrite app_nil_r, Hpieces by lia.
        assert (Hshort : length words - chunkSize * m < chunkSize).
        { pose proof (join_length_solid (Hslice m)) as Hj2. rewrite Hlen in Hj2. lia. }
        assert (Elost : slice m = skipn (chunkSize * m) words).
        { unfold slice. apply firstn_all2. rewrite length_skipn. lia. }
        split; [symmetry; apply firstn_skipn|].
        split; [now rewrite length_skipn|]. now rewrite <- Elost.
Qed.

Lemma segmentsBy_tiers minLength enough chunkSize cleanText words :
  segmentsBy minLength enough chunkSize cleanText words
  = if enough <=? length (SegmentTiers.punctuated minLength cleanText)
    then SegmentTiers.punctuated minLength cleanText
    else List.filter (fun chunk => minLength <? length chunk) (chunks chunkSize words).
Proof. reflexivity. Qed.

Lemma splitIntoSentences_tiers text :
  splitIntoSentences text
  = if (length (if (length (SegmentTiers.byPunctuation text) <? 3) && (100 <? length text)
                then SegmentTiers.byPauses text
                else SegmentTiers.byPunctuation text) <? 3)
       && (100 <? length text)
    then List.filter (fun chunk => 15 <? length chunk) (chunks 15 (split_ws text))
    else if (length (SegmentTiers.byPunctuation text) <? 3) && (100 <? length text)
         then SegmentTiers.byPauses text
         else SegmentTiers.byPunctuation text.
Proof. reflexivity. Qed.

(** X19.  Where the segments are chunks of words, they keep the words of
    the text, in order, but for a short tail: only the last chunk can fail
    the test of its length, and only when it has fewer words than a full
    chunk.  So it is for the chunks of 20 words of [generateSummary], those
    of 25 words of [enhanceNotes] and those of 15 words of
    [splitIntoSentences], each where the tiers before it gave fewer segments
    than they have to. *)
Theorem chunk_tier_keeps_all_but_a_short_tail (text : jsstring) :
  trim text <> [] ->
  (length (SegmentTiers.punctuated 15 (trim text)) < 3 ->
   SegmentTiers.keepsWords 20 15 (split_ws (trim text)) (summarySegments text))
  /\ (length (SegmentTiers.punctuated 10 (trim text)) < 2 ->
      SegmentTiers.keepsWords 25 10 (split_ws (trim text)) (transcriptionSegmentsOf text))
  /\ (100 < length (trim text) ->
      length (SegmentTiers.byPunctuation (trim text)) < 3 ->
      length (SegmentTiers.byPauses (trim text)) < 3 ->
      SegmentTiers.keepsWords 15 15 (split_ws (trim text))
        (splitIntoSentences (trim text))).
Proof.
  intros Hne.
  pose proof (split_ws_solid Hne (trim_trimmed text)) as Hsolid.
  split; [|split].
  - intros H. unfold summarySegments. rewrite segmentsBy_tiers.
    apply Nat.leb_gt in H. rewrite H.
    apply pushed_chunks_keep_words; [lia | lia | assumption].
  - intros H. unfold transcriptionSegmentsOf. cbv zeta. rewrite segmentsBy_tiers.
    apply Nat.leb_gt in H. rewrite H.
    apply pushed_chunks_keep_words; [lia | lia | assumption].
  - intros H100 H1 H2. rewrite splitIntoSentences_tiers.
    apply Nat.ltb_lt in H100, H1, H2. rewrite H1, H100. cbn [andb].
    rewrite H2. cbn [andb].
    apply pushed_chunks_keep_words; [lia | lia | assumption].
Qed.

(** The loop never collects more words than the target, and what it
    collects are words of the segments. *)
Lemma summaryWordsOf_bound target source : forall summaryWords,
  length summaryWords <= Z.to_nat target ->
  length (summaryWordsOf target source summaryWords) <= Z.to_nat target.
Proof.
  induction source as [|segment rest IH]; intros sw H; [exact H|].
  cbn [summaryWordsOf]. cbv zeta.
  destruct (Z.leb_spec (Z.of_nat (length sw + length (split_ws segment))) target) as [E|E].
  - apply IH. rewrite length_app. lia.
  - destruct (Z.ltb_spec 5 (target - Z.of_nat (length sw))) as [E5|E5]; [|exact H].
    rewrite length_app, length_firstn. lia.
Qed.

Lemma summaryWordsOf_solid target source : forall summaryWords,
  Forall solid summaryWords ->
  Forall (fun segment => Forall solid (split_ws segment)) source ->
  Forall solid (summaryWordsOf target source summaryWords).
Proof.
  induction source as [|segment rest IH]; intros sw Hsw Hsrc; [exact Hsw|].
  inversion Hsrc as [|? ? Hseg Hrest]; subst.
  cbn [summaryWordsOf]. cbv zeta.
  destruct (_ <=? _)%Z.
  - apply IH; [|assumption]. apply Forall_app. now split.
  - destruct (_ <? _)%Z; [|assumption].
    apply Forall_app. split; [assumption|].
    rewrite Forall_forall in *. intros w Hw. apply Hseg. now apply In_firstn in Hw.
Qed.

Lemma summaryOf_count target source words :
  Forall (fun segment => Forall solid (split_ws segment)) source ->
  Forall solid words ->
  length (split_ws (summaryOf target source words)) <= Nat.max 1 (Z.to_nat target).
Proof.
  intros Hsrc Hwords. unfold summaryOf. cbv zeta.
  assert (Hdot : forall ws p, Forall solid ws -> length ws <= Z.to_nat target ->
                   forallb (fun c => negb (is_ws c)) p = true ->
                   length (split_ws (join (lit " ") ws ++ p)) <= Nat.max 1 (Z.to_nat target)).
  { intros ws p H1 H2 H3. rewrite joined_words_length by assumption. lia. }
  destruct (0 <? length source).
  - set (sw := summaryWordsOf target source []).
    assert (H1 : Forall solid sw) by (apply summaryWordsOf_solid; [constructor | assumption]).
    assert (H2 : length sw <= Z.to_nat target)
      by (apply summaryWordsOf_bound; simpl; lia).
    destruct (_ && _); [now apply Hdot|].
    rewrite <- (app_nil_r (join _ _)). now apply Hdot.
  - set (fw := firstn _ words).
    assert (H1 : Forall solid fw).
    { rewrite Forall_forall in *. intros w Hw. apply Hwords. now apply In_firstn in Hw. }
    assert (H2 : length fw <= Z.to_nat target).
    { unfold fw. rewrite length_firstn. lia. }
    destruct (negb _); [now apply Hdot|].
    rewrite <- (app_nil_r (join _ _)). now apply Hdot.
Qed.

Section Host.
Variable toLowerCase : jsstring -> jsstring.

Local Abbreviation generateSummary := (generateSummary toLowerCase).
Local Abbreviation keyPointsOf := (keyPointsOf toLowerCase).
Local Abbreviation isAction := (isAction toLowerCase).
Local Abbreviation isDuplicate := (isDuplicate toLowerCase).
Local Abbreviation matchingTopics := (matchingTopics toLowerCase).
Local Abbreviation existingTopicsOf := (existingTopicsOf toLowerCase).
Local Abbreviation relate := (relate toLowerCase).
Local Abbreviation supplement := (supplement toLowerCase).
Local Abbreviation related := (related toLowerCase).
Local Abbreviation newInformationOf := (newInformationOf toLowerCase).
Local Abbreviation additionalInfoOf := (additionalInfoOf toLowerCase).

Lemma generateSummary_of_text text :
  trim text <> [] ->
  generateSummary text
  = let segments := summarySegments text in
    let words := split_ws (trim text) in
    let keyPoints := keyPointsOf segments in
    let summary :=
      summaryOf (targetSummaryLength (length words))
                (Set_of (topicSentencesOf segments ++ firstn 3 keyPoints)) words in
    mkSummary (firstn 5 (Set_of keyPoints)) summary
              (firstn 5 (Set_of (List.filter isAction segments)))
              (Some (length words)) (Some (length segments))
              (Some (PrimFloat.div (Number_of_nat (length (split_ws summary)))
                                   (Number_of_nat (length words)))).
Proof.
  intros H. unfold LiveAnalytics.generateSummary.
  rewrite (not_blank_truthy _ H).
  assert (E : (length (trim text) =? 0) = false).
  { apply Nat.eqb_neq. intros E. now apply length_zero_iff_nil in E. }
  rewrite E. reflexivity.
Qed.

Lemma keyPointsOf_segments segments :
  Forall (fun k => In k segments) (keyPointsOf segments).
Proof.
  unfold LiveAnalytics.keyPointsOf. cbv zeta.
  destruct (_ && _) eqn:E.
  - apply andb_true_iff in E as [_ E]. apply Nat.ltb_lt in E.
    apply Forall_app. split; [constructor; [apply nth_In; lia | constructor]|].
    apply Forall_app. split.
    + destruct (2 <? length segments); constructor; [|constructor].
      apply nth_In. apply Nat.div_lt; lia.
    + destruct (1 <? length segments); constructor; [|constructor].
      apply nth_In. lia.
  - apply Forall_forall. intros k Hk. now apply filter_In in Hk.
Qed.

Lemma keyPointsOf_nil segments : keyPointsOf segments = [] <-> segments = [].
Proof.
  split; [|now intros ->].
  unfold LiveAnalytics.keyPointsOf. cbv zeta. intros H.
  destruct segments as [|s r]; [reflexivity|].
  destruct (List.filter _ (s :: r)) eqn:E; simpl in H; discriminate.
Qed.

(** X20.  The summarizer of the second revision returns at most 5 key
    points and at most 5 action items, none of them twice.  For a text that
    is not blank they are segments of the text, the action items contain an
    action keyword, and there is a key point whenever there is a segment:
    with no important segment the first, the middle and the last one stand
    in. *)
Theorem live_key_points_and_actions (text : jsstring) :
  length (keyPoints (generateSummary text)) <= 5
  /\ NoDup (keyPoints (generateSummary text))
  /\ length (actionItems (generateSummary text)) <= 5
  /\ NoDup (actionItems (generateSummary text))
  /\ (trim text <> [] ->
      Forall (fun k => In k (summarySegments text)) (keyPoints (generateSummary text))
      /\ Forall (fun a => In a (summarySegments text) /\ isAction a = true)
                (actionItems (generateSummary text))
      /\ (keyPoints (generateSummary text) = [] <-> summarySegments text = [])
      /\ sentenceCount (generateSummary text) = Some (length (summarySegments text))).
Proof.
  destruct (list_eq_dec N.eq_dec (trim text) []) as [E|E].
  - assert (Hb : generateSummary text = mkSummary [] [] [] None None None).
    { unfold LiveAnalytics.generateSummary. rewrite E. simpl. now rewrite orb_true_r. }
    rewrite Hb. simpl. repeat split; try lia; try constructor; congruence.
  - rewrite (generateSummary_of_text _ E). cbv zeta. cbn [keyPoints actionItems sentenceCount].
    split; [apply firstn_le_length|].
    split; [apply NoDup_firstn, Set_of_NoDup|].
    split; [apply firstn_le_length|].
    split; [apply NoDup_firstn, Set_of_NoDup|].
    intros _. split; [|split; [|split; [|reflexivity]]].
    + apply Forall_forall. intros k Hk. apply In_firstn in Hk.
      apply (proj1 (Set_of_In _ _)) in Hk.
      pose proof (keyPointsOf_segments (summarySegments text)) as H.
      rewrite Forall_forall in H. now apply H.
    + apply Forall_forall. intros a Ha. apply In_firstn in Ha.
      apply (proj1 (Set_of_In _ _)) in Ha. now apply filter_In in Ha.
    + split.
      * intros H. apply keyPointsOf_nil, Set_of_nil_iff.
        destruct (Set_of (keyPointsOf (summarySegments text))); [reflexivity | discriminate].
      * intros Hs. rewrite Hs. reflexivity.
Qed.

(** X21.  The summary of a text that is not blank counts at most as many
    words as the target, [Math.min(150, Math.floor(wordCount * 0.3))], or one
    word where the target is 0; so it never has more than 150 words.  This is
    the numerator of the compression ratio. *)
Theorem live_summary_within_budget (text : jsstring) :
  trim text <> [] ->
  length (split_ws (summary (generateSummary text)))
  <= Nat.max 1 (Z.to_nat (targetSummaryLength (length (split_ws (trim text)))))
  /\ length (split_ws (summary (generateSummary text))) <= 150.
Proof.
  intros E. rewrite (generateSummary_of_text _ E). cbv zeta. cbn [summary].
  assert (Ht : trimmed (trim text)) by apply trim_trimmed.
  assert (H : length (split_ws
                        (summaryOf (targetSummaryLength (length (split_ws (trim text))))
                           (Set_of (topicSentencesOf (summarySegments text)
                                    ++ firstn 3 (keyPointsOf (summarySegments text))))
                           (split_ws (trim text))))
              <= Nat.max 1 (Z.to_nat (targetSummaryLength (length (split_ws (trim text)))))).
  { apply summaryOf_count; [|now apply split_ws_solid].
    pose proof (segmentsBy_trimmed 15 3 20 E Ht) as Hseg.
    fold (summarySegments text) in Hseg. rewrite Forall_forall in Hseg.
    apply Forall_forall. intros s Hs. apply (proj1 (Set_of_In _ _)) in Hs.
    assert (Hin : In s (summarySegments text)).
    { apply in_app_or in Hs as [Hs|Hs].
      - unfold topicSentencesOf in Hs. destruct (summarySegments text) as [|s0 r]; [contradiction|].
        destruct (20 <? length s0); [|contradiction].
        destruct Hs as [<-|[]]. now left.
      - apply In_firstn in Hs.
        pose proof (keyPointsOf_segments (summarySegments text)) as Hk.
        rewrite Forall_forall in Hk. now apply Hk. }
    destruct (Hseg _ Hin) as [Hne Htr]. now apply split_ws_solid. }
  split; [exact H|].
  etransitivity; [exact H|]. unfold targetSummaryLength. lia.
Qed.

(** *** The enhancement *)

Lemma relate_invariant existingTopics existingLines (all : list jsstring) segments :
  forall acc,
  (forall s, In s segments -> In s all) ->
  snd acc = fst acc -> NoDup (fst acc) ->
  Forall (fun s => In s all /\ 1 <= length (matchingTopics existingTopics s)
                   /\ isDuplicate 0.5%float existingLines s = false) (fst acc) ->
  let acc' := fold_left (relate existingTopics existingLines) segments acc in
  snd acc' = fst acc' /\ NoDup (fst acc')
  /\ Forall (fun s => In s all /\ 1 <= length (matchingTopics existingTopics s)
                      /\ isDuplicate 0.5%float existingLines s = false) (fst acc').
Proof.
  induction segments as [|x r IH]; intros acc Hall Hu Hnd Hq; [now repeat split|].
  cbn [fold_left]. apply IH; [intros s Hs; apply Hall; now right | | |];
    unfold LiveAnalytics.relate;
    destruct (Nat.leb_spec 1 (length (matchingTopics existingTopics x))) as [Hm|Hm];
    try assumption;
    destruct (isDuplicate 0.5%float existingLines x) eqn:Ed; cbn [negb andb];
    try assumption;
    destruct (Set_has x (snd acc)) eqn:Eh; cbn [negb fst snd]; try assumption.
  - unfold Set_add. now rewrite Eh, Hu.
  - rewrite Hu in Eh. pose proof (Set_add_NoDup x Hnd) as H.
    unfold Set_add in H. now rewrite Eh in H.
  - apply Forall_app. split; [assumption|]. constructor; [|constructor].
    repeat split; auto. apply Hall. now left.
Qed.

Lemma supplement_invariant existingLines (all new : list jsstring) segments :
  forall acc,
  (forall s, In s segments -> In s all) ->
  snd acc = new ++ fst acc -> NoDup (snd acc) ->
  Forall (fun s => In s all
                   /\ isDuplicate 0x1.999999999999ap-2%float existingLines s = false)
         (fst acc) ->
  let acc' := fold_left (supplement existingLines) segments acc in
  snd acc' = new ++ fst acc' /\ NoDup (snd acc')
  /\ Forall (fun s => In s all
                      /\ isDuplicate 0x1.999999999999ap-2%float existingLines s = false)
            (fst acc')
  /\ (forall s, In s (snd acc) -> In s (snd acc'))
  /\ Forall (fun s => In s (snd acc')
                      \/ isDuplicate 0x1.999999999999ap-2%float existingLines s = true)
            segments.
Proof.
  induction segments as [|x r IH]; intros acc Hall Hu Hnd Hq.
  - cbn [fold_left]. repeat split; auto.
  - cbn [fold_left].
    set (acc1 := supplement existingLines acc x).
    assert (H1 : snd acc1 = new ++ fst acc1 /\ NoDup (snd acc1)
                 /\ Forall (fun s => In s all
                                     /\ isDuplicate 0x1.999999999999ap-2%float
                                          existingLines s = false) (fst acc1)
                 /\ (forall s, In s (snd acc) -> In s (snd acc1))
                 /\ (In x (snd acc1)
                     \/ isDuplicate 0x1.999999999999ap-2%float existingLines x = true)).
    { unfold acc1, LiveAnalytics.supplement.
      destruct (Set_has x (snd acc)) eqn:Eh; cbn [negb].
      - repeat split; auto. left. now apply Set_has_In.
      - destruct (isDuplicate 0x1.999999999999ap-2%float existingLines x) eqn:Ed;
          cbn [negb fst snd]; [repeat split; auto|].
        assert (Ea : Set_add (snd acc) x = snd acc ++ [x])
          by (unfold Set_add; now rewrite Eh).
        split; [rewrite Ea, Hu; now rewrite app_assoc|].
        split; [now apply Set_add_NoDup|].
        split; [apply Forall_app; split; [assumption|];
                constructor; [|constructor]; split; [apply Hall; now left | assumption]|].
        split; [intros s Hs; apply Set_add_In; now left|].
        left. apply Set_add_In. now right. }
    destruct H1 as [Hu1 [Hnd1 [Hq1 [Hmono1 Hx]]]].
    destruct (IH acc1) as [Hu' [Hnd' [Hq' [Hmono' Hcov]]]];
      [intros s Hs; apply Hall; now right | assumption..|].
    repeat split; auto.
    constructor; [|assumption].
    destruct Hx as [Hx|Hx]; [left; now apply Hmono' | now right].
Qed.

(** X22.  In the enhancement of the second revision no segment is listed
    twice: the related details and the additional information have no
    repeats and no segment in common.  A related detail shares a topic with
    the notes and is not similar, above 0.5, to any line of the notes; a
    piece of additional information is not similar, above 0.4, to any line.
    And nothing is lost otherwise: a segment of the recording that is in
    neither list is similar, above 0.4, to a line of the notes. *)
Theorem recording_segments_listed_once (existingNotes transcription : jsstring) :
  NoDup (newInformationOf existingNotes transcription
         ++ additionalInfoOf existingNotes transcription)
  /\ Forall (fun s => In s (transcriptionSegmentsOf transcription)
                      /\ 1 <= length (matchingTopics
                                        (existingTopicsOf (noteLinesOf existingNotes)) s)
                      /\ isDuplicate 0.5%float (noteLinesOf existingNotes) s = false)
            (newInformationOf existingNotes transcription)
  /\ Forall (fun s => In s (transcriptionSegmentsOf transcription)
                      /\ isDuplicate 0x1.999999999999ap-2%float
                           (noteLinesOf existingNotes) s = false)
            (additionalInfoOf existingNotes transcription)
  /\ Forall (fun s => In s (newInformationOf existingNotes transcription)
                      \/ In s (additionalInfoOf existingNotes transcription)
                      \/ isDuplicate 0x1.999999999999ap-2%float
                           (noteLinesOf existingNotes) s = true)
            (transcriptionSegmentsOf transcription).
Proof.
  destruct (@relate_invariant (existingTopicsOf (noteLinesOf existingNotes))
              (noteLinesOf existingNotes) (transcriptionSegmentsOf transcription)
              (transcriptionSegmentsOf transcription) ([], []))
    as [Hu [Hnd Hq]]; [auto | reflexivity | constructor | constructor |].
  fold (related existingNotes transcription) in Hu, Hnd, Hq.
  destruct (@supplement_invariant (noteLinesOf existingNotes)
              (transcriptionSegmentsOf transcription)
              (newInformationOf existingNotes transcription)
              (transcriptionSegmentsOf transcription)
              ([], snd (related existingNotes transcription)))
    as [Hu' [Hnd' [Hq' [_ Hcov]]]];
    [auto
    | cbn [fst snd]; rewrite app_nil_r; exact Hu
    | cbn [snd]; rewrite Hu; exact Hnd
    | constructor |].
  fold (additionalInfoOf existingNotes transcription) in Hu', Hq'.
  rewrite Hu' in Hnd', Hcov.
  split; [exact Hnd'|]. split; [exact Hq|]. split; [exact Hq'|].
  eapply Forall_impl; [|exact Hcov]. intros s [H|H]; [|auto].
  apply in_app_or in H. tauto.
Qed.

End Host.

Lemma chunk_tier_keeps_all_but_a_short_tail_witness :
  SegmentTiers.keepsWords 20 15 (split_ws (trim LiveSamples.sixteenWords))
    (summarySegments LiveSamples.sixteenWords)
  /\ SegmentTiers.keepsWords 25 10 (split_ws (trim LiveSamples.sixteenWords))
       (transcriptionSegmentsOf LiveSamples.sixteenWords)
  /\ SegmentTiers.keepsWords 15 15 (split_ws (trim LiveSamples.sixteenWords))
       (splitIntoSentences (trim LiveSamples.sixteenWords)).
Proof.
  destruct (@chunk_tier_keeps_all_but_a_short_tail LiveSamples.sixteenWords)
    as [H1 [H2 H3]]; [vm_compute; intros H; discriminate H|].
  split; [apply H1; vm_compute; lia|].
  split; [apply H2; vm_compute; lia|].
  apply H3; vm_compute; lia.
Defined.

(** At the sample the chunks of 15 words lose the sixteenth word, and those
    of 20 words lose none. *)
Lemma sixteenWords_segments :
  splitIntoSentences (trim LiveSamples.sixteenWords)
  = [lit "alphabet bravoing charlies deltaing echoings foxtrots golfings hoteling indiaing juliette kilogram limacode mikeling november oscaring"]
  /\ summarySegments LiveSamples.sixteenWords = [LiveSamples.sixteenWords].
Proof. vm_compute. repeat split. Qed.

Lemma live_key_points_and_actions_witness :
  Forall (fun k => In k (summarySegments LiveSamples.meeting))
         (keyPoints (generateSummary toLowerCase_ascii LiveSamples.meeting))
  /\ Forall (fun a => In a (summarySegments LiveSamples.meeting)
                      /\ isAction toLowerCase_ascii a = true)
            (actionItems (generateSummary toLowerCase_ascii LiveSamples.meeting))
  /\ (keyPoints (generateSummary toLowerCase_ascii LiveSamples.meeting) = []
      <-> summarySegments LiveSamples.meeting = [])
  /\ sentenceCount (generateSummary toLowerCase_ascii LiveSamples.meeting)
     = Some (length (summarySegments LiveSamples.meeting)).
Proof.
  apply (@live_key_points_and_actions toLowerCase_ascii LiveSamples.meeting).
  vm_compute. intros H. discriminate H.
Defined.

Lemma live_summary_within_budget_witness :
  length (split_ws (summary (generateSummary toLowerCase_ascii LiveSamples.meeting)))
  <= Nat.max 1 (Z.to_nat (targetSummaryLength
                            (length (split_ws (trim LiveSamples.meeting)))))
  /\ length (split_ws (summary (generateSummary toLowerCase_ascii LiveSamples.meeting)))
     <= 150.
Proof.
  apply (@live_summary_within_budget toLowerCase_ascii LiveSamples.meeting).
  vm_compute. intros H. discriminate H.
Defined.

(** *** The similarity *)

(** X23.  The similarity of the second revision does not depend on the
    order of its arguments.  Where either text has a word of more than 2
    code units it is the double of the Jaccard similarity of the two word
    sets.  Where neither has one the quotient is 0 / 0: the similarity is
    NaN, which is above neither threshold, while the Jaccard similarity of
    the first revision is 0. *)
Theorem similarity_without_guard (text1 text2 : jsstring) :
  calculateSimilarity text1 text2 = calculateSimilarity text2 text1
  /\ (similarityWords text1 ++ similarityWords text2 <> [] ->
      calculateSimilarity text1 text2
      = Number_of_Q (jaccardSimilarity (similarityWords text1) (similarityWords text2)))
  /\ (similarityWords text1 ++ similarityWords text2 = [] ->
      calculateSimilarity text1 text2 = PrimFloat.nan
      /\ PrimFloat.ltb 0.5%float (calculateSimilarity text1 text2) = false
      /\ PrimFloat.ltb 0x1.999999999999ap-2%float (calculateSimilarity text1 text2) = false
      /\ jaccardSimilarity (similarityWords text1) (similarityWords text2) = 0%Q).
Proof.
  unfold calculateSimilarity. cbv zeta. split; [|split].
  - now rewrite (intersection_symmetric (similarityWords text1) (similarityWords text2)),
      (union_symmetric (similarityWords text1) (similarityWords text2)).
  - intros H.
    assert (Hu : length (Set_of (similarityWords text1 ++ similarityWords text2)) <> 0).
    { intros E. apply length_zero_iff_nil in E. now apply (proj1 (Set_of_nil_iff _)) in E. }
    rewrite jaccard_value by lia. unfold Number_of_Q. cbn [Qnum Qden].
    rewrite Zpos_of_nat by assumption.
    unfold Number_of_Z, Number_of_nat.
    assert (Hpos : forall n, (Z.of_nat n <? 0)%Z = false) by (intros n; apply Z.ltb_ge; lia).
    now rewrite !Hpos.
  - intros H.
    assert (E1 : similarityWords text1 = []) by now apply app_eq_nil in H.
    assert (E2 : similarityWords text2 = []) by now apply app_eq_nil in H.
    rewrite E1, E2. repeat split.
Qed.

Lemma similarity_without_guard_witness :
  calculateSimilarity (lit "call anna") (lit "anna is in")
  = Number_of_Q (jaccardSimilarity (similarityWords (lit "call anna"))
                                   (similarityWords (lit "anna is in")))
  /\ calculateSimilarity (lit "ok") (lit "so it is") = PrimFloat.nan
  /\ PrimFloat.ltb 0.5%float (calculateSimilarity (lit "ok") (lit "so it is")) = false
  /\ PrimFloat.ltb 0x1.999999999999ap-2%float
                   (calculateSimilarity (lit "ok") (lit "so it is")) = false
  /\ jaccardSimilarity (similarityWords (lit "ok")) (similarityWords (lit "so it is")) = 0%Q.
Proof.
  split.
  - apply (@similarity_without_guard (lit "call anna") (lit "anna is in")).
    vm_compute. intros H. discriminate H.
  - apply (@similarity_without_guard (lit "ok") (lit "so it is")). reflexivity.
Defined.

End LiveAnalyticsProps.
